(** * Private State Token issuer: a shallow embedding of
    [src/private-state-token.js] and the properties of its wire codec,
    key model, issue engine and redeem engine.

    Layout of the development:
    - bytes, the [result] monad and JavaScript truthiness;
    - [DataBuffer] and [Base64], the helpers of [utils.js];
    - [Noble], the interface of the elliptic-curve library on P-384;
    - the classes of the source file, one module per class;
    - the properties, stated over any pair of hash primitives. *)

From Stdlib Require Import ZArith String Ascii Bool Lia List.
From Bignums Require Import BigZ.
Import ListNotations.
Open Scope Z_scope.

(** ** Errors and the exception monad *)

(** The exceptions a call can raise.  [DecodeError] is a malformed wire
    message, [BadPoint] and [BadScalar] are the two argument checks of the
    curve library, [TypeError] is a property access on [undefined]. *)
Inductive Error : Type :=
  | DecodeError
  | BadPoint
  | BadScalar
  | TypeError.

Inductive result (A : Type) : Type :=
  | Ok (a : A)
  | Throw (e : Error).
Arguments Ok {A} a.
Arguments Throw {A} e.

Definition bind {A B : Type} (r : result A) (k : A -> result B) : result B :=
  match r with
  | Ok a => k a
  | Throw e => Throw e
  end.

Notation "x <- r ;; k" := (bind r (fun x => k))
  (at level 61, r at next level, right associativity).
Notation "' pat <- r ;; k" := (bind r (fun x => match x with pat => k end))
  (at level 61, pat pattern, r at next level, right associativity).

(** ** Bytes *)

(** A JavaScript array of numbers; an element is a byte when it lies in
    [0, 256). *)
Definition bytes := list Z.

Definition is_byte (b : Z) : Prop := 0 <= b < 256.
Definition all_bytes (bs : bytes) : Prop := Forall is_byte bs.

(** [Uint8Array.from(a)]: every element is reduced modulo 256. *)
Definition Uint8Array_from (a : bytes) : bytes := map (fun b => b mod 256) a.

(** [a.slice(start, stop)] and [a.slice(start)], for indices that are not
    negative; both clamp at the end of the array. *)
Definition slice (start stop : nat) (a : bytes) : bytes :=
  firstn (stop - start) (skipn start a).

Definition slice_from (start : nat) (a : bytes) : bytes := skipn start a.

(** Character codes of a string, as [DataBuffer.writeString] stores them. *)
Fixpoint char_codes (s : string) : bytes :=
  match s with
  | EmptyString => []
  | String c rest => Z.of_N (N_of_ascii c) :: char_codes rest
  end.

(** ** DataBuffer *)

Module DataBuffer.

(** What a read does when fewer bytes are left than were asked for. *)
Inductive ShortRead : Type :=
  | Strict   (* a short read is a hard parse error *)
  | Lenient. (* a short read returns what is left, as [Array.slice] does *)

(** Modelled from the spec: the [DataBuffer] class of [utils.js], which is
    not among the sources.  A growable byte array with a read cursor;
    multi-byte integers are big-endian and fixed-width. *)
Record t : Type := mk { buffer : bytes; offset : nat }.

Definition new (bs : bytes) : t := mk bs 0.
Definition empty : t := new [].

Fixpoint numberToBytes_le (n : Z) (len : nat) : bytes :=
  match len with
  | O => []
  | S len' => n mod 256 :: numberToBytes_le (n / 256) len'
  end.

(** Modelled from the spec: [DataBuffer.numberToBytes(n, len)], the [len]
    low-order bytes of [n], most significant first. *)
Definition numberToBytes (n : Z) (len : nat) : bytes :=
  rev (numberToBytes_le n len).

(** Modelled from the spec: [DataBuffer.bytesToNumber(bytes)], the
    big-endian value of a byte string. *)
Definition bytesToNumber (bs : bytes) : Z :=
  fold_left (fun acc b => acc * 256 + b) bs 0.

Definition writeBytes (bs : bytes) (d : t) : t :=
  mk (buffer d ++ bs) (offset d).

Definition writeInt (v : Z) (len : nat) (d : t) : t :=
  writeBytes (numberToBytes v len) d.

Definition writeInt32 (v : Z) (d : t) : t := writeInt v 4 d.

Definition writeString (s : string) (d : t) : t :=
  writeBytes (char_codes s) d.

Definition toBytes (d : t) : bytes := buffer d.

(** Modelled from the spec: [readBytes(len)]; section 4.2 makes a short
    read a hard parse error ([Strict]); [Lenient] is the behaviour of a
    plain slice, kept so that the results do not depend on the choice. *)
Definition readBytes (pol : ShortRead) (len : nat) (d : t)
  : result (bytes * t) :=
  let rest := skipn (offset d) (buffer d) in
  let d' := mk (buffer d) (offset d + len) in
  if (length rest <? len)%nat then
    match pol with
    | Strict => Throw DecodeError
    | Lenient => Ok (rest, d')
    end
  else Ok (firstn len rest, d').

Definition readInt (pol : ShortRead) (len : nat) (d : t)
  : result (Z * t) :=
  '(bs, d') <- readBytes pol len d ;;
  Ok (bytesToNumber bs, d').

End DataBuffer.

(** ** Base64 *)

Module Base64.

(** Modelled from the spec: the [Base64] codec of [utils.js] (standard
    alphabet, padded), which is not among the sources.  The decoder also
    reads the two characters of the URL alphabet, as the JWK fields of
    the source are written in it. *)
Definition char_of_sextet (s : Z) : ascii :=
  if s <? 26 then ascii_of_N (Z.to_N (s + 65))
  else if s <? 52 then ascii_of_N (Z.to_N (s + 71))
  else if s <? 62 then ascii_of_N (Z.to_N (s - 4))
  else if s =? 62 then "+"%char
  else "/"%char.

Definition sextet_of_char (c : ascii) : option Z :=
  let k := Z.of_N (N_of_ascii c) in
  if (65 <=? k) && (k <=? 90) then Some (k - 65)
  else if (97 <=? k) && (k <=? 122) then Some (k - 71)
  else if (48 <=? k) && (k <=? 57) then Some (k + 4)
  else if (k =? 43) || (k =? 45) then Some 62
  else if (k =? 47) || (k =? 95) then Some 63
  else None.

Definition pad : ascii := "="%char.

Fixpoint encode (bs : bytes) : string :=
  match bs with
  | [] => EmptyString
  | [a] =>
      String (char_of_sextet (a / 4))
        (String (char_of_sextet ((a mod 4) * 16))
           (String pad (String pad EmptyString)))
  | [a; b] =>
      String (char_of_sextet (a / 4))
        (String (char_of_sextet ((a mod 4) * 16 + b / 16))
           (String (char_of_sextet ((b mod 16) * 4))
              (String pad EmptyString)))
  | a :: b :: c :: rest =>
      String (char_of_sextet (a / 4))
        (String (char_of_sextet ((a mod 4) * 16 + b / 16))
           (String (char_of_sextet ((b mod 16) * 4 + c / 64))
              (String (char_of_sextet (c mod 64)) (encode rest))))
  end.

Definition sextet (c : ascii) : result Z :=
  match sextet_of_char c with
  | Some s => Ok s
  | None => Throw DecodeError
  end.

Fixpoint decode (s : string) : result bytes :=
  match s with
  | EmptyString => Ok []
  | String c1 (String c2 (String c3 (String c4 rest))) =>
      s1 <- sextet c1 ;;
      s2 <- sextet c2 ;;
      let a := s1 * 4 + s2 / 16 in
      if Ascii.eqb c4 pad then
        match rest with
        | EmptyString =>
            if Ascii.eqb c3 pad then Ok [a]
            else
              s3 <- sextet c3 ;;
              Ok [a; (s2 mod 16) * 16 + s3 / 4]
        | _ => Throw DecodeError
        end
      else
        s3 <- sextet c3 ;;
        s4 <- sextet c4 ;;
        tl <- decode rest ;;
        Ok (a :: (s2 mod 16) * 16 + s3 / 4 :: (s3 mod 4) * 64 + s4 :: tl)
  | _ => Throw DecodeError
  end.

End Base64.

(** ** The elliptic-curve library on P-384 *)

Module Noble.

(** The interface of [@noble/curves/p384] that the source file uses:
    [ec.CURVE], [ec.ProjectivePoint] with [ZERO], [BASE], [fromHex],
    [toRawBytes], [multiply], [add] and [equals].  The library is an
    external dependency; this module states its documented behaviour,
    argument checks included, over the NIST parameters that the source
    quotes in [VOPRF_P384].  The library computes on JavaScript BigInts,
    the model on [bigZ], so that it runs on 384-bit inputs. *)

(** Field prime, [ec.CURVE.p]. *)
Definition CURVE_p : Z :=
  39402006196394479212279040100143613805079739270465446667948293404245721771496870329047266088258938001861606973112319.
(** Group order, [ec.CURVE.n]. *)
Definition CURVE_n : Z :=
  39402006196394479212279040100143613805079739270465446667946905279627659399113263569398956308152294913554433653942643.
Definition CURVE_a : Z := CURVE_p - 3.
Definition CURVE_b : Z :=
  27580193559959705877849011840389048093056905856361568521428707301988689241309860865136260764883745107765439761230575.
Definition CURVE_Gx : Z :=
  26247035095799689268623156744566981891852923491109213387815615900925518854738050089022388053975719786650872476732087.
Definition CURVE_Gy : Z :=
  8325710961489029985546751289520108179287853048861315594709205902480503199884419224438643760392947333078086511627871.
(** Bytes of a field element, [Fp.BYTES]. *)
Definition Fp_BYTES : nat := 48.

(** A point of the curve.  The library keeps projective coordinates;
    [equals], [toRawBytes] and [toAffine] do not tell two representatives
    of a point apart, and the model keeps the affine one. *)
Inductive ProjectivePoint : Type :=
  | ZERO
  | Affine (x y : Z).

Definition BASE : ProjectivePoint := Affine CURVE_Gx CURVE_Gy.

Definition equals (P Q : ProjectivePoint) : bool :=
  match P, Q with
  | ZERO, ZERO => true
  | Affine x1 y1, Affine x2 y2 => (x1 =? x2) && (y1 =? y2)
  | _, _ => false
  end.

(** *** Field and group arithmetic, in Jacobian coordinates *)

Definition pB : bigZ := BigZ.of_Z CURVE_p.
Definition aB : bigZ := BigZ.of_Z CURVE_a.
Definition bB : bigZ := BigZ.of_Z CURVE_b.

Definition fadd (x y : bigZ) : bigZ := BigZ.modulo (BigZ.add x y) pB.
Definition fsub (x y : bigZ) : bigZ := BigZ.modulo (BigZ.sub x y) pB.
Definition fmul (x y : bigZ) : bigZ := BigZ.modulo (BigZ.mul x y) pB.
Definition fsqr (x : bigZ) : bigZ := fmul x x.
Definition fis0 (x : bigZ) : bool := BigZ.eqb x BigZ.zero.

Fixpoint fpow_pos (x : bigZ) (e : positive) : bigZ :=
  match e with
  | xH => x
  | xO e' => fsqr (fpow_pos x e')
  | xI e' => fmul (fsqr (fpow_pos x e')) x
  end.

Definition fpow (x : bigZ) (e : Z) : bigZ :=
  match e with
  | Zpos e' => fpow_pos x e'
  | _ => BigZ.one
  end.

Definition finv (x : bigZ) : bigZ := fpow x (CURVE_p - 2).

(** [x^3 + a x + b]. *)
Definition weierstrassEquation (x : bigZ) : bigZ :=
  fadd (fadd (fmul (fsqr x) x) (fmul aB x)) bB.

(** A Jacobian triple [(X, Y, Z)]; [Z = 0] is the point at infinity. *)
Definition jac : Type := (bigZ * bigZ * bigZ)%type.

Definition jzero : jac := (BigZ.one, BigZ.one, BigZ.zero).

Definition jdouble (P : jac) : jac :=
  let '(X, Y, Z) := P in
  if fis0 Z || fis0 Y then jzero
  else
    let YY := fsqr Y in
    let S := fmul (BigZ.of_Z 4) (fmul X YY) in
    let ZZ := fsqr Z in
    let M := fadd (fmul (BigZ.of_Z 3) (fsqr X)) (fmul aB (fsqr ZZ)) in
    let X' := fsub (fsqr M) (fmul (BigZ.of_Z 2) S) in
    let Y' := fsub (fmul M (fsub S X')) (fmul (BigZ.of_Z 8) (fsqr YY)) in
    let Z' := fmul (BigZ.of_Z 2) (fmul Y Z) in
    (X', Y', Z').

Definition jadd (P Q : jac) : jac :=
  let '(X1, Y1, Z1) := P in
  let '(X2, Y2, Z2) := Q in
  if fis0 Z1 then Q
  else if fis0 Z2 then P
  else
    let Z1Z1 := fsqr Z1 in
    let Z2Z2 := fsqr Z2 in
    let U1 := fmul X1 Z2Z2 in
    let U2 := fmul X2 Z1Z1 in
    let S1 := fmul Y1 (fmul Z2 Z2Z2) in
    let S2 := fmul Y2 (fmul Z1 Z1Z1) in
    if BigZ.eqb U1 U2 then
      if BigZ.eqb S1 S2 then jdouble P else jzero
    else
      let H := fsub U2 U1 in
      let R := fsub S2 S1 in
      let HH := fsqr H in
      let HHH := fmul H HH in
      let V := fmul U1 HH in
      let X3 := fsub (fsub (fsqr R) HHH) (fmul (BigZ.of_Z 2) V) in
      let Y3 := fsub (fmul R (fsub V X3)) (fmul S1 HHH) in
      let Z3 := fmul H (fmul Z1 Z2) in
      (X3, Y3, Z3).

Fixpoint jmul_pos (k : positive) (P : jac) : jac :=
  match k with
  | xH => P
  | xO k' => jdouble (jmul_pos k' P)
  | xI k' => jadd (jdouble (jmul_pos k' P)) P
  end.

Definition to_jac (P : ProjectivePoint) : jac :=
  match P with
  | ZERO => jzero
  | Affine x y => (BigZ.of_Z x, BigZ.of_Z y, BigZ.one)
  end.

Definition of_jac (P : jac) : ProjectivePoint :=
  let '(X, Y, Z) := P in
  if fis0 Z then ZERO
  else
    let zi := finv Z in
    let zi2 := fsqr zi in
    Affine (BigZ.to_Z (fmul X zi2)) (BigZ.to_Z (fmul Y (fmul zi zi2))).

(** [P.add(Q)]. *)
Definition add (P Q : ProjectivePoint) : ProjectivePoint :=
  of_jac (jadd (to_jac P) (to_jac Q)).

(** The scalar multiple [k * P] for a positive [k]. *)
Definition scalar_mul (k : Z) (P : ProjectivePoint) : ProjectivePoint :=
  match k with
  | Zpos k' => of_jac (jmul_pos k' (to_jac P))
  | _ => ZERO
  end.

(** [P.multiply(scalar)].  The library accepts a BigInt in [1, n - 1] and
    raises on everything else, [undefined] (here [None]) included: its
    first step is the check that [scalar] is a BigInt with
    [0 < scalar < CURVE.n]. *)
Definition multiply (P : ProjectivePoint) (scalar : option Z)
  : result ProjectivePoint :=
  match scalar with
  | Some k =>
      if (0 <? k) && (k <? CURVE_n) then Ok (scalar_mul k P)
      else Throw BadScalar
  | None => Throw BadScalar
  end.

(** [Fp.isValid]. *)
Definition isValidFieldElement (x : Z) : bool := (0 <=? x) && (x <? CURVE_p).

Definition on_curve (x y : Z) : bool :=
  BigZ.eqb (fsqr (BigZ.of_Z y)) (weierstrassEquation (BigZ.of_Z x)).

(** [P.assertValidity()]: the identity is refused (P-384 does not set
    [allowInfinityPoint]; the library's message is "bad point: ZERO"),
    the coordinates are field elements and satisfy the curve equation
    (the cofactor is 1). *)
Definition assertValidity (P : ProjectivePoint) : result unit :=
  match P with
  | ZERO => Throw BadPoint
  | Affine x y =>
      if isValidFieldElement x && isValidFieldElement y && on_curve x y
      then Ok tt
      else Throw BadPoint
  end.

(** [Point.fromAffine]: the pair [(0, 0)] stands for the identity. *)
Definition fromAffine (x y : Z) : ProjectivePoint :=
  if (x =? 0) && (y =? 0) then ZERO else Affine x y.

(** The square root the compressed encoding needs; [p = 3 (mod 4)]. *)
Definition fsqrt (v : bigZ) : result bigZ :=
  let r := fpow v ((CURVE_p + 1) / 4) in
  if BigZ.eqb (fsqr r) v then Ok r else Throw BadPoint.

(** [ProjectivePoint.fromHex(bytes)]: a 49-byte compressed or a 97-byte
    uncompressed X9.62 encoding, followed by [assertValidity]. *)
Definition fromHex (hex : bytes) : result ProjectivePoint :=
  match hex with
  | [] => Throw BadPoint
  | head :: tail =>
      let len := List.length hex in
      if (len =? 1 + Fp_BYTES)%nat && ((head =? 2) || (head =? 3)) then
        let x := DataBuffer.bytesToNumber tail in
        if (0 <? x) && (x <? CURVE_p) then
          y <- fsqrt (weierstrassEquation (BigZ.of_Z x)) ;;
          let y := BigZ.to_Z y in
          let y := if Bool.eqb (Z.odd head) (Z.odd y) then y
                   else (CURVE_p - y) mod CURVE_p in
          let P := fromAffine x y in
          _ <- assertValidity P ;;
          Ok P
        else Throw BadPoint
      else if (len =? 1 + 2 * Fp_BYTES)%nat && (head =? 4) then
        let x := DataBuffer.bytesToNumber (firstn Fp_BYTES tail) in
        let y := DataBuffer.bytesToNumber (skipn Fp_BYTES tail) in
        let P := fromAffine x y in
        _ <- assertValidity P ;;
        Ok P
      else Throw BadPoint
  end.

(** [P.toRawBytes(false)]: the library calls [this.assertValidity()]
    first, then writes [0x04 || x || y]. *)
Definition toRawBytes (P : ProjectivePoint) : result bytes :=
  _ <- assertValidity P ;;
  match P with
  | ZERO => Throw BadPoint
  | Affine x y =>
      Ok (4 :: DataBuffer.numberToBytes x Fp_BYTES
            ++ DataBuffer.numberToBytes y Fp_BYTES)
  end.

End Noble.


(** ** JavaScript values: maps and truthiness *)

(** A JavaScript [Map]: insertion-ordered, [set] on a present key keeps
    its place. *)
Section JSMap.
Context {K V : Type} (eqb : K -> K -> bool).

Fixpoint Map_get (m : list (K * V)) (k : K) : option V :=
  match m with
  | [] => None
  | (k', v) :: rest => if eqb k' k then Some v else Map_get rest k
  end.

Fixpoint Map_set (m : list (K * V)) (k : K) (v : V) : list (K * V) :=
  match m with
  | [] => [(k, v)]
  | (k', v') :: rest =>
      if eqb k' k then (k', v) :: rest else (k', v') :: Map_set rest k v
  end.

Definition Map_values (m : list (K * V)) : list V := map snd m.

Definition Map_of_entries (es : list (K * V)) : list (K * V) :=
  fold_left (fun m e => Map_set m (fst e) (snd e)) es [].
End JSMap.

(** A number that may be [undefined] or [NaN]; both are [None]. *)
Definition number := option Z.

Definition truthy (v : number) : bool :=
  match v with
  | Some z => negb (z =? 0)
  | None => false
  end.

(** [a || b] on numbers. *)
Definition js_or (a b : number) : number := if truthy a then a else b.

(** [a || b] on numbers that are never [undefined]. *)
Definition js_orZ (a b : Z) : Z := if a =? 0 then b else a.

(** ** The constants of the source file *)

Definition NONCE_LENGTH : nat := 64.
Definition DEFAULT_HOST : string := "https://localhost:8444".

Module VOPRF_P384.
Definition name : string := "P-384".
Definition MODULUS : Z := Noble.CURVE_p.
Definition ORDER : Z := Noble.CURVE_n.
Definition BITS : nat := 384.
Definition BYTES : nat := 384 / 8.
(** [VOPRF_P384.BYTES * 2 + 1], the length of an uncompressed point. *)
Definition POINT_BYTES : nat := BYTES * 2 + 1.
End VOPRF_P384.

(** ** ECPoint *)

Module ECPoint.

(** The two private fields [#value] and [#point]. *)
Record t : Type := mk { value : bytes; point : Noble.ProjectivePoint }.

(** The argument of the constructor: a library point or a byte array. *)
Inductive arg : Type :=
  | OfPoint (P : Noble.ProjectivePoint)
  | OfBytes (v : bytes).

Definition new (a : arg) : result t :=
  match a with
  | OfPoint P =>
      v <- Noble.toRawBytes P ;;
      Ok (mk v P)
  | OfBytes v =>
      P <- Noble.fromHex (Uint8Array_from v) ;;
      Ok (mk v P)
  end.

Definition toBytes (e : t) : bytes := value e.
Definition toString (e : t) : string := Base64.encode (toBytes e).
Definition toPoint (e : t) : Noble.ProjectivePoint := point e.

Definition multiply (e : t) (scalar : option Z) : result t :=
  P <- Noble.multiply (point e) scalar ;;
  new (OfPoint P).

End ECPoint.

(** ** Keys *)

(** The [value] argument of the two [from] functions: a Base64 string,
    an [Array] of bytes, or a number. *)
Inductive KeyValue : Type :=
  | VString (s : string)
  | VBytes (bs : bytes)
  | VNumber (z : Z).

Definition key_value_number (value : KeyValue) : result Z :=
  match value with
  | VString s =>
      bs <- Base64.decode s ;;
      Ok (DataBuffer.bytesToNumber bs)
  | VBytes bs => Ok (DataBuffer.bytesToNumber bs)
  | VNumber z => Ok z
  end.

Module PrivateStateTokenSecretKey.

Record t : Type := mk { id : Z; scalar : Z; expiry : number }.

Definition from (id : Z) (value : KeyValue) (expiry : number) : result t :=
  z <- key_value_number value ;;
  Ok (mk id z expiry).

Definition toBytes (k : t) : bytes := DataBuffer.numberToBytes (scalar k) 48.
Definition toString (k : t) : string := Base64.encode (toBytes k).

End PrivateStateTokenSecretKey.

Module PrivateStateTokenPublicKey.

Record t : Type := mk { id : Z; scalar : Z; expiry : number }.

Definition from (id : Z) (value : KeyValue) (expiry : number) : result t :=
  z <- key_value_number value ;;
  Ok (mk id z expiry).

Definition fromXY (id : Z) (x y : bytes) (expiry : number) : result t :=
  from id (VBytes ([4] ++ x ++ y)) expiry.

Definition toBytes (k : t) : bytes :=
  DataBuffer.numberToBytes (scalar k) (VOPRF_P384.BYTES * 2 + 1).
Definition toString (k : t) : string := Base64.encode (toBytes k).

(** [toXY()], lines 176-181.  [Base64.urlEncode] belongs to [utils.js],
    which is not among the sources; the function takes it as an argument
    and what is proved of it holds for every encoder. *)
Definition toXY (urlEncode : bytes -> string) (k : t) : string * string :=
  let bytes := toBytes k in
  let x := urlEncode (slice 1 (VOPRF_P384.BYTES + 1) bytes) in
  let y := urlEncode (slice_from (VOPRF_P384.BYTES + 2) bytes) in
  (x, y).

End PrivateStateTokenPublicKey.

Module PrivateStateTokenKeyPair.

Record t : Type := mk {
  id : Z;
  publicKey : PrivateStateTokenPublicKey.t;
  secretKey : PrivateStateTokenSecretKey.t;
  expiry : number
}.

Fixpoint ceil_log10_from (fuel : nat) (l pw e : Z) : Z :=
  match fuel with
  | O => l
  | S fuel' =>
      if e <=? pw then l else ceil_log10_from fuel' (l + 1) (pw * 10) e
  end.

(** [Math.ceil(Math.log10(e))] for a positive integer [e], over exact
    arithmetic: the least [l] with [e <= 10^l]. *)
Definition ceil_log10 (e : Z) : Z :=
  ceil_log10_from (Z.to_nat (Z.log2 e + 1)) 0 1 e.

(** [Math.ceil(x / 3)] for a natural [x]. *)
Definition ceil_div3 (x : Z) : Z := (x + 2) / 3.

(** Line 269: [expiry * 10 ** (ceil(max(16 - ceil(log10 expiry), 0) / 3) * 3)].
    The logarithm of a number that is not positive is [NaN], and so is
    the product.  Numbers are exact integers here and [Math.log10] is the
    exact logarithm; the floating-point one agrees with it at the powers
    of ten, where it is exact, and may round to a power of ten next to
    one. *)
Definition scale_expiry (expiry : Z) : number :=
  if 0 <? expiry then
    Some (expiry
          * 10 ^ (ceil_div3 (Z.max (16 - ceil_log10 expiry) 0) * 3))
  else None.

Definition NINETY_DAYS : Z := 90 * 24 * 60 * 60 * 1000.

(** The constructor; [now] is the value of [Date.now()]. *)
Definition new (now : Z) (id : Z)
    (publicKey : PrivateStateTokenPublicKey.t)
    (secretKey : PrivateStateTokenSecretKey.t) (expiry : number) : t :=
  let id' := js_orZ id (js_orZ (PrivateStateTokenSecretKey.id secretKey) 0) in
  let expiry1 :=
    js_or expiry
      (js_or (PrivateStateTokenSecretKey.expiry secretKey)
         (js_or (PrivateStateTokenPublicKey.expiry publicKey)
            (Some (now + NINETY_DAYS)))) in
  let expiry2 :=
    match expiry1 with
    | Some e => scale_expiry e
    | None => None
    end in
  mk id'
     (PrivateStateTokenPublicKey.mk
        (PrivateStateTokenPublicKey.id publicKey)
        (PrivateStateTokenPublicKey.scalar publicKey) expiry2)
     (PrivateStateTokenSecretKey.mk
        (PrivateStateTokenSecretKey.id secretKey)
        (PrivateStateTokenSecretKey.scalar secretKey) expiry2)
     expiry2.

(** The fields of a JWK that [fromJWK] reads. *)
Record JWK : Type := mkJWK {
  kid : Z; x : string; y : string; d : string; exp : number
}.

Definition fromJWK (now : Z) (jwk : JWK) (id : Z) : result t :=
  let keyID := js_orZ id (js_orZ (kid jwk) 0) in
  x <- Base64.decode (x jwk) ;;
  y <- Base64.decode (y jwk) ;;
  d <- Base64.decode (d jwk) ;;
  let expiry := exp jwk in
  publicKey <- PrivateStateTokenPublicKey.fromXY keyID x y expiry ;;
  secretKey <- PrivateStateTokenSecretKey.from keyID (VBytes d) expiry ;;
  Ok (new now keyID publicKey secretKey expiry).

Definition TEST_JWK_record : JWK :=
  mkJWK 0
    "qofKIr6LBTeOscce8yCtdG4dO2KLp5uYWfdB4IJUKjhVAvJdv1UpbDpUXjhydgq3"
    "yeghtWnZ05CiYWdAbW0j1gcL4kLXZeuDFiXO7EoPRz71n04w4oF-YoW84oRvFfGg"
    "////////////////////////////////x2NNgfQ3Ld9YGg2ySLCneuzsGWrMxSly"
    (Some 253402300799).

Definition TEST_JWK (now : Z) : result t := fromJWK now TEST_JWK_record 0.

(** [toJWK()], lines 279-289: [{kty, crv, kid, x, y, d}].  The record
    keeps the fields that [fromJWK] reads; the object has no [exp]. *)
Definition toJWK (urlEncode : bytes -> string) (kp : t) : JWK :=
  let '(x, y) := PrivateStateTokenPublicKey.toXY urlEncode (publicKey kp) in
  mkJWK (id kp) x y (PrivateStateTokenSecretKey.toString (secretKey kp)) None.

End PrivateStateTokenKeyPair.

(** ** The wire messages *)

Module IssueRequest.

Record t : Type := mk { nonces : list ECPoint.t }.

Definition count (r : t) : nat := List.length (nonces r).

(** The [while] loop of [from].  A point that fails to parse is caught
    and nothing is pushed, so [nonces.length] stays where it was; [fuel]
    bounds the iterations and [None] says that it ran out. *)
Fixpoint from_loop (pol : DataBuffer.ShortRead) (fuel : nat) (count : Z)
    (bytes : DataBuffer.t) (nonces : list ECPoint.t)
  : option (result (list ECPoint.t)) :=
  match fuel with
  | O =>
      if Z.of_nat (List.length nonces) <? count then None
      else Some (Ok nonces)
  | S fuel' =>
      if Z.of_nat (List.length nonces) <? count then
        match DataBuffer.readBytes pol VOPRF_P384.POINT_BYTES bytes with
        | Throw e => Some (Throw e)
        | Ok (value, bytes') =>
            match ECPoint.new (ECPoint.OfBytes value) with
            | Ok ecPoint => from_loop pol fuel' count bytes' (nonces ++ [ecPoint])
            | Throw _ => from_loop pol fuel' count bytes' nonces
            end
        end
      else Some (Ok nonces)
  end.

Definition from (pol : DataBuffer.ShortRead) (fuel : nat) (s : string)
  : option (result t) :=
  match Base64.decode s with
  | Throw e => Some (Throw e)
  | Ok decodedBytes =>
      let bytes := DataBuffer.new decodedBytes in
      match DataBuffer.readInt pol 2 bytes with
      | Throw e => Some (Throw e)
      | Ok (count, bytes) =>
          match from_loop pol fuel count bytes [] with
          | None => None
          | Some (Throw e) => Some (Throw e)
          | Some (Ok nonces) => Some (Ok (mk nonces))
          end
      end
  end.

Definition toBytes (r : t) : bytes :=
  let bytes := DataBuffer.writeInt (Z.of_nat (count r)) 2 DataBuffer.empty in
  let bytes :=
    fold_left (fun b nonce => DataBuffer.writeBytes (ECPoint.toBytes nonce) b)
      (nonces r) bytes in
  DataBuffer.buffer bytes.

Definition toString (r : t) : string := Base64.encode (toBytes r).

End IssueRequest.

Module IssueResponse.

Record t : Type := mk { keyID : Z; signed : list ECPoint.t; proof : bytes }.

Definition issued (r : t) : nat := List.length (signed r).

Definition toBytes (r : t) : bytes :=
  let buf := DataBuffer.writeInt (Z.of_nat (issued r)) 2 DataBuffer.empty in
  let buf := DataBuffer.writeInt (keyID r) 4 buf in
  let buf :=
    fold_left (fun b nonce => DataBuffer.writeBytes (ECPoint.toBytes nonce) b)
      (signed r) buf in
  let buf := DataBuffer.writeInt (Z.of_nat (List.length (proof r))) 2 buf in
  let buf := DataBuffer.writeBytes (proof r) buf in
  DataBuffer.toBytes buf.

Definition toString (r : t) : string := Base64.encode (toBytes r).

End IssueResponse.

Module RedeemRequest.

Record t : Type := mk {
  keyID : Z; nonce : bytes; point : ECPoint.t; clientData : bytes
}.

Definition from (pol : DataBuffer.ShortRead) (s : string) : result t :=
  decodedBytes <- Base64.decode s ;;
  let bytes := DataBuffer.new decodedBytes in
  '(tokenLen, bytes) <- DataBuffer.readInt pol 2 bytes ;;
  '(keyID, bytes) <- DataBuffer.readInt pol 4 bytes ;;
  '(nonce, bytes) <- DataBuffer.readBytes pol NONCE_LENGTH bytes ;;
  '(value, bytes) <- DataBuffer.readBytes pol VOPRF_P384.POINT_BYTES bytes ;;
  point <- ECPoint.new (ECPoint.OfBytes value) ;;
  '(clientDataLen, bytes) <- DataBuffer.readInt pol 2 bytes ;;
  '(clientData, bytes) <- DataBuffer.readBytes pol (Z.to_nat clientDataLen) bytes ;;
  Ok (mk keyID nonce point clientData).

Definition toBytes (r : t) : bytes :=
  let buf :=
    DataBuffer.writeInt
      (Z.of_nat (List.length (nonce r)
                 + List.length (ECPoint.toBytes (point r)) + 4)) 2
      DataBuffer.empty in
  let buf := DataBuffer.writeInt (keyID r) 4 buf in
  let buf := DataBuffer.writeBytes (nonce r) buf in
  let buf := DataBuffer.writeBytes (ECPoint.toBytes (point r)) buf in
  let buf := DataBuffer.writeInt (Z.of_nat (List.length (clientData r))) 2 buf in
  let buf := DataBuffer.writeBytes (clientData r) buf in
  DataBuffer.toBytes buf.

Definition toString (r : t) : string := Base64.encode (toBytes r).

End RedeemRequest.

Module RedeemResponse.

Record t : Type := mk { record : bytes }.

(** The argument of the constructor: an array, a typed array or a
    string. *)
Inductive arg : Type :=
  | OfArray (bs : bytes)
  | OfView (bs : bytes)
  | OfString (s : string).

(** [DataBuffer.stringToBytes] is taken to give the character codes, as
    [writeString] does. *)
Definition new (record : arg) : t :=
  match record with
  | OfView bs => mk bs
  | OfArray bs => mk bs
  | OfString s => mk (char_codes s)
  end.

Definition toBytes (r : t) : bytes := record r.
Definition toString (r : t) : string := Base64.encode (record r).

End RedeemResponse.

(** The [Token] class at the end of the source file (lines 1250-1332),
    the token of a private access token: its wire codec and the check of
    its type.  The methods that await a digest or a signature of the
    platform are outside the embedding. *)
Module Token.

Definition VOPRF : Z := 1.
Definition BLIND_RSA : Z := 2.

Record t : Type := mk {
  tokenType : Z;
  nonce : bytes;
  challengeHash : bytes;
  tokenKeyID : bytes;
  authenticator : bytes
}.

Definition from (pol : DataBuffer.ShortRead) (data : string) : result t :=
  tokenBytes <- Base64.decode data ;;
  let dataBuffer := DataBuffer.new tokenBytes in
  '(tokenType, dataBuffer) <- DataBuffer.readInt pol 2 dataBuffer ;;
  '(nonce, dataBuffer) <- DataBuffer.readBytes pol 32 dataBuffer ;;
  '(challengeHash, dataBuffer) <- DataBuffer.readBytes pol 32 dataBuffer ;;
  '(tokenKeyID, dataBuffer) <- DataBuffer.readBytes pol 32 dataBuffer ;;
  '(authenticator, dataBuffer) <- DataBuffer.readBytes pol 256 dataBuffer ;;
  Ok (mk tokenType nonce challengeHash tokenKeyID authenticator).

Definition toByteArray (k : t) : bytes :=
  let dataBuffer := DataBuffer.writeInt (tokenType k) 2 DataBuffer.empty in
  let dataBuffer := DataBuffer.writeBytes (nonce k) dataBuffer in
  let dataBuffer := DataBuffer.writeBytes (challengeHash k) dataBuffer in
  let dataBuffer := DataBuffer.writeBytes (tokenKeyID k) dataBuffer in
  let dataBuffer := DataBuffer.writeBytes (authenticator k) dataBuffer in
  DataBuffer.toBytes dataBuffer.

Definition toBytes (k : t) : bytes := toByteArray k.

Definition toString (urlEncode : bytes -> string) (k : t) : string :=
  urlEncode (toByteArray k).

Definition verifyTokenType (k : t) : bool :=
  (tokenType k =? VOPRF) || (tokenType k =? BLIND_RSA).

End Token.

(** ** The issuer *)

(** The two hash functions of [@noble/hashes/sha512]. *)
Inductive HashFn : Type := sha384 | sha512.

(** The options of [hash_to_field]. *)
Record H2FOpts : Type := mkH2F {
  h2f_DST : string; h2f_m : Z; h2f_p : Z; h2f_k : Z;
  h2f_expand : string; h2f_hash : HashFn
}.

(** The options of [hashToCurve]. *)
Record H2COpts : Type := mkH2C { h2c_DST : string; h2c_hash : HashFn }.

Record VersionConfig : Type := mkVersion {
  name : string;
  suite : string;
  hash : HashFn;
  hashToGroupDST : string;
  hashToScalarDST : string
}.

(** The characters [\x01] and [\0] of the domain-separation tags. *)
Definition SOH : string := String (ascii_of_N 1) EmptyString.
Definition NUL : string := String (ascii_of_N 0) EmptyString.

Module PrivateStateTokenIssuer.

Definition KEY_COMMITMENT_ID : Z := 1.

Definition PrivateStateTokenV3VOPRF : VersionConfig :=
  mkVersion "PrivateStateTokenV3VOPRF" "P384_XMD:SHA-512_SSWU_RO_" sha512
    ("TrustToken VOPRF Experiment V2 HashToGroup" ++ NUL)
    ("TrustToken VOPRF Experiment V2 HashToScalar" ++ NUL).

Definition PrivateStateTokenV1VOPRF : VersionConfig :=
  mkVersion "PrivateStateTokenV1VOPRF" "P384_XMD:SHA-384_SSWU_RO_" sha384
    ("HashToGroup-OPRFV1-" ++ SOH ++ "-P384-SHA384" ++ NUL)
    ("HashToScalar-OPRFV1-" ++ SOH ++ "-P384-SHA384" ++ NUL).

Definition VERSIONS : list (string * VersionConfig) :=
  Map_of_entries String.eqb
    [("PrivateStateTokenV3VOPRF"%string, PrivateStateTokenV3VOPRF);
     ("PrivateStateTokenV1VOPRF"%string, PrivateStateTokenV1VOPRF)].

Definition DEFAULT_VERSION : string := "PrivateStateTokenV3VOPRF".

(** A parameter with a default value, [version = d]: an absent argument
    is [None]. *)
Definition default_arg (version : option string) (d : string) : string :=
  match version with
  | Some v => v
  | None => d
  end.

(** [getVersionConfig(version = "PrivateStateTokenV3VOPRF")]; the result
    [None] is the [undefined] of a failed lookup. *)
Definition getVersionConfig (version : option string) : option VersionConfig :=
  let version := default_arg version "PrivateStateTokenV3VOPRF" in
  match Map_get String.eqb VERSIONS version with
  | Some config => Some config
  | None => Map_get String.eqb VERSIONS DEFAULT_VERSION
  end.

Record t : Type := mk {
  host : string;
  maxBatchSize : Z;
  keys : list (Z * PrivateStateTokenKeyPair.t)
}.

Definition new (host : string) (maxBatchSize : Z)
    (keys : list PrivateStateTokenKeyPair.t) : t :=
  mk host maxBatchSize
     (Map_of_entries Z.eqb
        (map (fun k => (PrivateStateTokenKeyPair.id k, k)) keys)).

Definition publicKeys (iss : t) : list PrivateStateTokenPublicKey.t :=
  map PrivateStateTokenKeyPair.publicKey (Map_values (keys iss)).

Definition addKey (key : PrivateStateTokenKeyPair.t) (iss : t) : t :=
  mk (host iss) (maxBatchSize iss)
     (Map_set Z.eqb (keys iss) (PrivateStateTokenKeyPair.id key) key).

Definition addJWK (now : Z) (jwk : PrivateStateTokenKeyPair.JWK) (iss : t)
  : result t :=
  key <- PrivateStateTokenKeyPair.fromJWK now jwk 0 ;;
  Ok (addKey key iss).

(** One entry of the [keys] object of a key commitment; the template
    literal of [expiry] is kept as the number it prints. *)
Record CommitmentKey : Type := mkCommitmentKey { Y : string; expiry : number }.

(** The key commitment [{host: {protocol: {protocol_version, id,
    batchsize, keys}}}]. *)
Record KeyCommitment : Type := mkKeyCommitment {
  kc_host : string;
  kc_protocol : string;
  protocol_version : string;
  kc_id : Z;
  batchsize : Z;
  kc_keys : list (Z * CommitmentKey)
}.

Definition keyCommitment (iss : t) (version : option string)
  : result KeyCommitment :=
  let version := default_arg version DEFAULT_VERSION in
  match getVersionConfig (Some version) with
  | None => Throw TypeError
  | Some protocol =>
      let keys :=
        fold_left
          (fun acc key =>
             let buffer :=
               DataBuffer.writeInt32 (PrivateStateTokenPublicKey.id key)
                 DataBuffer.empty in
             let buffer :=
               DataBuffer.writeBytes (PrivateStateTokenPublicKey.toBytes key)
                 buffer in
             let publicKey := Base64.encode (DataBuffer.toBytes buffer) in
             Map_set Z.eqb acc (PrivateStateTokenPublicKey.id key)
               (mkCommitmentKey publicKey
                  (PrivateStateTokenPublicKey.expiry key)))
          (publicKeys iss) [] in
      Ok (mkKeyCommitment (host iss) (name protocol) (name protocol)
            KEY_COMMITMENT_ID (maxBatchSize iss) keys)
  end.

Section Hashes.

(** The two hash primitives of the curve library, external to the
    source file: [hash_to_field msg opts] is
    [hash_to_field(msg, 1, opts)[0][0]] and [hashToCurve msg opts] is
    [hashToCurve(msg, opts)]. *)
Variable hash_to_field : bytes -> H2FOpts -> Z.
Variable hashToCurve : bytes -> H2COpts -> Noble.ProjectivePoint.

Definition hashTofieldConfig (config : VersionConfig) : H2FOpts :=
  mkH2F (hashToScalarDST config) 1 VOPRF_P384.ORDER 192 "xmd" (hash config).

(** The first loop of [issue]: sign every nonce and extend the batch
    transcript. *)
Fixpoint sign_loop (scalar : Z) (nonces : list ECPoint.t)
    (signedNonces : list ECPoint.t) (batch : bytes)
  : result (list ECPoint.t * bytes) :=
  match nonces with
  | [] => Ok (signedNonces, batch)
  | blindedToken :: rest =>
      z <- ECPoint.multiply blindedToken (Some scalar) ;;
      let signedNonces := signedNonces ++ [z] in
      let batch := batch ++ ECPoint.toBytes blindedToken in
      let batch := batch ++ ECPoint.toBytes z in
      sign_loop scalar rest signedNonces batch
  end.

(** The second loop: the batch coefficients, for [i] from its current
    value and [todo] more iterations. *)
Fixpoint exponent_loop (opts : H2FOpts) (batch : bytes) (todo i : nat)
    (exponentList : list Z) : list Z :=
  match todo with
  | O => exponentList
  | S todo' =>
      let buf := DataBuffer.writeString ("DLEQ BATCH" ++ NUL) DataBuffer.empty in
      let buf := DataBuffer.writeBytes batch buf in
      let buf := DataBuffer.writeInt (Z.of_nat i) 2 buf in
      let exponent :=
        hash_to_field (Uint8Array_from (DataBuffer.toBytes buf)) opts in
      exponent_loop opts batch todo' (S i) (exponentList ++ [exponent])
  end.

(** The third and fourth loops: the linear combination of the points
    [pts[i]] with the coefficients [exponentList[i]].  An index past
    the end of an array reads [undefined]. *)
Fixpoint combine_loop (pts : list ECPoint.t) (exponentList : list Z)
    (todo i : nat) (acc : Noble.ProjectivePoint)
  : result Noble.ProjectivePoint :=
  match todo with
  | O => Ok acc
  | S todo' =>
      match nth_error pts i with
      | None => Throw TypeError
      | Some pt =>
          q <- Noble.multiply (ECPoint.toPoint pt) (nth_error exponentList i) ;;
          combine_loop pts exponentList todo' (S i) (Noble.add acc q)
      end
  end.

(** [#generateDLEQProof(keyPair, btBatch, zBatch, version)]. *)
Definition generateDLEQProof (keyPair : PrivateStateTokenKeyPair.t)
    (btBatch zBatch : Noble.ProjectivePoint) (version : option string)
  : result bytes :=
  let version := default_arg version "PrivateStateTokenV3VOPRF" in
  let r := VOPRF_P384.ORDER - 1 in
  match getVersionConfig (Some version) with
  | None => Throw TypeError
  | Some config =>
      let hashTofieldConfig := hashTofieldConfig config in
      k0 <- Noble.multiply Noble.BASE (Some r) ;;
      k1 <- Noble.multiply btBatch (Some r) ;;
      let buf := DataBuffer.writeString ("DLEQ" ++ NUL) DataBuffer.empty in
      let buf :=
        DataBuffer.writeBytes
          (PrivateStateTokenPublicKey.toBytes
             (PrivateStateTokenKeyPair.publicKey keyPair)) buf in
      b <- Noble.toRawBytes btBatch ;;
      let buf := DataBuffer.writeBytes b buf in
      b <- Noble.toRawBytes zBatch ;;
      let buf := DataBuffer.writeBytes b buf in
      b <- Noble.toRawBytes k0 ;;
      let buf := DataBuffer.writeBytes b buf in
      b <- Noble.toRawBytes k1 ;;
      let buf := DataBuffer.writeBytes b buf in
      let c :=
        hash_to_field (Uint8Array_from (DataBuffer.toBytes buf))
          hashTofieldConfig in
      let u :=
        Z.rem
          (r + c * PrivateStateTokenSecretKey.scalar
                     (PrivateStateTokenKeyPair.secretKey keyPair))
          VOPRF_P384.ORDER in
      Ok (DataBuffer.numberToBytes c VOPRF_P384.BYTES
            ++ DataBuffer.numberToBytes u VOPRF_P384.BYTES)
  end.

(** [issue(keyId, request, version)]; [Ok None] is the [null] of an
    unknown key. *)
Definition issue (iss : t) (keyId : Z) (request : IssueRequest.t)
    (version : option string) : result (option IssueResponse.t) :=
  let version := default_arg version DEFAULT_VERSION in
  match Map_get Z.eqb (keys iss) keyId with
  | None => Ok None
  | Some keyPair =>
      match getVersionConfig (Some version) with
      | None => Throw TypeError
      | Some config =>
          let hashTofieldConfig := hashTofieldConfig config in
          let secretKey := PrivateStateTokenKeyPair.secretKey keyPair in
          let count := List.length (IssueRequest.nonces request) in
          let batch :=
            PrivateStateTokenPublicKey.toBytes
              (PrivateStateTokenKeyPair.publicKey keyPair) in
          '(signedNonces, batch) <-
             sign_loop (PrivateStateTokenSecretKey.scalar secretKey)
               (IssueRequest.nonces request) [] batch ;;
          let exponentList :=
            exponent_loop hashTofieldConfig batch count 0 [] in
          blindedTokenBatch <-
            combine_loop (IssueRequest.nonces request) exponentList
              count 0 Noble.ZERO ;;
          zBatch <-
            combine_loop signedNonces exponentList count 0 Noble.ZERO ;;
          proof <- generateDLEQProof keyPair blindedTokenBatch zBatch None ;;
          Ok (Some (IssueResponse.mk keyId signedNonces proof))
      end
  end.

(** [redeem(request, redemptionRecord, version)]; [Ok None] is the
    [null] of a rejected token. *)
Definition redeem (iss : t) (request : RedeemRequest.t)
    (redemptionRecord : RedeemResponse.arg) (version : option string)
  : result (option RedeemResponse.t) :=
  let version := default_arg version DEFAULT_VERSION in
  match getVersionConfig (Some version) with
  | None => Throw TypeError
  | Some config =>
      let evaluatedElement :=
        hashToCurve (Uint8Array_from (RedeemRequest.nonce request))
          (mkH2C (hashToGroupDST config) (hash config)) in
      let secretKey :=
        option_map PrivateStateTokenKeyPair.secretKey
          (Map_get Z.eqb (keys iss) (RedeemRequest.keyID request)) in
      issuedElement <-
        Noble.multiply evaluatedElement
          (option_map PrivateStateTokenSecretKey.scalar secretKey) ;;
      if Noble.equals (ECPoint.toPoint (RedeemRequest.point request))
           issuedElement
      then Ok (Some (RedeemResponse.new redemptionRecord))
      else Ok None
  end.

End Hashes.

End PrivateStateTokenIssuer.

(** ** Fixtures *)

(** Stand-ins for the two hash primitives, used to run the model on
    concrete inputs.  They keep the interface of the library (a scalar in
    [1, p - 1], a point of the curve) and depend on every option, and are
    no hash functions. *)
Definition hash_tag (h : HashFn) : Z :=
  match h with
  | sha384 => 384
  | sha512 => 512
  end.

Definition stub_hash_to_field (msg : bytes) (opts : H2FOpts) : Z :=
  1 + (fold_left Z.add msg 0
       + fold_left Z.add (char_codes (h2f_DST opts)) 0
       + hash_tag (h2f_hash opts)) mod (h2f_p opts - 1).

Definition stub_hashToCurve (msg : bytes) (opts : H2COpts) : Noble.ProjectivePoint :=
  Noble.scalar_mul
    (1 + (fold_left Z.add msg 0
          + fold_left Z.add (char_codes (h2c_DST opts)) 0
          + hash_tag (h2c_hash opts)) mod 1000)
    Noble.BASE.

(** The generator as a request nonce. *)
Definition G_bytes : bytes :=
  4 :: DataBuffer.numberToBytes Noble.CURVE_Gx 48
    ++ DataBuffer.numberToBytes Noble.CURVE_Gy 48.

Definition G_point : ECPoint.t := ECPoint.mk G_bytes Noble.BASE.

(** Ninety-seven bytes that are no point of the curve. *)
Definition off_curve_bytes : bytes := 4 :: repeat 1 96.

(** The fixture key pair of the source ([d = n - 1]) and the issuer that
    holds it. *)
Definition test_keyPair : PrivateStateTokenKeyPair.t :=
  match PrivateStateTokenKeyPair.TEST_JWK 0 with
  | Ok k => k
  | Throw _ =>
      PrivateStateTokenKeyPair.mk 0
        (PrivateStateTokenPublicKey.mk 0 0 None)
        (PrivateStateTokenSecretKey.mk 0 0 None) None
  end.

Definition test_issuer : PrivateStateTokenIssuer.t :=
  PrivateStateTokenIssuer.new DEFAULT_HOST 10 [test_keyPair].

(** A request of three elements whose middle one is not on the curve. *)
Definition invalid_middle_bytes : bytes :=
  [0; 3] ++ G_bytes ++ off_curve_bytes ++ G_bytes.

Definition invalid_middle_request : string := Base64.encode invalid_middle_bytes.

(** A redeem request whose client data does not fit a 16-bit length. *)
Definition long_clientData_request : RedeemRequest.t :=
  RedeemRequest.mk 0 (repeat 0 64) G_point (repeat 0 (Z.to_nat 65536)).

(** A redeem request of the fixture key. *)
Definition short_redeem_request : RedeemRequest.t :=
  RedeemRequest.mk 0 (repeat 0 64) G_point [1; 2; 3].

(** A redeem request that names a key the fixture issuer does not hold. *)
Definition unknown_key_request : RedeemRequest.t :=
  RedeemRequest.mk 99 (repeat 0 64) G_point [].

(** Scenario 5 of the specification: the nonce of 64 zero bytes and the
    point [sk * hash_to_group(nonce)] under the fixture key and V3. *)
Definition redeemable_request : RedeemRequest.t :=
  let H := stub_hashToCurve (repeat 0 64)
             (mkH2C (hashToGroupDST PrivateStateTokenIssuer.PrivateStateTokenV3VOPRF)
                    sha512) in
  RedeemRequest.mk 0 (repeat 0 64)
    (ECPoint.mk [] (Noble.scalar_mul (VOPRF_P384.ORDER - 1) H)) [].

(** ** Section 4.4 of the specification, in its own words *)

(** A valid input point: the 97-byte uncompressed encoding of the point
    it carries, as the constructor of [ECPoint] leaves it. *)
Definition valid_point (e : ECPoint.t) : Prop :=
  List.length (ECPoint.value e) = 97%nat
  /\ all_bytes (ECPoint.value e)
  /\ Noble.fromHex (ECPoint.value e) = Ok (ECPoint.point e).

(** A non-identity point of the curve, which the library serializes. *)
Definition valid_element (P : Noble.ProjectivePoint) : Prop :=
  Noble.assertValidity P = Ok tt.

(** The bytes that a reader has not consumed yet. *)
Definition unread (d : DataBuffer.t) : bytes :=
  skipn (DataBuffer.offset d) (DataBuffer.buffer d).

(** A scalar the library multiplies by: an integer of [1, n - 1]. *)
Definition valid_scalar (k : Z) : Prop := 0 < k < VOPRF_P384.ORDER.

Module Spec.

(** The X9.62 uncompressed encoding [0x04 || X(48) || Y(48)]. *)
Definition uncompressed (P : Noble.ProjectivePoint) : bytes :=
  match P with
  | Noble.ZERO => []
  | Noble.Affine x y =>
      4 :: DataBuffer.numberToBytes x 48 ++ DataBuffer.numberToBytes y 48
  end.

(** Step 3: [Z_i = sk * T_i]. *)
Definition sign (sk : Z) (T : ECPoint.t) : ECPoint.t :=
  let Z := Noble.scalar_mul sk (ECPoint.point T) in
  ECPoint.mk (uncompressed Z) Z.

Definition signed (sk : Z) (nonces : list ECPoint.t) : list ECPoint.t :=
  map (sign sk) nonces.

(** The bytes that one nonce adds to the batch transcript, [T_i || Z_i]. *)
Definition transcript_entry (sk : Z) (T : ECPoint.t) : bytes :=
  ECPoint.value T ++ ECPoint.value (sign sk T).

(** Step 4a: [B = pk_bytes || T_0 || Z_0 || T_1 || Z_1 || ...]. *)
Definition batch_transcript (pk_bytes : bytes) (sk : Z)
    (nonces : list ECPoint.t) : bytes :=
  pk_bytes ++ flat_map (transcript_entry sk) nonces.

(** The message of step 4b, ["DLEQ BATCH\0" || B || u16(i)]. *)
Definition batch_message (B : bytes) (i : nat) : bytes :=
  char_codes ("DLEQ BATCH" ++ NUL) ++ B
  ++ DataBuffer.numberToBytes (Z.of_nat i) 2.

(** One term [e * P] added to a linear combination. *)
Definition add_term (acc : Noble.ProjectivePoint)
    (pe : Noble.ProjectivePoint * Z) : Noble.ProjectivePoint :=
  Noble.add acc (Noble.scalar_mul (snd pe) (fst pe)).

(** The proof nonce of the source, [r = n - 1]. *)
Definition r : Z := VOPRF_P384.ORDER - 1.

Section Hashes.

Variable hash_to_field : bytes -> H2FOpts -> Z.

(** Step 4b: [e_i = hash_to_scalar("DLEQ BATCH\0" || B || u16(i))]. *)
Definition coefficient (opts : H2FOpts) (B : bytes) (i : nat) : Z :=
  hash_to_field (batch_message B i) opts.

Definition coefficients (opts : H2FOpts) (B : bytes) (count : nat) : list Z :=
  map (coefficient opts B) (seq 0 count).

(** Step 4c: the linear combination [sum e_i * P_i]. *)
Definition composite (pts : list Noble.ProjectivePoint) (es : list Z)
  : Noble.ProjectivePoint :=
  fold_left add_term (combine pts es) Noble.ZERO.

(** Steps 4e and 4f: the challenge over [pk || T* || Z* || k0 || k1],
    with [k0 = r * G] and [k1 = r * T*]. *)
Definition challenge_message (pk_bytes : bytes)
    (Tstar Zstar : Noble.ProjectivePoint) : bytes :=
  char_codes ("DLEQ" ++ NUL) ++ pk_bytes
  ++ uncompressed Tstar ++ uncompressed Zstar
  ++ uncompressed (Noble.scalar_mul r Noble.BASE)
  ++ uncompressed (Noble.scalar_mul r Tstar).

Definition challenge (opts : H2FOpts) (pk_bytes : bytes)
    (Tstar Zstar : Noble.ProjectivePoint) : Z :=
  hash_to_field (challenge_message pk_bytes Tstar Zstar) opts.

(** Step 4g: [u = (r + c * sk) mod n]. *)
Definition response (c sk : Z) : Z := (r + c * sk) mod VOPRF_P384.ORDER.

End Hashes.

End Spec.

(** ** One run of [issue], in the terms of section 4.4 *)

Section Run.

Variable hash_to_field : bytes -> H2FOpts -> Z.
Variable config : VersionConfig.
Variable keyPair : PrivateStateTokenKeyPair.t.
Variable nonces : list ECPoint.t.

(** The secret scalar [sk] and the bytes of the public key. *)
Definition run_sk : Z :=
  PrivateStateTokenSecretKey.scalar (PrivateStateTokenKeyPair.secretKey keyPair).

Definition run_pk_bytes : bytes :=
  PrivateStateTokenPublicKey.toBytes (PrivateStateTokenKeyPair.publicKey keyPair).

(** The batch transcript [B], the coefficients [e_i] under the selected
    version (the source hashes [Uint8Array.from] of each message), and
    the composites [T*] and [Z*]. *)
Definition run_transcript : bytes :=
  Spec.batch_transcript run_pk_bytes run_sk nonces.

Definition run_coefficients : list Z :=
  map (fun i => hash_to_field
                  (Uint8Array_from (Spec.batch_message run_transcript i))
                  (PrivateStateTokenIssuer.hashTofieldConfig config))
    (seq 0 (List.length nonces)).

Definition run_Tstar : Noble.ProjectivePoint :=
  Spec.composite (map ECPoint.point nonces) run_coefficients.

Definition run_Zstar : Noble.ProjectivePoint :=
  Spec.composite (map ECPoint.point (Spec.signed run_sk nonces)) run_coefficients.

(** The conditions under which no call of the curve library raises
    during the run: the secret scalar and the coefficients lie in
    [1, n - 1], and the signed elements, the two composites and
    [r * T*] are points other than the identity. *)
Definition run_defined : Prop :=
  valid_scalar run_sk
  /\ Forall (fun T => valid_element (Noble.scalar_mul run_sk (ECPoint.point T)))
       nonces
  /\ Forall valid_scalar run_coefficients
  /\ valid_element run_Tstar
  /\ valid_element run_Zstar
  /\ valid_element (Noble.scalar_mul Spec.r run_Tstar).

End Run.

(** The proof bytes that [#generateDLEQProof] assembles when it is called
    without a version: the challenge under the default configuration and
    the response with JavaScript's remainder. *)
Definition emitted_proof (hash_to_field : bytes -> H2FOpts -> Z)
    (keyPair : PrivateStateTokenKeyPair.t)
    (Tstar Zstar : Noble.ProjectivePoint) : bytes :=
  let c :=
    Spec.challenge hash_to_field
      (PrivateStateTokenIssuer.hashTofieldConfig
         PrivateStateTokenIssuer.PrivateStateTokenV3VOPRF)
      (run_pk_bytes keyPair) Tstar Zstar in
  DataBuffer.numberToBytes c 48
  ++ DataBuffer.numberToBytes
       (Z.rem (Spec.r + c * run_sk keyPair) VOPRF_P384.ORDER) 48.

(** The response of a run that completes. *)
Definition issue_result (hash_to_field : bytes -> H2FOpts -> Z)
    (config : VersionConfig) (keyPair : PrivateStateTokenKeyPair.t)
    (keyId : Z) (nonces : list ECPoint.t) : IssueResponse.t :=
  IssueResponse.mk keyId (Spec.signed (run_sk keyPair) nonces)
    (emitted_proof hash_to_field keyPair
       (run_Tstar hash_to_field config keyPair nonces)
       (run_Zstar hash_to_field config keyPair nonces)).

(** A nonce of 64 zero bytes hashed to the curve under V3, as a client
    without blinding would send it. *)
Definition hashed_nonce_point : ECPoint.t :=
  let H := stub_hashToCurve (repeat 0 64)
             (mkH2C (hashToGroupDST PrivateStateTokenIssuer.PrivateStateTokenV3VOPRF)
                    sha512) in
  ECPoint.mk (Spec.uncompressed H) H.

(** ** The identifiers of an issuer's keys *)

(** The identifiers of an issuer agree: no identifier occurs twice in the
    map, and every key pair sits under its own identifier, which its
    public key carries too.  [fromJWK] builds such pairs. *)
Definition ids_consistent (iss : PrivateStateTokenIssuer.t) : Prop :=
  NoDup (map fst (PrivateStateTokenIssuer.keys iss))
  /\ Forall (fun e =>
               PrivateStateTokenKeyPair.id (snd e) = fst e
               /\ PrivateStateTokenPublicKey.id
                    (PrivateStateTokenKeyPair.publicKey (snd e)) = fst e)
       (PrivateStateTokenIssuer.keys iss).

(** The entry of a public key in a key commitment:
    [{Y: base64(u32 id || pub), expiry}]. *)
Definition commitment_entry (key : PrivateStateTokenPublicKey.t)
  : PrivateStateTokenIssuer.CommitmentKey :=
  PrivateStateTokenIssuer.mkCommitmentKey
    (Base64.encode
       (DataBuffer.numberToBytes (PrivateStateTokenPublicKey.id key) 4
        ++ PrivateStateTokenPublicKey.toBytes key))
    (PrivateStateTokenPublicKey.expiry key).

(** * Properties *)

(** ** Bytes and the data buffer *)

Lemma result_bind_Ok {A B : Type} (r : result A) (k : A -> result B) (b : B) :
  bind r k = Ok b -> exists a, r = Ok a /\ k a = Ok b.
Proof.
  destruct r as [a|e]; simpl; intros H; [eauto | discriminate].
Qed.

Lemma Ok_inj {A : Type} (a b : A) : Ok a = Ok b -> a = b.
Proof. intros H; injection H; auto. Qed.

Lemma Uint8Array_from_bytes (bs : bytes) :
  all_bytes bs -> Uint8Array_from bs = bs.
Proof.
  unfold all_bytes, Uint8Array_from, is_byte.
  induction 1 as [|b bs Hb _ IH]; simpl; [reflexivity|].
  rewrite IH, Z.mod_small by lia; reflexivity.
Qed.

Lemma all_bytes_app (xs ys : bytes) :
  all_bytes xs -> all_bytes ys -> all_bytes (xs ++ ys).
Proof. unfold all_bytes; intros; apply Forall_app; auto. Qed.

Lemma numberToBytes_le_length (len : nat) : forall n,
  List.length (DataBuffer.numberToBytes_le n len) = len.
Proof. induction len; intros; simpl; [|rewrite IHlen]; reflexivity. Qed.

Lemma numberToBytes_length (n : Z) (len : nat) :
  List.length (DataBuffer.numberToBytes n len) = len.
Proof.
  unfold DataBuffer.numberToBytes.
  rewrite length_rev; apply numberToBytes_le_length.
Qed.

Lemma numberToBytes_le_bytes (len : nat) : forall n,
  all_bytes (DataBuffer.numberToBytes_le n len).
Proof.
  induction len; intros; simpl; constructor; [|apply IHlen].
  unfold is_byte; apply Z.mod_pos_bound; lia.
Qed.

Lemma numberToBytes_bytes (n : Z) (len : nat) :
  all_bytes (DataBuffer.numberToBytes n len).
Proof.
  unfold DataBuffer.numberToBytes, all_bytes.
  apply Forall_rev, numberToBytes_le_bytes.
Qed.

Lemma bytesToNumber_snoc (bs : bytes) (b : Z) :
  DataBuffer.bytesToNumber (bs ++ [b]) = DataBuffer.bytesToNumber bs * 256 + b.
Proof. unfold DataBuffer.bytesToNumber; rewrite fold_left_app; reflexivity. Qed.

(** Decoding a fixed-width big-endian integer gives back a value that fits. *)
Lemma bytesToNumber_numberToBytes (len : nat) : forall n,
  0 <= n < 256 ^ Z.of_nat len ->
  DataBuffer.bytesToNumber (DataBuffer.numberToBytes n len) = n.
Proof.
  unfold DataBuffer.numberToBytes.
  induction len as [|len IH]; intros n Hn.
  - simpl in *; unfold DataBuffer.bytesToNumber; simpl; lia.
  - cbn [DataBuffer.numberToBytes_le rev].
    rewrite bytesToNumber_snoc, IH.
    + pose proof (Z.div_mod n 256); lia.
    + rewrite Nat2Z.inj_succ, Z.pow_succ_r in Hn by lia.
      split; [apply Z.div_pos; lia | apply Z.div_lt_upper_bound; lia].
Qed.

(** A read at the cursor returns the bytes that sit there and leaves the
    rest unread, whatever the policy on short reads. *)
Lemma readBytes_rest (pol : DataBuffer.ShortRead) (d : DataBuffer.t)
    (bs post : bytes) (len : nat) :
  unread d = bs ++ post -> List.length bs = len ->
  exists d', DataBuffer.readBytes pol len d = Ok (bs, d') /\ unread d' = post.
Proof.
  unfold unread; intros Hrest Hlen.
  exists (DataBuffer.mk (DataBuffer.buffer d) (DataBuffer.offset d + len)).
  unfold DataBuffer.readBytes; rewrite Hrest; split.
  - assert (Hlt : (List.length (bs ++ post) <? len)%nat = false).
    { apply Nat.ltb_ge; rewrite length_app; lia. }
    rewrite Hlt, firstn_app, <- Hlen, firstn_all, Nat.sub_diag; cbn [firstn].
    rewrite app_nil_r; reflexivity.
  - cbn [DataBuffer.buffer DataBuffer.offset].
    rewrite Nat.add_comm, <- skipn_skipn, Hrest, skipn_app, <- Hlen.
    rewrite skipn_all, Nat.sub_diag; reflexivity.
Qed.

Lemma readInt_rest (pol : DataBuffer.ShortRead) (d : DataBuffer.t)
    (post : bytes) (v : Z) (len : nat) :
  unread d = DataBuffer.numberToBytes v len ++ post ->
  0 <= v < 256 ^ Z.of_nat len ->
  exists d', DataBuffer.readInt pol len d = Ok (v, d') /\ unread d' = post.
Proof.
  intros Hrest Hv.
  destruct (readBytes_rest pol d _ post len Hrest (numberToBytes_length v len))
    as (d' & Hread & Hd').
  exists d'; split; [|exact Hd'].
  unfold DataBuffer.readInt; rewrite Hread; cbn [bind].
  rewrite bytesToNumber_numberToBytes by assumption; reflexivity.
Qed.

(** ** Base64 *)

Lemma sextet_char (s : Z) :
  0 <= s < 64 -> Base64.sextet (Base64.char_of_sextet s) = Ok s.
Proof.
  intros Hs.
  assert (Hn : exists n : nat, s = Z.of_nat n /\ (n < 64)%nat).
  { exists (Z.to_nat s); lia. }
  destruct Hn as (n & -> & Hn).
  do 64 (destruct n as [|n]; [reflexivity|]); lia.
Qed.

Lemma char_of_sextet_not_pad (s : Z) :
  0 <= s -> Ascii.eqb (Base64.char_of_sextet s) Base64.pad = false.
Proof.
  intros Hs; unfold Base64.char_of_sextet, Base64.pad.
  destruct (Z.ltb_spec s 26); [|destruct (Z.ltb_spec s 52);
    [|destruct (Z.ltb_spec s 62); [|destruct (s =? 62); reflexivity]]];
  apply Ascii.eqb_neq; intros Hc;
  apply (f_equal N_of_ascii) in Hc;
  rewrite N_ascii_embedding in Hc by lia;
  change (N_of_ascii "=") with 61%N in Hc; lia.
Qed.

Ltac byte_arith :=
  unfold is_byte in *; Z.div_mod_to_equations; lia.

Lemma decode_encode_upto (n : nat) : forall bs,
  (List.length bs <= n)%nat -> all_bytes bs ->
  Base64.decode (Base64.encode bs) = Ok bs.
Proof.
  induction n as [|n IH]; intros bs Hlen Hbs.
  - destruct bs; [reflexivity | simpl in Hlen; lia].
  - destruct bs as [|a [|b [|c rest]]]; [reflexivity | | |].
    + apply Forall_inv in Hbs.
      cbn [Base64.encode Base64.decode].
      rewrite ?sextet_char by byte_arith; cbn [bind].
      rewrite Ascii.eqb_refl.
      do 2 f_equal; byte_arith.
    + pose proof (Forall_inv Hbs) as Ha.
      pose proof (Forall_inv (Forall_inv_tail Hbs)) as Hb.
      cbn [Base64.encode Base64.decode].
      rewrite ?sextet_char by byte_arith; cbn [bind].
      rewrite Ascii.eqb_refl.
      rewrite char_of_sextet_not_pad by byte_arith.
      rewrite ?sextet_char by byte_arith; cbn [bind].
      do 2 f_equal; [byte_arith | f_equal; byte_arith].
    + pose proof (Forall_inv Hbs) as Ha.
      pose proof (Forall_inv (Forall_inv_tail Hbs)) as Hb.
      pose proof (Forall_inv (Forall_inv_tail (Forall_inv_tail Hbs))) as Hc.
      assert (Hrest : all_bytes rest).
      { apply (Forall_inv_tail (Forall_inv_tail (Forall_inv_tail Hbs))). }
      cbn [Base64.encode Base64.decode].
      rewrite ?sextet_char by byte_arith; cbn [bind].
      rewrite char_of_sextet_not_pad by byte_arith.
      rewrite ?sextet_char by byte_arith; cbn [bind].
      rewrite IH by (assumption || (simpl in Hlen; lia)); cbn [bind].
      do 2 f_equal; [byte_arith | f_equal; [byte_arith | f_equal; byte_arith]].
Qed.

(** Decoding inverts encoding on byte strings. *)
Lemma decode_encode (bs : bytes) :
  all_bytes bs -> Base64.decode (Base64.encode bs) = Ok bs.
Proof. apply (decode_encode_upto (List.length bs)); lia. Qed.

(** ** The curve library and [ECPoint] *)

Lemma char_codes_bytes (s : string) : all_bytes (char_codes s).
Proof.
  induction s as [|c s IH]; simpl; constructor; [|exact IH].
  unfold is_byte; pose proof (N_ascii_bounded c); lia.
Qed.

Lemma toRawBytes_Ok (P : Noble.ProjectivePoint) (bs : bytes) :
  Noble.toRawBytes P = Ok bs <-> valid_element P /\ bs = Spec.uncompressed P.
Proof.
  unfold Noble.toRawBytes, valid_element.
  destruct (Noble.assertValidity P) as [[]|e] eqn:E; cbn [bind].
  - destruct P as [|x y]; [discriminate E|]; cbn [Spec.uncompressed].
    split; [intros H; injection H as <-; auto | intros [_ ->]; reflexivity].
  - split; [discriminate | intros [H _]; discriminate].
Qed.

Lemma multiply_Ok (P Q : Noble.ProjectivePoint) (k : Z) :
  Noble.multiply P (Some k) = Ok Q <-> valid_scalar k /\ Q = Noble.scalar_mul k P.
Proof.
  unfold Noble.multiply, valid_scalar, VOPRF_P384.ORDER.
  destruct (Z.ltb_spec 0 k), (Z.ltb_spec k Noble.CURVE_n); cbn [andb];
    (split; [intros Hm; try discriminate; injection Hm as <-; auto with zarith
            | intros [Hm ->]; try reflexivity; lia]).
Qed.

(** [T.multiply(k)] returns [k * T] in its uncompressed encoding, when [k]
    is a scalar and the product is not the identity. *)
Lemma ECPoint_multiply_Ok (T z : ECPoint.t) (k : Z) :
  ECPoint.multiply T (Some k) = Ok z
  <-> valid_scalar k
      /\ valid_element (Noble.scalar_mul k (ECPoint.point T))
      /\ z = Spec.sign k T.
Proof.
  unfold ECPoint.multiply, Spec.sign; split.
  - intros H; apply result_bind_Ok in H as (Q & HQ & H).
    apply multiply_Ok in HQ as [Hk ->].
    cbn [ECPoint.new] in H; apply result_bind_Ok in H as (bs & Hbs & H).
    apply toRawBytes_Ok in Hbs as [Hv ->].
    injection H as <-; auto.
  - intros (Hk & Hv & ->).
    assert (HQ : Noble.multiply (ECPoint.point T) (Some k)
                 = Ok (Noble.scalar_mul k (ECPoint.point T))).
    { apply multiply_Ok; auto. }
    rewrite HQ; cbn [bind ECPoint.new].
    assert (Hbs : Noble.toRawBytes (Noble.scalar_mul k (ECPoint.point T))
                  = Ok (Spec.uncompressed (Noble.scalar_mul k (ECPoint.point T)))).
    { apply toRawBytes_Ok; auto. }
    rewrite Hbs; reflexivity.
Qed.

Lemma uncompressed_bytes (P : Noble.ProjectivePoint) :
  all_bytes (Spec.uncompressed P).
Proof.
  destruct P as [|x y]; cbn [Spec.uncompressed]; [constructor|].
  constructor; [unfold is_byte; lia|].
  apply all_bytes_app; apply numberToBytes_bytes.
Qed.

Lemma uncompressed_length (P : Noble.ProjectivePoint) :
  valid_element P -> List.length (Spec.uncompressed P) = 97%nat.
Proof.
  destruct P as [|x y]; [discriminate|]; intros _; cbn [Spec.uncompressed].
  cbn [List.length]; rewrite length_app, !numberToBytes_length; reflexivity.
Qed.

(** Parsing the bytes of a valid point gives the point back. *)
Lemma ECPoint_new_valid (e : ECPoint.t) :
  valid_point e -> ECPoint.new (ECPoint.OfBytes (ECPoint.value e)) = Ok e.
Proof.
  intros (_ & Hb & Hx); cbn [ECPoint.new].
  rewrite Uint8Array_from_bytes, Hx by assumption.
  destruct e; reflexivity.
Qed.

(** ** Round trips of the wire codec *)

Lemma write_nonces_buffer (ns : list ECPoint.t) : forall d,
  DataBuffer.buffer
    (fold_left (fun b nonce => DataBuffer.writeBytes (ECPoint.toBytes nonce) b) ns d)
  = DataBuffer.buffer d ++ flat_map ECPoint.value ns.
Proof.
  induction ns as [|T ns IH]; intros d; cbn [fold_left flat_map].
  - rewrite app_nil_r; reflexivity.
  - rewrite IH; cbn [DataBuffer.writeBytes DataBuffer.buffer].
    rewrite <- app_assoc; reflexivity.
Qed.

Lemma valid_points_bytes (ns : list ECPoint.t) :
  Forall valid_point ns -> all_bytes (flat_map ECPoint.value ns).
Proof.
  induction 1 as [|T ns (_ & Hb & _) _ IH]; cbn [flat_map]; [constructor|].
  apply all_bytes_app; assumption.
Qed.

(** The decoding loop reads back a run of valid points, one per turn. *)
Lemma from_loop_valid (pol : DataBuffer.ShortRead) (ns : list ECPoint.t) :
  forall (acc : list ECPoint.t) (d : DataBuffer.t) (post : bytes) (fuel : nat),
    Forall valid_point ns ->
    unread d = flat_map ECPoint.value ns ++ post ->
    (List.length ns <= fuel)%nat ->
    IssueRequest.from_loop pol fuel
      (Z.of_nat (List.length acc + List.length ns)) d acc
    = Some (Ok (acc ++ ns)).
Proof.
  induction ns as [|T ns IH]; intros acc d post fuel Hv Hrest Hfuel.
  - rewrite Nat.add_0_r, app_nil_r.
    destruct fuel; cbn [IssueRequest.from_loop]; rewrite Z.ltb_irrefl; reflexivity.
  - destruct fuel as [|fuel]; [cbn [List.length] in Hfuel; lia|].
    cbn [IssueRequest.from_loop].
    assert (Hlt : (Z.of_nat (List.length acc)
                   <? Z.of_nat (List.length acc + List.length (T :: ns))) = true).
    { apply Z.ltb_lt; cbn [List.length]; lia. }
    rewrite Hlt.
    pose proof (Forall_inv Hv) as HT.
    cbn [flat_map] in Hrest; rewrite <- app_assoc in Hrest.
    destruct (readBytes_rest pol d _ _ VOPRF_P384.POINT_BYTES Hrest)
      as (d' & Hread & Hd'); [apply HT|].
    rewrite Hread, ECPoint_new_valid by exact HT.
    replace (List.length acc + List.length (T :: ns))%nat
      with (List.length (acc ++ [T]) + List.length ns)%nat
      by (rewrite length_app; cbn [List.length]; lia).
    rewrite (IH (acc ++ [T]) d' post fuel);
      [rewrite <- app_assoc; reflexivity | | assumption | ].
    + exact (Forall_inv_tail Hv).
    + cbn [List.length] in Hfuel; lia.
Qed.

(** An issue request of valid points, at most [2^16 - 1] of them, decodes
    from its own encoding. *)
Lemma IssueRequest_round_trip (pol : DataBuffer.ShortRead)
    (m : IssueRequest.t) (fuel : nat) :
  Forall valid_point (IssueRequest.nonces m) ->
  Z.of_nat (IssueRequest.count m) < 65536 ->
  (IssueRequest.count m <= fuel)%nat ->
  IssueRequest.from pol fuel (IssueRequest.toString m) = Some (Ok m).
Proof.
  intros Hv Hcount Hfuel.
  assert (Hbytes : IssueRequest.toBytes m
                   = DataBuffer.numberToBytes (Z.of_nat (IssueRequest.count m)) 2
                     ++ flat_map ECPoint.value (IssueRequest.nonces m)).
  { unfold IssueRequest.toBytes; rewrite write_nonces_buffer; reflexivity. }
  unfold IssueRequest.from, IssueRequest.toString.
  rewrite decode_encode.
  2:{ rewrite Hbytes; apply all_bytes_app;
      [apply numberToBytes_bytes | apply valid_points_bytes, Hv]. }
  destruct (readInt_rest pol (DataBuffer.new (IssueRequest.toBytes m))
              (flat_map ECPoint.value (IssueRequest.nonces m))
              (Z.of_nat (IssueRequest.count m)) 2)
    as (d' & Hread & Hd'); [exact Hbytes | change (256 ^ Z.of_nat 2) with 65536; lia |].
  rewrite Hread.
  unfold IssueRequest.count in *.
  pose proof (from_loop_valid pol (IssueRequest.nonces m) [] d' [] fuel Hv) as Hloop.
  cbn [List.length Nat.add app] in Hloop.
  rewrite Hloop; [destruct m; reflexivity | rewrite app_nil_r; exact Hd' | exact Hfuel].
Qed.

(** A redeem request whose fields fit their wire widths decodes from its
    own encoding. *)
Lemma RedeemRequest_round_trip (pol : DataBuffer.ShortRead) (m : RedeemRequest.t) :
  0 <= RedeemRequest.keyID m < 2 ^ 32 ->
  List.length (RedeemRequest.nonce m) = 64%nat ->
  all_bytes (RedeemRequest.nonce m) ->
  valid_point (RedeemRequest.point m) ->
  all_bytes (RedeemRequest.clientData m) ->
  Z.of_nat (List.length (RedeemRequest.clientData m)) < 65536 ->
  RedeemRequest.from pol (RedeemRequest.toString m) = Ok m.
Proof.
  intros Hid Hnl Hnb Hp Hcb Hcl.
  destruct m as [keyID nonce point clientData];
    cbn [RedeemRequest.keyID RedeemRequest.nonce RedeemRequest.point
         RedeemRequest.clientData] in *.
  pose proof Hp as (Hpl & Hpb & _).
  set (cdl := Z.of_nat (List.length clientData)).
  assert (Hbytes : RedeemRequest.toBytes (RedeemRequest.mk keyID nonce point clientData)
                   = DataBuffer.numberToBytes 165 2
                     ++ DataBuffer.numberToBytes keyID 4
                     ++ nonce ++ ECPoint.value point
                     ++ DataBuffer.numberToBytes cdl 2 ++ clientData).
  { unfold RedeemRequest.toBytes, ECPoint.toBytes;
      cbn [RedeemRequest.keyID RedeemRequest.nonce RedeemRequest.point
           RedeemRequest.clientData DataBuffer.writeInt DataBuffer.writeBytes
           DataBuffer.toBytes DataBuffer.buffer DataBuffer.empty DataBuffer.new].
    rewrite Hnl, Hpl, <- !app_assoc; reflexivity. }
  unfold RedeemRequest.from, RedeemRequest.toString.
  rewrite decode_encode.
  2:{ rewrite Hbytes;
      repeat (apply all_bytes_app;
              [first [apply numberToBytes_bytes | assumption]|]);
      assumption. }
  cbn [bind].
  destruct (readInt_rest pol (DataBuffer.new (RedeemRequest.toBytes
              (RedeemRequest.mk keyID nonce point clientData))) _ 165 2 Hbytes)
    as (d1 & -> & H1); [change (256 ^ Z.of_nat 2) with 65536; lia|]; cbn [bind].
  destruct (readInt_rest pol d1 _ keyID 4 H1)
    as (d2 & -> & H2); [change (256 ^ Z.of_nat 4) with (2 ^ 32); lia|]; cbn [bind].
  destruct (readBytes_rest pol d2 _ _ NONCE_LENGTH H2 Hnl)
    as (d3 & -> & H3); cbn [bind].
  destruct (readBytes_rest pol d3 _ _ VOPRF_P384.POINT_BYTES H3 Hpl)
    as (d4 & -> & H4); cbn [bind].
  rewrite ECPoint_new_valid by exact Hp; cbn [bind].
  destruct (readInt_rest pol d4 _ cdl 2 H4)
    as (d5 & -> & H5); [change (256 ^ Z.of_nat 2) with 65536; lia|]; cbn [bind].
  rewrite <- (app_nil_r clientData) in H5.
  destruct (readBytes_rest pol d5 _ _ (Z.to_nat cdl) H5)
    as (d6 & -> & H6); [unfold cdl; lia|]; cbn [bind].
  reflexivity.
Qed.

Lemma G_point_valid : valid_point G_point.
Proof.
  split; [reflexivity|split].
  - unfold G_point, G_bytes; cbn [ECPoint.value].
    constructor; [unfold is_byte; lia|].
    apply all_bytes_app; apply numberToBytes_bytes.
  - vm_compute; reflexivity.
Qed.

Lemma repeat_bytes (b : Z) (n : nat) : is_byte b -> all_bytes (repeat b n).
Proof. intros Hb; induction n; simpl; constructor; auto. Qed.

(** C8, as stated, fails: a request with a 64-byte nonce and 65536 bytes of
    client data does not decode to itself, under either reading policy. *)
Lemma long_clientData_not_round_trip :
  List.length (RedeemRequest.nonce long_clientData_request) = 64%nat
  /\ valid_point (RedeemRequest.point long_clientData_request)
  /\ RedeemRequest.from DataBuffer.Strict
       (RedeemRequest.toString long_clientData_request)
     <> Ok long_clientData_request
  /\ RedeemRequest.from DataBuffer.Lenient
       (RedeemRequest.toString long_clientData_request)
     <> Ok long_clientData_request.
Proof.
  pose (some := fun r : result RedeemRequest.t =>
                  match r with
                  | Ok m => match RedeemRequest.clientData m with
                            | [] => false
                            | _ :: _ => true
                            end
                  | Throw _ => false
                  end).
  assert (Hs : some (RedeemRequest.from DataBuffer.Strict
                       (RedeemRequest.toString long_clientData_request)) = false)
    by (vm_compute; reflexivity).
  assert (Hl : some (RedeemRequest.from DataBuffer.Lenient
                       (RedeemRequest.toString long_clientData_request)) = false)
    by (vm_compute; reflexivity).
  split; [reflexivity | split; [exact G_point_valid | split]]; intros H.
  - rewrite H in Hs; discriminate Hs.
  - rewrite H in Hl; discriminate Hl.
Qed.

(** C8 (amended): decoding is a left inverse of encoding.  An issue
    request of valid points whose count fits in a u16 decodes to the same
    nonces in the same order; a redeem request with a u32 key identifier,
    a 64-byte nonce, a valid point and client data of fewer than 2^16
    bytes decodes to equal [keyID], [nonce], [point] and [clientData]. *)
Theorem wire_round_trip (pol : DataBuffer.ShortRead) (fuel : nat)
    (m : IssueRequest.t) (q : RedeemRequest.t) :
  Forall valid_point (IssueRequest.nonces m) ->
  Z.of_nat (IssueRequest.count m) < 65536 ->
  (IssueRequest.count m <= fuel)%nat ->
  0 <= RedeemRequest.keyID q < 2 ^ 32 ->
  List.length (RedeemRequest.nonce q) = 64%nat ->
  all_bytes (RedeemRequest.nonce q) ->
  valid_point (RedeemRequest.point q) ->
  all_bytes (RedeemRequest.clientData q) ->
  Z.of_nat (List.length (RedeemRequest.clientData q)) < 65536 ->
  IssueRequest.from pol fuel (IssueRequest.toString m) = Some (Ok m)
  /\ RedeemRequest.from pol (RedeemRequest.toString q) = Ok q.
Proof.
  intros; split;
    [apply IssueRequest_round_trip | apply RedeemRequest_round_trip]; assumption.
Qed.

Lemma wire_round_trip_witness :
  IssueRequest.from DataBuffer.Strict 2
    (IssueRequest.toString (IssueRequest.mk [G_point; G_point]))
  = Some (Ok (IssueRequest.mk [G_point; G_point]))
  /\ RedeemRequest.from DataBuffer.Strict
       (RedeemRequest.toString short_redeem_request)
     = Ok short_redeem_request.
Proof.
  apply (wire_round_trip DataBuffer.Strict 2
           (IssueRequest.mk [G_point; G_point]) short_redeem_request).
  - do 2 (constructor; [exact G_point_valid|]); constructor.
  - cbn; lia.
  - cbn; lia.
  - cbn; lia.
  - reflexivity.
  - apply repeat_bytes; unfold is_byte; lia.
  - exact G_point_valid.
  - do 3 (constructor; [unfold is_byte; lia|]); constructor.
  - cbn; lia.
Defined.

(** ** The decoding loop on an invalid point *)

Lemma unread_advance (d : DataBuffer.t) (len : nat) :
  unread (DataBuffer.mk (DataBuffer.buffer d) (DataBuffer.offset d + len))
  = skipn len (unread d).
Proof.
  unfold unread; cbn [DataBuffer.buffer DataBuffer.offset].
  rewrite Nat.add_comm, skipn_skipn; reflexivity.
Qed.

(** Once the bytes are used up, a lenient reader returns an empty slice,
    the parse fails, nothing is pushed, and the loop condition holds
    forever. *)
Lemma from_loop_lenient_stuck (count : Z) (nonces : list ECPoint.t) :
  Z.of_nat (List.length nonces) < count ->
  forall (fuel : nat) (d : DataBuffer.t),
    unread d = [] ->
    IssueRequest.from_loop DataBuffer.Lenient fuel count d nonces = None.
Proof.
  intros Hlt; apply Z.ltb_lt in Hlt.
  induction fuel as [|fuel IH]; intros d Hd; cbn [IssueRequest.from_loop];
    rewrite Hlt; [reflexivity|].
  unfold DataBuffer.readBytes; fold (unread d); rewrite Hd.
  cbn [List.length Nat.ltb Nat.leb VOPRF_P384.POINT_BYTES].
  change (ECPoint.new (ECPoint.OfBytes [])) with (@Throw ECPoint.t BadPoint).
  apply IH; rewrite unread_advance, Hd; reflexivity.
Qed.

(** Under the strict policy every turn of the loop consumes 97 bytes or
    ends it, so the loop ends within [length / 97 + 1] turns. *)
Lemma from_loop_strict_terminates (count : Z) :
  forall (fuel : nat) (d : DataBuffer.t) (nonces : list ECPoint.t),
    (List.length (unread d) < 97 * fuel)%nat ->
    exists r, IssueRequest.from_loop DataBuffer.Strict fuel count d nonces = Some r.
Proof.
  induction fuel as [|fuel IH]; intros d nonces Hlen; [lia|].
  cbn [IssueRequest.from_loop].
  destruct (Z.of_nat (List.length nonces) <? count); [|eauto].
  unfold DataBuffer.readBytes; fold (unread d).
  destruct (Nat.ltb_spec (List.length (unread d)) VOPRF_P384.POINT_BYTES) as [Hs|Hs];
    [eauto|].
  assert (Hd' : (List.length (unread (DataBuffer.mk (DataBuffer.buffer d)
                   (DataBuffer.offset d + VOPRF_P384.POINT_BYTES))) < 97 * fuel)%nat).
  { rewrite unread_advance, length_skipn.
    change VOPRF_P384.POINT_BYTES with 97%nat in *; lia. }
  destruct (ECPoint.new _); apply IH; exact Hd'.
Qed.

Lemma IssueRequest_from_strict_terminates (s : string) :
  exists fuel r, IssueRequest.from DataBuffer.Strict fuel s = Some r.
Proof.
  unfold IssueRequest.from.
  destruct (Base64.decode s) as [bs|e]; [|exists 0%nat; eauto].
  destruct (DataBuffer.readInt DataBuffer.Strict 2 (DataBuffer.new bs))
    as [[count d]|e]; [|exists 0%nat; eauto].
  exists (S (List.length (unread d))).
  destruct (from_loop_strict_terminates count (S (List.length (unread d))) d [])
    as [r Hr]; [lia|].
  rewrite Hr; destruct r; eauto.
Qed.

(** One turn of the loop on a point that parses: it is pushed. *)
Lemma from_loop_push (pol : DataBuffer.ShortRead) (fuel : nat) (count : Z)
    (d d' : DataBuffer.t) (nonces : list ECPoint.t) (v : bytes) (p : ECPoint.t) :
  Z.of_nat (List.length nonces) < count ->
  DataBuffer.readBytes pol VOPRF_P384.POINT_BYTES d = Ok (v, d') ->
  ECPoint.new (ECPoint.OfBytes v) = Ok p ->
  IssueRequest.from_loop pol (S fuel) count d nonces
  = IssueRequest.from_loop pol fuel count d' (nonces ++ [p]).
Proof.
  intros Hlt Hread Hnew; apply Z.ltb_lt in Hlt.
  cbn [IssueRequest.from_loop]; rewrite Hlt, Hread, Hnew; reflexivity.
Qed.

(** One turn of the loop on a point that does not parse: nothing is
    pushed, and the number of nonces still to read is what it was. *)
Lemma from_loop_drop (pol : DataBuffer.ShortRead) (fuel : nat) (count : Z)
    (d d' : DataBuffer.t) (nonces : list ECPoint.t) (v : bytes) (e : Error) :
  Z.of_nat (List.length nonces) < count ->
  DataBuffer.readBytes pol VOPRF_P384.POINT_BYTES d = Ok (v, d') ->
  ECPoint.new (ECPoint.OfBytes v) = Throw e ->
  IssueRequest.from_loop pol (S fuel) count d nonces
  = IssueRequest.from_loop pol fuel count d' nonces.
Proof.
  intros Hlt Hread Hnew; apply Z.ltb_lt in Hlt.
  cbn [IssueRequest.from_loop]; rewrite Hlt, Hread, Hnew; reflexivity.
Qed.

(** What the loop does do: it reads until [count] points have parsed.
    With a count of two before the same three elements, the invalid one
    is dropped and the two valid nonces come back in their order. *)
Lemma from_reads_until_count_points_parse (pol : DataBuffer.ShortRead) :
  IssueRequest.from pol 3
    (Base64.encode ([0; 2] ++ G_bytes ++ off_curve_bytes ++ G_bytes))
  = Some (Ok (IssueRequest.mk [G_point; G_point])).
Proof. destruct pol; vm_compute; reflexivity. Qed.

(** C7: the decoder of an issue request on a three-element request whose
    middle 97 bytes are not a point of the curve.  The claim has it decode
    to the two valid nonces; the loop instead asks for a fourth element,
    since the dropped one was not counted.  With a strict reader that read
    raises [DecodeError]; with a lenient reader the loop never ends; under
    neither does the call return a request. *)
Theorem invalid_middle_point_not_skipped :
  (forall fuel : nat,
      IssueRequest.from DataBuffer.Strict (4 + fuel) invalid_middle_request
      = Some (Throw DecodeError))
  /\ (forall fuel : nat,
         IssueRequest.from DataBuffer.Lenient fuel invalid_middle_request = None)
  /\ (forall (pol : DataBuffer.ShortRead) (fuel : nat) (m : IssueRequest.t),
         IssueRequest.from pol fuel invalid_middle_request <> Some (Ok m)).
Proof.
  assert (Hstrict : forall fuel : nat,
             IssueRequest.from DataBuffer.Strict (4 + fuel) invalid_middle_request
             = Some (Throw DecodeError))
    by (intros fuel; vm_compute; reflexivity).
  assert (Hlenient : forall fuel : nat,
             IssueRequest.from DataBuffer.Lenient fuel invalid_middle_request = None);
    [intros fuel|].
  2:{ split; [exact Hstrict | split; [exact Hlenient|]].
      intros [|] fuel m; [|rewrite Hlenient; discriminate].
      destruct fuel as [|[|[|[|fuel]]]];
        [vm_compute; discriminate .. |].
      pose proof (Hstrict fuel) as Hs; cbn [Nat.add] in Hs.
      rewrite Hs; discriminate. }
  - unfold IssueRequest.from.
    assert (Hdec : Base64.decode invalid_middle_request = Ok invalid_middle_bytes)
      by (vm_compute; reflexivity).
    assert (Hcnt : DataBuffer.readInt DataBuffer.Lenient 2
                     (DataBuffer.new invalid_middle_bytes)
                   = Ok (3, DataBuffer.mk invalid_middle_bytes 2))
      by (vm_compute; reflexivity).
    rewrite Hdec, Hcnt.
    enough (Hloop : IssueRequest.from_loop DataBuffer.Lenient fuel 3
                      (DataBuffer.mk invalid_middle_bytes 2) [] = None)
      by (rewrite Hloop; reflexivity).
    destruct fuel as [|[|[|fuel]]];
      [vm_compute; reflexivity | vm_compute; reflexivity
       | vm_compute; reflexivity | ].
    rewrite (from_loop_push _ _ _ _ (DataBuffer.mk invalid_middle_bytes 99)
               _ G_bytes G_point);
      [|cbn; lia|vm_compute; reflexivity|vm_compute; reflexivity].
    rewrite (from_loop_drop _ _ _ _ (DataBuffer.mk invalid_middle_bytes 196)
               _ off_curve_bytes BadPoint);
      [|cbn; lia|vm_compute; reflexivity|vm_compute; reflexivity].
    rewrite (from_loop_push _ _ _ _ (DataBuffer.mk invalid_middle_bytes 293)
               _ G_bytes G_point);
      [|cbn; lia|vm_compute; reflexivity|vm_compute; reflexivity].
    apply from_loop_lenient_stuck; [cbn; lia | vm_compute; reflexivity].
Qed.

(** ** Protocol versions *)

Lemma VERSIONS_entries :
  PrivateStateTokenIssuer.VERSIONS
  = [("PrivateStateTokenV3VOPRF"%string,
      PrivateStateTokenIssuer.PrivateStateTokenV3VOPRF);
     ("PrivateStateTokenV1VOPRF"%string,
      PrivateStateTokenIssuer.PrivateStateTokenV1VOPRF)].
Proof. reflexivity. Qed.

(** The lookup of a version never comes back [undefined]. *)
Lemma getVersionConfig_total (version : option string) :
  exists config, PrivateStateTokenIssuer.getVersionConfig version = Some config.
Proof.
  unfold PrivateStateTokenIssuer.getVersionConfig.
  destruct (Map_get _ _ _) as [config|]; [eauto|].
  rewrite VERSIONS_entries; cbn; eauto.
Qed.

(** A default of PrivateStateTokenV3VOPRF at the caller changes nothing:
    [getVersionConfig] has the same default. *)
Lemma getVersionConfig_default (version : option string) :
  PrivateStateTokenIssuer.getVersionConfig
    (Some (PrivateStateTokenIssuer.default_arg version
             PrivateStateTokenIssuer.DEFAULT_VERSION))
  = PrivateStateTokenIssuer.getVersionConfig version.
Proof. destruct version; reflexivity. Qed.

Lemma getVersionConfig_unknown (version : option string) :
  version <> Some "PrivateStateTokenV1VOPRF"%string ->
  version <> Some "PrivateStateTokenV3VOPRF"%string ->
  PrivateStateTokenIssuer.getVersionConfig version
  = Some PrivateStateTokenIssuer.PrivateStateTokenV3VOPRF.
Proof.
  intros H1 H3; destruct version as [v|]; [|reflexivity].
  unfold PrivateStateTokenIssuer.getVersionConfig.
  rewrite VERSIONS_entries;
    cbn [Map_get PrivateStateTokenIssuer.default_arg].
  destruct (String.eqb_spec "PrivateStateTokenV3VOPRF" v) as [<-|_];
    [contradiction|].
  destruct (String.eqb_spec "PrivateStateTokenV1VOPRF" v) as [<-|_];
    [contradiction|].
  reflexivity.
Qed.

(** C10: a version string other than the two known ones, or no version
    at all, selects the configuration of PrivateStateTokenV3VOPRF, and
    [issue], [redeem] and [keyCommitment] then do what they do under V3;
    the lookup itself never fails. *)
Theorem unknown_version_falls_back_to_V3
    (hash_to_field : bytes -> H2FOpts -> Z)
    (hashToCurve : bytes -> H2COpts -> Noble.ProjectivePoint)
    (iss : PrivateStateTokenIssuer.t) (keyId : Z) (request : IssueRequest.t)
    (token : RedeemRequest.t) (redemptionRecord : RedeemResponse.arg)
    (version : option string) :
  version <> Some "PrivateStateTokenV1VOPRF"%string ->
  version <> Some "PrivateStateTokenV3VOPRF"%string ->
  PrivateStateTokenIssuer.getVersionConfig version
  = Some PrivateStateTokenIssuer.PrivateStateTokenV3VOPRF
  /\ PrivateStateTokenIssuer.issue hash_to_field iss keyId request version
     = PrivateStateTokenIssuer.issue hash_to_field iss keyId request
         (Some "PrivateStateTokenV3VOPRF"%string)
  /\ PrivateStateTokenIssuer.redeem hashToCurve iss token redemptionRecord version
     = PrivateStateTokenIssuer.redeem hashToCurve iss token redemptionRecord
         (Some "PrivateStateTokenV3VOPRF"%string)
  /\ PrivateStateTokenIssuer.keyCommitment iss version
     = PrivateStateTokenIssuer.keyCommitment iss
         (Some "PrivateStateTokenV3VOPRF"%string).
Proof.
  intros H1 H3.
  pose proof (getVersionConfig_unknown version H1 H3) as Hv.
  assert (H0 : PrivateStateTokenIssuer.getVersionConfig
                 (Some "PrivateStateTokenV3VOPRF"%string)
               = Some PrivateStateTokenIssuer.PrivateStateTokenV3VOPRF)
    by reflexivity.
  unfold PrivateStateTokenIssuer.issue, PrivateStateTokenIssuer.redeem,
    PrivateStateTokenIssuer.keyCommitment.
  rewrite !getVersionConfig_default, Hv, H0; auto.
Qed.

Lemma unknown_version_falls_back_to_V3_witness :
  PrivateStateTokenIssuer.getVersionConfig (Some "PrivateStateTokenV2"%string)
  = Some PrivateStateTokenIssuer.PrivateStateTokenV3VOPRF
  /\ PrivateStateTokenIssuer.issue stub_hash_to_field test_issuer 0
       (IssueRequest.mk [G_point]) (Some "PrivateStateTokenV2"%string)
     = PrivateStateTokenIssuer.issue stub_hash_to_field test_issuer 0
         (IssueRequest.mk [G_point]) (Some "PrivateStateTokenV3VOPRF"%string)
  /\ PrivateStateTokenIssuer.redeem stub_hashToCurve test_issuer
       short_redeem_request (RedeemResponse.OfArray [7]) (Some "PrivateStateTokenV2"%string)
     = PrivateStateTokenIssuer.redeem stub_hashToCurve test_issuer
         short_redeem_request (RedeemResponse.OfArray [7])
         (Some "PrivateStateTokenV3VOPRF"%string)
  /\ PrivateStateTokenIssuer.keyCommitment test_issuer (Some "PrivateStateTokenV2"%string)
     = PrivateStateTokenIssuer.keyCommitment test_issuer
         (Some "PrivateStateTokenV3VOPRF"%string).
Proof.
  apply (unknown_version_falls_back_to_V3 stub_hash_to_field stub_hashToCurve
           test_issuer 0 (IssueRequest.mk [G_point]) short_redeem_request
           (RedeemResponse.OfArray [7]) (Some "PrivateStateTokenV2"%string));
    discriminate.
Defined.

(** ** Redemption *)

Lemma equals_eq (P Q : Noble.ProjectivePoint) :
  Noble.equals P Q = true <-> P = Q.
Proof.
  destruct P as [|x1 y1], Q as [|x2 y2]; cbn [Noble.equals];
    try (split; [discriminate | discriminate]); [tauto|].
  rewrite andb_true_iff, !Z.eqb_eq; split.
  - intros [-> ->]; reflexivity.
  - intros H; injection H as -> ->; auto.
Qed.

(** C2: under the secret scalar [sk] of the key that the request names,
    [redeem] returns a response carrying the supplied record exactly when
    the point of the request is [sk * hash_to_group(nonce)], the hash
    taken with the group tag and the hash function of the selected
    version; on any other point it returns [null]. *)
Theorem redeem_accepts_exactly_the_signed_hash
    (hashToCurve : bytes -> H2COpts -> Noble.ProjectivePoint)
    (iss : PrivateStateTokenIssuer.t) (request : RedeemRequest.t)
    (redemptionRecord : RedeemResponse.arg) (version : option string)
    (keyPair : PrivateStateTokenKeyPair.t) (config : VersionConfig) :
  Map_get Z.eqb (PrivateStateTokenIssuer.keys iss) (RedeemRequest.keyID request)
  = Some keyPair ->
  valid_scalar (PrivateStateTokenSecretKey.scalar
                  (PrivateStateTokenKeyPair.secretKey keyPair)) ->
  all_bytes (RedeemRequest.nonce request) ->
  PrivateStateTokenIssuer.getVersionConfig version = Some config ->
  let sk := PrivateStateTokenSecretKey.scalar
              (PrivateStateTokenKeyPair.secretKey keyPair) in
  let E := Noble.scalar_mul sk
             (hashToCurve (RedeemRequest.nonce request)
                (mkH2C (hashToGroupDST config) (hash config))) in
  (ECPoint.point (RedeemRequest.point request) = E ->
   PrivateStateTokenIssuer.redeem hashToCurve iss request redemptionRecord version
   = Ok (Some (RedeemResponse.new redemptionRecord)))
  /\ (ECPoint.point (RedeemRequest.point request) <> E ->
      PrivateStateTokenIssuer.redeem hashToCurve iss request redemptionRecord version
      = Ok None)
  /\ (forall rr : bytes,
         RedeemResponse.record (RedeemResponse.new (RedeemResponse.OfArray rr)) = rr).
Proof.
  intros Hkey Hsk Hnonce Hcfg sk E.
  assert (Hmul : Noble.multiply
                   (hashToCurve (RedeemRequest.nonce request)
                      (mkH2C (hashToGroupDST config) (hash config)))
                   (Some sk) = Ok E)
    by (apply multiply_Ok; auto).
  unfold PrivateStateTokenIssuer.redeem.
  rewrite getVersionConfig_default, Hcfg, Hkey, Uint8Array_from_bytes by assumption.
  cbn [option_map]; fold sk; rewrite Hmul; cbn [bind ECPoint.toPoint].
  unfold ECPoint.toPoint; repeat split.
  - intros HE; rewrite HE, (proj2 (equals_eq E E) eq_refl); reflexivity.
  - intros HE; destruct (Noble.equals _ E) eqn:Heq; [|reflexivity].
    apply equals_eq in Heq; contradiction.
Qed.

Lemma test_key_present :
  Map_get Z.eqb (PrivateStateTokenIssuer.keys test_issuer) 0 = Some test_keyPair.
Proof. vm_compute; reflexivity. Qed.

Lemma test_key_scalar :
  PrivateStateTokenSecretKey.scalar
    (PrivateStateTokenKeyPair.secretKey test_keyPair)
  = VOPRF_P384.ORDER - 1.
Proof. vm_compute; reflexivity. Qed.

Lemma test_key_valid_scalar :
  valid_scalar (PrivateStateTokenSecretKey.scalar
                  (PrivateStateTokenKeyPair.secretKey test_keyPair)).
Proof. rewrite test_key_scalar; split; vm_compute; reflexivity. Qed.

Lemma redeem_accepts_exactly_the_signed_hash_witness :
  PrivateStateTokenIssuer.redeem stub_hashToCurve test_issuer redeemable_request
    (RedeemResponse.OfArray [7; 7]) None
  = Ok (Some (RedeemResponse.mk [7; 7]))
  /\ PrivateStateTokenIssuer.redeem stub_hashToCurve test_issuer short_redeem_request
       (RedeemResponse.OfArray [7; 7]) None
     = Ok None.
Proof.
  split.
  - apply (redeem_accepts_exactly_the_signed_hash stub_hashToCurve test_issuer
             redeemable_request (RedeemResponse.OfArray [7; 7]) None test_keyPair
             PrivateStateTokenIssuer.PrivateStateTokenV3VOPRF).
    + exact test_key_present.
    + exact test_key_valid_scalar.
    + apply repeat_bytes; unfold is_byte; lia.
    + reflexivity.
    + rewrite test_key_scalar; reflexivity.
  - apply (redeem_accepts_exactly_the_signed_hash stub_hashToCurve test_issuer
             short_redeem_request (RedeemResponse.OfArray [7; 7]) None test_keyPair
             PrivateStateTokenIssuer.PrivateStateTokenV3VOPRF).
    + exact test_key_present.
    + exact test_key_valid_scalar.
    + apply repeat_bytes; unfold is_byte; lia.
    + reflexivity.
    + rewrite test_key_scalar; vm_compute; discriminate.
Defined.

(** ** Unknown keys *)

(** C4: on a key identifier that the issuer does not hold, [issue]
    returns [null], which no successful response equals; [redeem] does not
    return the [null] of a rejection: it passes the [undefined] scalar of
    the missing key to the curve library, which raises. *)
Theorem unknown_key_issue_null_redeem_raises
    (hash_to_field : bytes -> H2FOpts -> Z)
    (hashToCurve : bytes -> H2COpts -> Noble.ProjectivePoint)
    (iss : PrivateStateTokenIssuer.t) (keyId : Z) (request : IssueRequest.t)
    (token : RedeemRequest.t) (redemptionRecord : RedeemResponse.arg)
    (version : option string) :
  Map_get Z.eqb (PrivateStateTokenIssuer.keys iss) keyId = None ->
  Map_get Z.eqb (PrivateStateTokenIssuer.keys iss) (RedeemRequest.keyID token) = None ->
  PrivateStateTokenIssuer.issue hash_to_field iss keyId request version = Ok None
  /\ (forall response : IssueResponse.t, Ok (Some response) <> Ok (@None IssueResponse.t))
  /\ PrivateStateTokenIssuer.redeem hashToCurve iss token redemptionRecord version
     = Throw BadScalar.
Proof.
  intros Hissue Hredeem; repeat split.
  - unfold PrivateStateTokenIssuer.issue; rewrite Hissue; reflexivity.
  - discriminate.
  - unfold PrivateStateTokenIssuer.redeem.
    rewrite getVersionConfig_default.
    destruct (getVersionConfig_total version) as [config ->].
    rewrite Hredeem; reflexivity.
Qed.

Lemma unknown_key_issue_null_redeem_raises_witness :
  PrivateStateTokenIssuer.issue stub_hash_to_field test_issuer 99
    (IssueRequest.mk [G_point]) None = Ok None
  /\ (forall response : IssueResponse.t, Ok (Some response) <> Ok (@None IssueResponse.t))
  /\ PrivateStateTokenIssuer.redeem stub_hashToCurve test_issuer unknown_key_request
       (RedeemResponse.OfArray [7; 7]) None
     = Throw BadScalar.
Proof.
  apply (unknown_key_issue_null_redeem_raises stub_hash_to_field stub_hashToCurve
           test_issuer 99 (IssueRequest.mk [G_point]) unknown_key_request
           (RedeemResponse.OfArray [7; 7]) None);
    vm_compute; reflexivity.
Defined.

(** ** Expiry *)

Lemma ceil_log10_from_spec (fuel : nat) : forall l pw e : Z,
  0 <= l -> pw = 10 ^ l ->
  (l = 0 \/ 10 ^ (l - 1) < e) ->
  e <= 10 ^ (l + Z.of_nat fuel) ->
  let L := PrivateStateTokenKeyPair.ceil_log10_from fuel l pw e in
  0 <= L /\ e <= 10 ^ L /\ (L = 0 \/ 10 ^ (L - 1) < e).
Proof.
  induction fuel as [|fuel IH]; intros l pw e Hl Hpw Hlow Hup;
    cbn [PrivateStateTokenKeyPair.ceil_log10_from].
  - rewrite Z.add_0_r in Hup; auto.
  - destruct (Z.leb_spec e pw) as [Hle|Hgt].
    + subst pw; auto.
    + apply IH.
      * lia.
      * subst pw; rewrite Z.pow_add_r by lia; lia.
      * right; replace (l + 1 - 1) with l by lia; subst pw; exact Hgt.
      * replace (l + 1 + Z.of_nat fuel) with (l + Z.of_nat (S fuel)) by lia.
        exact Hup.
Qed.

(** [ceil_log10 e] is the least [L] with [e <= 10^L]. *)
Lemma ceil_log10_spec (e : Z) :
  0 < e ->
  let L := PrivateStateTokenKeyPair.ceil_log10 e in
  0 <= L /\ e <= 10 ^ L /\ (L = 0 \/ 10 ^ (L - 1) < e).
Proof.
  intros He; unfold PrivateStateTokenKeyPair.ceil_log10.
  apply ceil_log10_from_spec; [lia | reflexivity | auto |].
  pose proof (Z.log2_nonneg e) as Hn.
  rewrite Z.add_0_l, Z2Nat.id by lia.
  pose proof (Z.log2_spec e He) as [_ Hlt].
  replace (Z.succ (Z.log2 e)) with (Z.log2 e + 1) in Hlt by lia.
  assert (2 ^ (Z.log2 e + 1) <= 10 ^ (Z.log2 e + 1))
    by (apply Z.pow_le_mono_l; lia).
  lia.
Qed.

Ltac fold_constants :=
  repeat match goal with
         | H : context [10 ^ (?a - 1)] |- _ =>
             let v := eval vm_compute in (10 ^ (a - 1)) in
             change (10 ^ (a - 1)) with v in H
         | H : context [10 ^ ?a] |- _ =>
             let v := eval vm_compute in (10 ^ a) in
             progress change (10 ^ a) with v in H
         end.

(** Away from the exact powers of ten the scaling is the one of section
    4.3: the least [k] of 0, 3, ..., 15 that brings the expiry to 16
    digits. *)
Lemma scale_expiry_not_power_of_ten (e : Z) :
  0 < e -> (forall j, 0 <= j -> e <> 10 ^ j) ->
  exists k,
    In k [0; 3; 6; 9; 12; 15]
    /\ PrivateStateTokenKeyPair.scale_expiry e = Some (e * 10 ^ k)
    /\ 10 ^ 15 <= e * 10 ^ k
    /\ forall k', In k' [0; 3; 6; 9; 12; 15] -> k' < k -> e * 10 ^ k' < 10 ^ 15.
Proof.
  intros He Hnp; unfold PrivateStateTokenKeyPair.scale_expiry.
  rewrite (proj2 (Z.ltb_lt 0 e) He).
  destruct (ceil_log10_spec e He) as (HL0 & Hup & Hlow).
  set (L := PrivateStateTokenKeyPair.ceil_log10 e) in *; clearbody L.
  assert (HL1 : 1 <= L).
  { destruct (Z.eq_dec L 0) as [->|]; [|lia].
    exfalso; apply (Hnp 0); [lia | change (10 ^ 0) with 1 in *; lia]. }
  assert (Hlt : 10 ^ (L - 1) < e < 10 ^ L).
  { destruct Hlow as [|Hlow]; [lia|].
    pose proof (Hnp L HL0); lia. }
  clear Hup Hlow Hnp.
  destruct (Z_le_gt_dec 16 L) as [Hbig|Hsmall].
  - exists 0; replace (Z.max (16 - L) 0) with 0 by lia.
    change (PrivateStateTokenKeyPair.ceil_div3 0 * 3) with 0.
    assert (10 ^ 15 <= 10 ^ (L - 1)) by (apply Z.pow_le_mono_r; lia).
    split; [cbn; auto|split; [reflexivity|split; [lia|]]].
    intros k' Hin Hk'; cbn in Hin; lia.
  - assert (Hcases : L = 1 \/ L = 2 \/ L = 3 \/ L = 4 \/ L = 5 \/ L = 6 \/ L = 7
                     \/ L = 8 \/ L = 9 \/ L = 10 \/ L = 11 \/ L = 12 \/ L = 13
                     \/ L = 14 \/ L = 15) by lia.
    repeat (destruct Hcases as [->|Hcases]); [..|subst L];
      match goal with
      | |- context [PrivateStateTokenKeyPair.ceil_div3 ?m * 3] =>
          let k := eval vm_compute in (PrivateStateTokenKeyPair.ceil_div3 m * 3) in
          change (PrivateStateTokenKeyPair.ceil_div3 m * 3) with k; exists k
      end;
      fold_constants;
      (split; [cbn; tauto|split; [reflexivity|split; [lia|]]]);
      intros k' Hin Hk'; cbn in Hin;
      repeat (destruct Hin as [<-|Hin]; [lia|]); contradiction.
Qed.

(** C9: the scaling of an expiry that is an exact power of 1000.  The
    claim asks for the least [k] of 0, 3, ..., 15 that brings the expiry to
    16 digits; the source counts the digits of [10^j] as [j], one too few,
    and scales [10^9] seconds and [10^12] milliseconds to [10^18] where
    [10^15] has 16 digits already, multiplies 1 by [10^18] ([k = 18]), and
    does not leave the 16-digit [10^15] unchanged. *)
Theorem expiry_power_of_thousand_overscaled (now id : Z)
    (publicKey : PrivateStateTokenPublicKey.t)
    (secretKey : PrivateStateTokenSecretKey.t) :
  PrivateStateTokenKeyPair.expiry
    (PrivateStateTokenKeyPair.new now id publicKey secretKey (Some (10 ^ 9)))
  = Some (10 ^ 9 * 10 ^ 9)
  /\ PrivateStateTokenKeyPair.expiry
       (PrivateStateTokenKeyPair.new now id publicKey secretKey (Some (10 ^ 12)))
     = Some (10 ^ 12 * 10 ^ 6)
  /\ PrivateStateTokenKeyPair.expiry
       (PrivateStateTokenKeyPair.new now id publicKey secretKey (Some 1))
     = Some (1 * 10 ^ 18)
  /\ PrivateStateTokenKeyPair.expiry
       (PrivateStateTokenKeyPair.new now id publicKey secretKey (Some (10 ^ 15)))
     = Some (10 ^ 15 * 10 ^ 3)
  /\ 10 ^ 15 <= 10 ^ 9 * 10 ^ 6 < 10 ^ 16.
Proof.
  repeat split; try reflexivity; lia.
Qed.

(** ** The loops of [issue] *)

Section IssueLoops.

Variable hash_to_field : bytes -> H2FOpts -> Z.

Local Abbreviation sign_loop := PrivateStateTokenIssuer.sign_loop.
Local Abbreviation exponent_loop :=
  (PrivateStateTokenIssuer.exponent_loop hash_to_field).
Local Abbreviation combine_loop := PrivateStateTokenIssuer.combine_loop.

(** The first loop signs every nonce in order, when the library accepts
    the scalar and every product. *)
Lemma sign_loop_ok (sk : Z) (nonces : list ECPoint.t) :
  valid_scalar sk ->
  Forall (fun T => valid_element (Noble.scalar_mul sk (ECPoint.point T))) nonces ->
  forall (acc : list ECPoint.t) (batch : bytes),
    sign_loop sk nonces acc batch
    = Ok (acc ++ Spec.signed sk nonces,
          batch ++ flat_map (Spec.transcript_entry sk) nonces).
Proof.
  intros Hsk Hv; induction Hv as [|T nonces HT _ IH]; intros acc batch.
  - cbn; rewrite !app_nil_r; reflexivity.
  - cbn [PrivateStateTokenIssuer.sign_loop].
    rewrite (proj2 (ECPoint_multiply_Ok T (Spec.sign sk T) sk)) by auto.
    cbn [bind]; rewrite IH; unfold Spec.transcript_entry, ECPoint.toBytes.
    cbn [Spec.signed map flat_map]; rewrite <- !app_assoc; reflexivity.
Qed.

(** And when it returns, that is what it returned. *)
Lemma sign_loop_inv (sk : Z) (nonces : list ECPoint.t) :
  forall (acc signed : list ECPoint.t) (batch B : bytes),
    sign_loop sk nonces acc batch = Ok (signed, B) ->
    signed = acc ++ Spec.signed sk nonces
    /\ B = batch ++ flat_map (Spec.transcript_entry sk) nonces
    /\ Forall (fun T => valid_element (Noble.scalar_mul sk (ECPoint.point T))) nonces
    /\ (nonces <> [] -> valid_scalar sk).
Proof.
  induction nonces as [|T nonces IH]; intros acc signed batch B H.
  - cbn in H; injection H as <- <-; rewrite !app_nil_r.
    split; [|split; [|split]]; [reflexivity | reflexivity | constructor | congruence].
  - cbn [PrivateStateTokenIssuer.sign_loop] in H.
    apply result_bind_Ok in H as (z & Hz & H).
    apply ECPoint_multiply_Ok in Hz as (Hsk & HT & ->).
    apply IH in H as (-> & -> & Hall & _).
    unfold Spec.transcript_entry, ECPoint.toBytes.
    cbn [Spec.signed map flat_map]; rewrite <- !app_assoc.
    split; [|split; [|split]];
      [reflexivity | reflexivity | constructor; assumption | intros _; exact Hsk].
Qed.

Lemma exponent_loop_spec (opts : H2FOpts) (B : bytes) (todo : nat) :
  forall (i : nat) (acc : list Z),
    exponent_loop opts B todo i acc
    = acc ++ map (fun j => hash_to_field (Uint8Array_from (Spec.batch_message B j)) opts)
               (seq i todo).
Proof.
  induction todo as [|todo IH]; intros i acc.
  - cbn; rewrite app_nil_r; reflexivity.
  - cbn [PrivateStateTokenIssuer.exponent_loop seq map].
    rewrite IH, <- app_assoc; cbn [app]; unfold Spec.batch_message.
    cbn [DataBuffer.toBytes DataBuffer.writeInt DataBuffer.writeBytes
         DataBuffer.writeString DataBuffer.buffer DataBuffer.empty
         DataBuffer.new app].
    rewrite <- !app_assoc; reflexivity.
Qed.

Lemma batch_message_bytes (B : bytes) (i : nat) :
  all_bytes B -> all_bytes (Spec.batch_message B i).
Proof.
  intros HB; unfold Spec.batch_message.
  apply all_bytes_app; [apply char_codes_bytes|].
  apply all_bytes_app; [exact HB | apply numberToBytes_bytes].
Qed.

Lemma skipn_cons_nth {A : Type} (l : list A) : forall (i : nat) (x : A) (rest : list A),
  skipn i l = x :: rest -> nth_error l i = Some x /\ skipn (S i) l = rest.
Proof.
  induction l as [|a l IH]; intros [|i] x rest H; cbn in *;
    try discriminate; [injection H as -> ->; auto | apply IH, H].
Qed.

(** The combining loops add the terms from index [i] on, when every
    coefficient is a scalar the library accepts. *)
Lemma combine_loop_ok (pts : list ECPoint.t) (es : list Z) :
  forall (ps' : list ECPoint.t) (es' : list Z) (i : nat)
         (acc : Noble.ProjectivePoint),
    skipn i pts = ps' -> skipn i es = es' ->
    List.length ps' = List.length es' ->
    Forall valid_scalar es' ->
    combine_loop pts es (List.length ps') i acc
    = Ok (fold_left Spec.add_term (combine (map ECPoint.point ps') es') acc).
Proof.
  induction ps' as [|P ps' IH]; intros es' i acc Hp He Hlen Hv; [reflexivity|].
  destruct es' as [|e es']; [discriminate Hlen|].
  apply skipn_cons_nth in Hp as [HP Hp], He as [He' He].
  cbn [List.length PrivateStateTokenIssuer.combine_loop].
  rewrite HP, He', (proj2 (multiply_Ok _ _ e)) by (split; [exact (Forall_inv Hv)|reflexivity]).
  cbn [bind]; rewrite (IH es' (S i)); auto.
  exact (Forall_inv_tail Hv).
Qed.

Lemma combine_loop_inv (pts : list ECPoint.t) (es : list Z) :
  forall (ps' : list ECPoint.t) (es' : list Z) (i : nat)
         (acc R : Noble.ProjectivePoint),
    skipn i pts = ps' -> skipn i es = es' ->
    List.length ps' = List.length es' ->
    combine_loop pts es (List.length ps') i acc = Ok R ->
    Forall valid_scalar es'
    /\ R = fold_left Spec.add_term (combine (map ECPoint.point ps') es') acc.
Proof.
  induction ps' as [|P ps' IH]; intros es' i acc R Hp He Hlen H.
  - destruct es'; [|discriminate Hlen]; cbn in H; injection H as <-; auto.
  - destruct es' as [|e es']; [discriminate Hlen|].
    apply skipn_cons_nth in Hp as [HP Hp], He as [He' He].
    cbn [List.length PrivateStateTokenIssuer.combine_loop] in H.
    rewrite HP, He' in H.
    apply result_bind_Ok in H as (q & Hq & H).
    apply multiply_Ok in Hq as [Hv ->].
    apply (IH es' (S i)) in H as [Hall ->]; auto.
Qed.

End IssueLoops.

(** ** The proof of discrete-logarithm equality *)

Lemma r_valid : valid_scalar Spec.r.
Proof. split; vm_compute; reflexivity. Qed.

Lemma k0_valid : valid_element (Noble.scalar_mul Spec.r Noble.BASE).
Proof. vm_compute; reflexivity. Qed.

Lemma multiply_r (P : Noble.ProjectivePoint) :
  Noble.multiply P (Some (VOPRF_P384.ORDER - 1)) = Ok (Noble.scalar_mul Spec.r P).
Proof. apply multiply_Ok; split; [exact r_valid | reflexivity]. Qed.

Lemma ZERO_not_valid : ~ valid_element Noble.ZERO.
Proof. discriminate. Qed.

Lemma challenge_message_bytes (pk_bytes : bytes) (Tstar Zstar : Noble.ProjectivePoint) :
  all_bytes pk_bytes -> all_bytes (Spec.challenge_message pk_bytes Tstar Zstar).
Proof.
  intros Hpk; unfold Spec.challenge_message.
  apply all_bytes_app; [apply char_codes_bytes|].
  apply all_bytes_app; [exact Hpk|].
  repeat (apply all_bytes_app; [apply uncompressed_bytes|]).
  apply uncompressed_bytes.
Qed.

Section DLEQ.

Variable hash_to_field : bytes -> H2FOpts -> Z.

(** Called without a version, [#generateDLEQProof] returns
    [emitted_proof] exactly when the four points it serializes are not
    the identity. *)
Lemma generateDLEQProof_default (keyPair : PrivateStateTokenKeyPair.t)
    (btBatch zBatch : Noble.ProjectivePoint) (proof : bytes) :
  PrivateStateTokenIssuer.generateDLEQProof hash_to_field keyPair btBatch zBatch None
  = Ok proof
  <-> valid_element btBatch
      /\ valid_element zBatch
      /\ valid_element (Noble.scalar_mul Spec.r btBatch)
      /\ proof = emitted_proof hash_to_field keyPair btBatch zBatch.
Proof.
  unfold PrivateStateTokenIssuer.generateDLEQProof, emitted_proof,
    Spec.challenge, Spec.challenge_message.
  change (PrivateStateTokenIssuer.getVersionConfig
            (Some (PrivateStateTokenIssuer.default_arg None
                     "PrivateStateTokenV3VOPRF")))
    with (Some PrivateStateTokenIssuer.PrivateStateTokenV3VOPRF).
  rewrite !multiply_r; cbn [bind].
  pose proof k0_valid as V3; revert V3.
  generalize (Noble.scalar_mul Spec.r Noble.BASE); intros k0 V3.
  set (pkb := PrivateStateTokenPublicKey.toBytes
                (PrivateStateTokenKeyPair.publicKey keyPair)).
  assert (Hmsg : forall b1 b2 b3 b4 : bytes,
             b1 = Spec.uncompressed btBatch -> b2 = Spec.uncompressed zBatch ->
             b3 = Spec.uncompressed k0 ->
             b4 = Spec.uncompressed (Noble.scalar_mul Spec.r btBatch) ->
             Uint8Array_from
               (DataBuffer.toBytes
                  (DataBuffer.writeBytes b4
                     (DataBuffer.writeBytes b3
                        (DataBuffer.writeBytes b2
                           (DataBuffer.writeBytes b1
                              (DataBuffer.writeBytes pkb
                                 (DataBuffer.writeString ("DLEQ" ++ NUL)
                                    DataBuffer.empty)))))))
             = char_codes ("DLEQ" ++ NUL) ++ pkb
               ++ b1 ++ b2 ++ b3 ++ b4).
  { intros b1 b2 b3 b4 -> -> -> ->.
    cbn [DataBuffer.toBytes DataBuffer.writeBytes DataBuffer.writeString
         DataBuffer.buffer DataBuffer.empty DataBuffer.new app].
    rewrite <- !app_assoc; apply Uint8Array_from_bytes.
    apply all_bytes_app; [apply char_codes_bytes|].
    apply all_bytes_app; [apply numberToBytes_bytes|].
    repeat (apply all_bytes_app; [apply uncompressed_bytes|]).
    apply uncompressed_bytes. }
  change VOPRF_P384.BYTES with 48%nat.
  change (run_pk_bytes keyPair) with pkb.
  change (run_sk keyPair)
    with (PrivateStateTokenSecretKey.scalar
            (PrivateStateTokenKeyPair.secretKey keyPair)).
  change (VOPRF_P384.ORDER - 1) with Spec.r.
  split.
  - intros H.
    apply result_bind_Ok in H as (b1 & H1 & H).
    apply result_bind_Ok in H as (b2 & H2 & H).
    apply result_bind_Ok in H as (b3 & H3' & H).
    apply result_bind_Ok in H as (b4 & H4 & H).
    apply toRawBytes_Ok in H1 as [V1 E1], H2 as [V2 E2],
      H3' as [_ E3], H4 as [V4 E4].
    rewrite (Hmsg b1 b2 b3 b4 E1 E2 E3 E4) in H.
    apply Ok_inj in H; subst b1 b2 b3 b4.
    split; [exact V1 | split; [exact V2 | split; [exact V4 | ]]].
    symmetry; exact H.
  - intros (V1 & V2 & V4 & ->).
    rewrite (proj2 (toRawBytes_Ok btBatch _) (conj V1 eq_refl)); cbn [bind].
    rewrite (proj2 (toRawBytes_Ok zBatch _) (conj V2 eq_refl)); cbn [bind].
    rewrite (proj2 (toRawBytes_Ok k0 _) (conj V3 eq_refl)); cbn [bind].
    rewrite (proj2 (toRawBytes_Ok _ _) (conj V4 eq_refl)); cbn [bind].
    rewrite (Hmsg _ _ _ _ eq_refl eq_refl eq_refl eq_refl); reflexivity.
Qed.

End DLEQ.

(** ** The run of [issue] *)

Lemma transcript_bytes (pk_bytes : bytes) (sk : Z) (nonces : list ECPoint.t) :
  all_bytes pk_bytes -> Forall valid_point nonces ->
  all_bytes (Spec.batch_transcript pk_bytes sk nonces).
Proof.
  intros Hpk Hv; unfold Spec.batch_transcript.
  apply all_bytes_app; [exact Hpk|].
  induction Hv as [|T nonces (_ & Hb & _) _ IH]; cbn [flat_map]; [constructor|].
  apply all_bytes_app; [|exact IH].
  unfold Spec.transcript_entry, Spec.sign; cbn [ECPoint.value].
  apply all_bytes_app; [exact Hb | apply uncompressed_bytes].
Qed.

Lemma signed_length (sk : Z) (nonces : list ECPoint.t) :
  List.length (Spec.signed sk nonces) = List.length nonces.
Proof. apply length_map. Qed.

Section IssueRun.

Variable hash_to_field : bytes -> H2FOpts -> Z.
Variable iss : PrivateStateTokenIssuer.t.
Variable keyId : Z.
Variable request : IssueRequest.t.
Variable version : option string.
Variable keyPair : PrivateStateTokenKeyPair.t.
Variable config : VersionConfig.

Hypothesis key_present :
  Map_get Z.eqb (PrivateStateTokenIssuer.keys iss) keyId = Some keyPair.
Hypothesis version_selected :
  PrivateStateTokenIssuer.getVersionConfig version = Some config.

Local Abbreviation nonces := (IssueRequest.nonces request).
Local Abbreviation sk := (run_sk keyPair).
Local Abbreviation Tstar := (run_Tstar hash_to_field config keyPair nonces).
Local Abbreviation Zstar := (run_Zstar hash_to_field config keyPair nonces).

Lemma run_coefficients_length :
  List.length (run_coefficients hash_to_field config keyPair nonces)
  = List.length nonces.
Proof. unfold run_coefficients; rewrite length_map, length_seq; reflexivity. Qed.

(** [issue] completes exactly on the runs in which no library call
    raises, and then returns [issue_result]. *)
Lemma issue_characterization (response : IssueResponse.t) :
  PrivateStateTokenIssuer.issue hash_to_field iss keyId request version
  = Ok (Some response)
  <-> run_defined hash_to_field config keyPair nonces
      /\ response = issue_result hash_to_field config keyPair keyId nonces.
Proof.
  unfold PrivateStateTokenIssuer.issue.
  rewrite key_present, getVersionConfig_default, version_selected.
  fold (run_sk keyPair) (run_pk_bytes keyPair).
  split.
  - intros H.
    apply result_bind_Ok in H as ([signed B] & Hsign & H).
    apply sign_loop_inv in Hsign as (-> & -> & Hz & Hsk).
    cbn [app] in H.
    fold (Spec.batch_transcript (run_pk_bytes keyPair) sk nonces) in H.
    fold (run_transcript keyPair nonces) in H.
    rewrite exponent_loop_spec in H; cbn [app] in H.
    fold (run_coefficients hash_to_field config keyPair nonces) in H.
    apply result_bind_Ok in H as (bt & Hbt & H).
    apply result_bind_Ok in H as (zb & Hzb & H).
    apply result_bind_Ok in H as (proof & Hproof & H).
    assert (Hlen : List.length nonces
                   = List.length (run_coefficients hash_to_field config keyPair nonces))
      by (rewrite run_coefficients_length; reflexivity).
    destruct (combine_loop_inv nonces _ nonces _ 0%nat Noble.ZERO bt
                eq_refl eq_refl Hlen Hbt) as [He Ebt].
    rewrite <- (signed_length sk nonces) in Hzb, Hlen.
    destruct (combine_loop_inv (Spec.signed sk nonces) _ (Spec.signed sk nonces) _
                0%nat Noble.ZERO zb eq_refl eq_refl Hlen Hzb) as [_ Ezb].
    subst bt zb.
    apply generateDLEQProof_default in Hproof as (VT & VZ & VR & ->).
    apply Ok_inj in H; injection H as <-.
    split; [|reflexivity].
    split; [|split; [exact Hz | split; [exact He | split; [exact VT | split; [exact VZ | exact VR]]]]].
    apply Hsk; intros Hnil; apply ZERO_not_valid.
    unfold Spec.composite in VT; rewrite Hnil in VT; exact VT.
  - intros ((Hsk & Hz & He & VT & VZ & VR) & ->).
    rewrite (sign_loop_ok sk nonces Hsk Hz); cbn [bind app].
    fold (Spec.batch_transcript (run_pk_bytes keyPair) sk nonces).
    fold (run_transcript keyPair nonces).
    rewrite exponent_loop_spec; cbn [app].
    fold (run_coefficients hash_to_field config keyPair nonces).
    assert (Hlen : List.length nonces
                   = List.length (run_coefficients hash_to_field config keyPair nonces))
      by (rewrite run_coefficients_length; reflexivity).
    rewrite (combine_loop_ok nonces _ nonces _ 0%nat Noble.ZERO
               eq_refl eq_refl Hlen He).
    cbn [bind].
    rewrite <- (signed_length sk nonces) in Hlen.
    rewrite <- (signed_length sk nonces) at 1.
    rewrite (combine_loop_ok (Spec.signed sk nonces) _ (Spec.signed sk nonces) _
               0%nat Noble.ZERO eq_refl eq_refl Hlen He).
    cbn [bind].
    cbn [skipn].
    change (fold_left Spec.add_term
              (combine (map ECPoint.point nonces)
                 (run_coefficients hash_to_field config keyPair nonces))
              Noble.ZERO) with Tstar.
    change (fold_left Spec.add_term
              (combine (map ECPoint.point (Spec.signed sk nonces))
                 (run_coefficients hash_to_field config keyPair nonces))
              Noble.ZERO) with Zstar.
    rewrite (proj2 (generateDLEQProof_default hash_to_field keyPair Tstar Zstar _)
               (conj VT (conj VZ (conj VR eq_refl)))).
    reflexivity.
Qed.

End IssueRun.

Lemma run_coefficients_spec (hash_to_field : bytes -> H2FOpts -> Z)
    (config : VersionConfig) (keyPair : PrivateStateTokenKeyPair.t)
    (nonces : list ECPoint.t) :
  Forall valid_point nonces ->
  run_coefficients hash_to_field config keyPair nonces
  = Spec.coefficients hash_to_field
      (PrivateStateTokenIssuer.hashTofieldConfig config)
      (run_transcript keyPair nonces) (List.length nonces).
Proof.
  intros Hv; unfold run_coefficients, Spec.coefficients, Spec.coefficient.
  apply map_ext; intros i.
  rewrite Uint8Array_from_bytes; [reflexivity|].
  apply batch_message_bytes, transcript_bytes;
    [apply numberToBytes_bytes | exact Hv].
Qed.

(** A response of [issue] comes from a key of the map, a configuration
    of the version table and a run in which no library call raised. *)
Lemma issue_response_inv (hash_to_field : bytes -> H2FOpts -> Z)
    (iss : PrivateStateTokenIssuer.t) (keyId : Z) (request : IssueRequest.t)
    (version : option string) (response : IssueResponse.t) :
  PrivateStateTokenIssuer.issue hash_to_field iss keyId request version
  = Ok (Some response) ->
  exists keyPair config,
    Map_get Z.eqb (PrivateStateTokenIssuer.keys iss) keyId = Some keyPair
    /\ PrivateStateTokenIssuer.getVersionConfig version = Some config
    /\ run_defined hash_to_field config keyPair (IssueRequest.nonces request)
    /\ response = issue_result hash_to_field config keyPair keyId
                    (IssueRequest.nonces request).
Proof.
  intros H.
  destruct (Map_get Z.eqb (PrivateStateTokenIssuer.keys iss) keyId)
    as [keyPair|] eqn:Hkey.
  - destruct (getVersionConfig_total version) as [config Hcfg].
    exists keyPair, config.
    apply (issue_characterization hash_to_field iss keyId request version
             keyPair config Hkey Hcfg) in H.
    tauto.
  - unfold PrivateStateTokenIssuer.issue in H; rewrite Hkey in H; discriminate H.
Qed.

(** C1, as stated, fails on the empty sequence: the batch composite is the
    identity, which the library refuses to serialize, and [issue] raises. *)
Lemma empty_request_raises :
  PrivateStateTokenIssuer.issue stub_hash_to_field test_issuer 0
    (IssueRequest.mk []) None
  = Throw BadPoint.
Proof. vm_compute; reflexivity. Qed.

(** C1 (amended): for a key pair of the issuer's map and a sequence of
    valid input points on which no call of the curve library raises (the
    secret scalar and the batch coefficients lie in [1, n - 1]; the signed
    elements, the composites [T*] and [Z*] and [r * T*] are not the
    identity, which excludes the empty sequence), [issue] returns a
    response whose [signed] list has the length of the request and holds
    [sk * T_i] at the position of the [i]-th nonce. *)
Theorem issue_signs_pointwise (hash_to_field : bytes -> H2FOpts -> Z)
    (iss : PrivateStateTokenIssuer.t) (keyId : Z) (request : IssueRequest.t)
    (version : option string) (keyPair : PrivateStateTokenKeyPair.t)
    (config : VersionConfig) :
  Map_get Z.eqb (PrivateStateTokenIssuer.keys iss) keyId = Some keyPair ->
  PrivateStateTokenIssuer.getVersionConfig version = Some config ->
  Forall valid_point (IssueRequest.nonces request) ->
  run_defined hash_to_field config keyPair (IssueRequest.nonces request) ->
  exists response,
    PrivateStateTokenIssuer.issue hash_to_field iss keyId request version
    = Ok (Some response)
    /\ IssueResponse.keyID response = keyId
    /\ List.length (IssueResponse.signed response)
       = List.length (IssueRequest.nonces request)
    /\ forall (i : nat) (T : ECPoint.t),
         nth_error (IssueRequest.nonces request) i = Some T ->
         exists z,
           nth_error (IssueResponse.signed response) i = Some z
           /\ ECPoint.point z
              = Noble.scalar_mul (run_sk keyPair) (ECPoint.point T)
           /\ ECPoint.value z = Spec.uncompressed (ECPoint.point z).
Proof.
  intros Hkey Hcfg _ Hrun.
  exists (issue_result hash_to_field config keyPair keyId (IssueRequest.nonces request)).
  split; [|split; [reflexivity | split]].
  - apply (issue_characterization hash_to_field iss keyId request version
             keyPair config Hkey Hcfg); auto.
  - apply signed_length.
  - intros i T HT; exists (Spec.sign (run_sk keyPair) T).
    cbn [issue_result IssueResponse.signed]; unfold Spec.signed.
    rewrite nth_error_map, HT; auto.
Qed.

(** The run of the fixture issuer on the single nonce [G] is defined:
    scenario 1 of the specification. *)
Lemma test_run_defined :
  run_defined stub_hash_to_field PrivateStateTokenIssuer.PrivateStateTokenV3VOPRF
    test_keyPair [G_point].
Proof.
  split; [exact test_key_valid_scalar|].
  split; [constructor; [vm_compute; reflexivity | constructor]|].
  split.
  - eassert (E : run_coefficients stub_hash_to_field
                   PrivateStateTokenIssuer.PrivateStateTokenV3VOPRF
                   test_keyPair [G_point] = _)
      by (vm_compute; reflexivity).
    rewrite E; constructor; [split; vm_compute; reflexivity | constructor].
  - split; [vm_compute; reflexivity|].
    split; vm_compute; reflexivity.
Qed.

Lemma issue_signs_pointwise_witness :
  exists response,
    PrivateStateTokenIssuer.issue stub_hash_to_field test_issuer 0
      (IssueRequest.mk [G_point]) None
    = Ok (Some response)
    /\ IssueResponse.keyID response = 0
    /\ List.length (IssueResponse.signed response) = 1%nat
    /\ forall (i : nat) (T : ECPoint.t),
         nth_error [G_point] i = Some T ->
         exists z,
           nth_error (IssueResponse.signed response) i = Some z
           /\ ECPoint.point z
              = Noble.scalar_mul (run_sk test_keyPair) (ECPoint.point T)
           /\ ECPoint.value z = Spec.uncompressed (ECPoint.point z).
Proof.
  apply (issue_signs_pointwise stub_hash_to_field test_issuer 0
           (IssueRequest.mk [G_point]) None test_keyPair
           PrivateStateTokenIssuer.PrivateStateTokenV3VOPRF).
  - exact test_key_present.
  - reflexivity.
  - constructor; [exact G_point_valid | constructor].
  - exact test_run_defined.
Defined.

(** ** The encoding of the proof *)

Lemma firstn_app_exact {A : Type} (a b : list A) (n : nat) :
  List.length a = n -> firstn n (a ++ b) = a.
Proof.
  intros <-; rewrite firstn_app, firstn_all, Nat.sub_diag; cbn [firstn].
  apply app_nil_r.
Qed.

Lemma skipn_app_exact {A : Type} (a b : list A) (n : nat) :
  List.length a = n -> skipn n (a ++ b) = b.
Proof.
  intros <-; rewrite skipn_app, skipn_all, Nat.sub_diag; reflexivity.
Qed.

Lemma ORDER_fits_48_bytes : VOPRF_P384.ORDER < 256 ^ 48.
Proof. vm_compute; reflexivity. Qed.

Lemma ORDER_positive : 1 < VOPRF_P384.ORDER.
Proof. vm_compute; reflexivity. Qed.

(** The frame of an issue response:
    [u16 issued || u32 key_id || signed || u16 proof_len || proof]. *)
Lemma IssueResponse_toBytes_frame (r : IssueResponse.t) :
  IssueResponse.toBytes r
  = DataBuffer.numberToBytes (Z.of_nat (IssueResponse.issued r)) 2
    ++ DataBuffer.numberToBytes (IssueResponse.keyID r) 4
    ++ flat_map ECPoint.value (IssueResponse.signed r)
    ++ DataBuffer.numberToBytes (Z.of_nat (List.length (IssueResponse.proof r))) 2
    ++ IssueResponse.proof r.
Proof.
  unfold IssueResponse.toBytes.
  cbn [DataBuffer.toBytes DataBuffer.writeBytes DataBuffer.writeInt DataBuffer.buffer].
  rewrite write_nonces_buffer.
  cbn [DataBuffer.writeBytes DataBuffer.writeInt DataBuffer.buffer
       DataBuffer.empty DataBuffer.new app].
  rewrite <- !app_assoc; reflexivity.
Qed.

(** C5: the proof that [issue] emits is 96 bytes long, the 48-byte
    big-endian encoding of the challenge [c] followed by that of the
    response [u = (r + c * sk) mod n], and [IssueResponse.toBytes] writes
    it after a 16-bit length equal to 96.  The hash primitive is taken to
    return an element of [0, p), as [hash_to_field] does. *)
Theorem proof_is_c_then_u_in_96_bytes (hash_to_field : bytes -> H2FOpts -> Z)
    (iss : PrivateStateTokenIssuer.t) (keyId : Z) (request : IssueRequest.t)
    (version : option string) (response : IssueResponse.t) :
  (forall msg opts, 1 < h2f_p opts -> 0 <= hash_to_field msg opts < h2f_p opts) ->
  PrivateStateTokenIssuer.issue hash_to_field iss keyId request version
  = Ok (Some response) ->
  exists keyPair config,
    Map_get Z.eqb (PrivateStateTokenIssuer.keys iss) keyId = Some keyPair
    /\ PrivateStateTokenIssuer.getVersionConfig version = Some config
    /\ let Tstar :=
         run_Tstar hash_to_field config keyPair (IssueRequest.nonces request) in
       let Zstar :=
         run_Zstar hash_to_field config keyPair (IssueRequest.nonces request) in
       let c := Spec.challenge hash_to_field
                  (PrivateStateTokenIssuer.hashTofieldConfig
                     PrivateStateTokenIssuer.PrivateStateTokenV3VOPRF)
                  (run_pk_bytes keyPair) Tstar Zstar in
       let u := Spec.response c (run_sk keyPair) in
       IssueResponse.proof response
       = DataBuffer.numberToBytes c 48 ++ DataBuffer.numberToBytes u 48
       /\ List.length (IssueResponse.proof response) = 96%nat
       /\ DataBuffer.bytesToNumber (firstn 48 (IssueResponse.proof response)) = c
       /\ DataBuffer.bytesToNumber (skipn 48 (IssueResponse.proof response)) = u
       /\ IssueResponse.toBytes response
          = DataBuffer.numberToBytes (Z.of_nat (IssueResponse.issued response)) 2
            ++ DataBuffer.numberToBytes keyId 4
            ++ flat_map ECPoint.value (IssueResponse.signed response)
            ++ [0; 96] ++ IssueResponse.proof response.
Proof.
  intros Hrange H.
  apply issue_response_inv in H as (keyPair & config & Hkey & Hcfg & Hrun & ->).
  destruct Hrun as (Hsk & _).
  exists keyPair, config.
  split; [exact Hkey | split; [exact Hcfg|]].
  intros Tstar Zstar c u.
  assert (Hc : 0 <= c < VOPRF_P384.ORDER).
  { apply (Hrange _ (PrivateStateTokenIssuer.hashTofieldConfig
                       PrivateStateTokenIssuer.PrivateStateTokenV3VOPRF)).
    exact ORDER_positive. }
  assert (Hu : 0 <= u < VOPRF_P384.ORDER).
  { apply Z.mod_pos_bound; pose proof ORDER_positive; lia. }
  assert (Hproof : IssueResponse.proof
                     (issue_result hash_to_field config keyPair keyId
                        (IssueRequest.nonces request))
                   = DataBuffer.numberToBytes c 48 ++ DataBuffer.numberToBytes u 48).
  { cbn [issue_result IssueResponse.proof]; unfold emitted_proof.
    fold Tstar Zstar c; do 2 f_equal.
    unfold u, Spec.response; apply Z.rem_mod_nonneg.
    - pose proof r_valid as [Hr _]; destruct Hsk as [Hsk _]; nia.
    - pose proof ORDER_positive; lia. }
  pose proof ORDER_fits_48_bytes as Hfit.
  rewrite IssueResponse_toBytes_frame, Hproof.
  split; [reflexivity|].
  split; [rewrite length_app, !numberToBytes_length; reflexivity|].
  split; [|split].
  - rewrite firstn_app_exact by apply numberToBytes_length.
    apply bytesToNumber_numberToBytes; change (Z.of_nat 48) with 48; lia.
  - rewrite skipn_app_exact by apply numberToBytes_length.
    apply bytesToNumber_numberToBytes; change (Z.of_nat 48) with 48; lia.
  - rewrite length_app, !numberToBytes_length; reflexivity.
Qed.

Lemma stub_hash_range (msg : bytes) (opts : H2FOpts) :
  1 < h2f_p opts -> 0 <= stub_hash_to_field msg opts < h2f_p opts.
Proof.
  intros Hp; unfold stub_hash_to_field.
  set (x := _ + _ + _).
  pose proof (Z.mod_pos_bound x (h2f_p opts - 1)); lia.
Qed.

(** Scenario 1 of the specification: the fixture issuer signs [G]. *)
Lemma test_issue_response :
  PrivateStateTokenIssuer.issue stub_hash_to_field test_issuer 0
    (IssueRequest.mk [G_point]) None
  = Ok (Some (issue_result stub_hash_to_field
                PrivateStateTokenIssuer.PrivateStateTokenV3VOPRF
                test_keyPair 0 [G_point])).
Proof.
  apply (issue_characterization stub_hash_to_field test_issuer 0
           (IssueRequest.mk [G_point]) None test_keyPair
           PrivateStateTokenIssuer.PrivateStateTokenV3VOPRF
           test_key_present eq_refl).
  split; [exact test_run_defined | reflexivity].
Qed.

Lemma proof_is_c_then_u_in_96_bytes_witness :
  let response :=
    issue_result stub_hash_to_field
      PrivateStateTokenIssuer.PrivateStateTokenV3VOPRF test_keyPair 0 [G_point] in
  exists keyPair config,
    Map_get Z.eqb (PrivateStateTokenIssuer.keys test_issuer) 0 = Some keyPair
    /\ PrivateStateTokenIssuer.getVersionConfig None = Some config
    /\ let Tstar := run_Tstar stub_hash_to_field config keyPair [G_point] in
       let Zstar := run_Zstar stub_hash_to_field config keyPair [G_point] in
       let c := Spec.challenge stub_hash_to_field
                  (PrivateStateTokenIssuer.hashTofieldConfig
                     PrivateStateTokenIssuer.PrivateStateTokenV3VOPRF)
                  (run_pk_bytes keyPair) Tstar Zstar in
       let u := Spec.response c (run_sk keyPair) in
       IssueResponse.proof response
       = DataBuffer.numberToBytes c 48 ++ DataBuffer.numberToBytes u 48
       /\ List.length (IssueResponse.proof response) = 96%nat
       /\ DataBuffer.bytesToNumber (firstn 48 (IssueResponse.proof response)) = c
       /\ DataBuffer.bytesToNumber (skipn 48 (IssueResponse.proof response)) = u
       /\ IssueResponse.toBytes response
          = DataBuffer.numberToBytes (Z.of_nat (IssueResponse.issued response)) 2
            ++ DataBuffer.numberToBytes 0 4
            ++ flat_map ECPoint.value (IssueResponse.signed response)
            ++ [0; 96] ++ IssueResponse.proof response.
Proof.
  intros response.
  apply (proof_is_c_then_u_in_96_bytes stub_hash_to_field test_issuer 0
           (IssueRequest.mk [G_point]) None response).
  - exact stub_hash_range.
  - exact test_issue_response.
Defined.

(** ** The batch coefficients *)

Lemma nth_error_map_seq {A : Type} (f : nat -> A) (n i : nat) :
  (i < n)%nat -> nth_error (map f (seq 0 n)) i = Some (f i).
Proof.
  intros Hi; rewrite nth_error_map, nth_error_seq.
  destruct (Nat.ltb_spec i n); [reflexivity | lia].
Qed.

(** C6: in a run of [issue] on valid points, the coefficient [e_i] of
    every index [i] below the count is the hash to a scalar of
    ["DLEQ BATCH\0" || B || u16(i)] under the options of the selected
    version, where [B] is the 97-byte public key followed by the 97-byte
    encodings of [T_j] and [Z_j] for each input in order; the proof of
    the response is the one over the composites taken with these
    coefficients. *)
Theorem batch_coefficients_hash_the_transcript
    (hash_to_field : bytes -> H2FOpts -> Z)
    (iss : PrivateStateTokenIssuer.t) (keyId : Z) (request : IssueRequest.t)
    (version : option string) (response : IssueResponse.t) :
  Forall valid_point (IssueRequest.nonces request) ->
  PrivateStateTokenIssuer.issue hash_to_field iss keyId request version
  = Ok (Some response) ->
  exists keyPair config (es : list Z),
    Map_get Z.eqb (PrivateStateTokenIssuer.keys iss) keyId = Some keyPair
    /\ PrivateStateTokenIssuer.getVersionConfig version = Some config
    /\ let nonces := IssueRequest.nonces request in
       let sk := run_sk keyPair in
       let pk_bytes := run_pk_bytes keyPair in
       let B := pk_bytes
                ++ flat_map (fun T => ECPoint.value T
                                      ++ Spec.uncompressed
                                           (Noble.scalar_mul sk (ECPoint.point T)))
                     nonces in
       List.length pk_bytes = 97%nat
       /\ Forall (fun T => List.length (ECPoint.value T) = 97%nat
                           /\ List.length (Spec.uncompressed
                                             (Noble.scalar_mul sk (ECPoint.point T)))
                              = 97%nat) nonces
       /\ List.length es = List.length nonces
       /\ (forall i : nat,
              (i < List.length nonces)%nat ->
              nth_error es i
              = Some (hash_to_field
                        (char_codes ("DLEQ BATCH" ++ NUL) ++ B
                         ++ DataBuffer.numberToBytes (Z.of_nat i) 2)
                        (mkH2F (hashToScalarDST config) 1 VOPRF_P384.ORDER 192
                           "xmd" (hash config))))
       /\ IssueResponse.signed response = Spec.signed sk nonces
       /\ IssueResponse.proof response
          = emitted_proof hash_to_field keyPair
              (Spec.composite (map ECPoint.point nonces) es)
              (Spec.composite (map ECPoint.point (IssueResponse.signed response)) es).
Proof.
  intros Hv H.
  apply issue_response_inv in H as (keyPair & config & Hkey & Hcfg & Hrun & ->).
  exists keyPair, config,
    (run_coefficients hash_to_field config keyPair (IssueRequest.nonces request)).
  split; [exact Hkey | split; [exact Hcfg|]].
  intros nonces sk pk_bytes B.
  destruct Hrun as (_ & Hz & _).
  split; [apply numberToBytes_length|].
  split.
  { apply Forall_forall; intros T HT; split.
    - apply (proj1 (Forall_forall _ _) Hv T HT).
    - apply uncompressed_length, (proj1 (Forall_forall _ _) Hz T HT). }
  split; [unfold run_coefficients; rewrite length_map, length_seq; reflexivity|].
  split; [|split; reflexivity].
  intros i Hi.
  rewrite (run_coefficients_spec hash_to_field config keyPair _ Hv).
  unfold Spec.coefficients; rewrite nth_error_map_seq by exact Hi.
  reflexivity.
Qed.

Lemma batch_coefficients_hash_the_transcript_witness :
  let response :=
    issue_result stub_hash_to_field
      PrivateStateTokenIssuer.PrivateStateTokenV3VOPRF test_keyPair 0 [G_point] in
  exists keyPair config (es : list Z),
    Map_get Z.eqb (PrivateStateTokenIssuer.keys test_issuer) 0 = Some keyPair
    /\ PrivateStateTokenIssuer.getVersionConfig None = Some config
    /\ let nonces := [G_point] in
       let sk := run_sk keyPair in
       let pk_bytes := run_pk_bytes keyPair in
       let B := pk_bytes
                ++ flat_map (fun T => ECPoint.value T
                                      ++ Spec.uncompressed
                                           (Noble.scalar_mul sk (ECPoint.point T)))
                     nonces in
       List.length pk_bytes = 97%nat
       /\ Forall (fun T => List.length (ECPoint.value T) = 97%nat
                           /\ List.length (Spec.uncompressed
                                             (Noble.scalar_mul sk (ECPoint.point T)))
                              = 97%nat) nonces
       /\ List.length es = List.length nonces
       /\ (forall i : nat,
              (i < List.length nonces)%nat ->
              nth_error es i
              = Some (stub_hash_to_field
                        (char_codes ("DLEQ BATCH" ++ NUL) ++ B
                         ++ DataBuffer.numberToBytes (Z.of_nat i) 2)
                        (mkH2F (hashToScalarDST config) 1 VOPRF_P384.ORDER 192
                           "xmd" (hash config))))
       /\ IssueResponse.signed response = Spec.signed sk nonces
       /\ IssueResponse.proof response
          = emitted_proof stub_hash_to_field keyPair
              (Spec.composite (map ECPoint.point nonces) es)
              (Spec.composite (map ECPoint.point (IssueResponse.signed response)) es).
Proof.
  intros response.
  apply (batch_coefficients_hash_the_transcript stub_hash_to_field test_issuer 0
           (IssueRequest.mk [G_point]) None response).
  - constructor; [exact G_point_valid | constructor].
  - exact test_issue_response.
Defined.

(** ** The version of the challenge *)

(** C3: an issuance under PrivateStateTokenV1VOPRF.  The claim has the
    challenge [c] hashed with SHA-384 and the V1 tag; [issue] calls
    [#generateDLEQProof] without its [version] argument, so [c] is hashed
    with SHA-512 and the tag of V3, while the batch coefficients of the
    same run are hashed with SHA-384 and the tag of V1. *)
Theorem V1_challenge_hashed_under_V3 (hash_to_field : bytes -> H2FOpts -> Z)
    (iss : PrivateStateTokenIssuer.t) (keyId : Z) (request : IssueRequest.t)
    (response : IssueResponse.t) :
  PrivateStateTokenIssuer.issue hash_to_field iss keyId request
    (Some "PrivateStateTokenV1VOPRF"%string)
  = Ok (Some response) ->
  exists keyPair (es : list Z),
    Map_get Z.eqb (PrivateStateTokenIssuer.keys iss) keyId = Some keyPair
    /\ let nonces := IssueRequest.nonces request in
       let V1 := mkH2F ("HashToScalar-OPRFV1-" ++ SOH ++ "-P384-SHA384" ++ NUL)
                   1 VOPRF_P384.ORDER 192 "xmd" sha384 in
       let V3 := mkH2F ("TrustToken VOPRF Experiment V2 HashToScalar" ++ NUL)
                   1 VOPRF_P384.ORDER 192 "xmd" sha512 in
       let Tstar := Spec.composite (map ECPoint.point nonces) es in
       let Zstar :=
         Spec.composite (map ECPoint.point (IssueResponse.signed response)) es in
       let c :=
         hash_to_field
           (Spec.challenge_message (run_pk_bytes keyPair) Tstar Zstar) V3 in
       es = map (fun i => hash_to_field
                            (Uint8Array_from
                               (Spec.batch_message (run_transcript keyPair nonces) i))
                            V1)
              (seq 0 (List.length nonces))
       /\ IssueResponse.proof response
          = DataBuffer.numberToBytes c 48
            ++ DataBuffer.numberToBytes
                 (Z.rem (Spec.r + c * run_sk keyPair) VOPRF_P384.ORDER) 48.
Proof.
  intros H.
  apply issue_response_inv in H as (keyPair & config & Hkey & Hcfg & _ & ->).
  assert (config = PrivateStateTokenIssuer.PrivateStateTokenV1VOPRF) as ->
    by (apply Ok_inj; cbv in Hcfg; now injection Hcfg as <-).
  exists keyPair,
    (run_coefficients hash_to_field PrivateStateTokenIssuer.PrivateStateTokenV1VOPRF
       keyPair (IssueRequest.nonces request)).
  split; [exact Hkey|].
  split; reflexivity.
Qed.

Lemma test_run_defined_V1 :
  run_defined stub_hash_to_field PrivateStateTokenIssuer.PrivateStateTokenV1VOPRF
    test_keyPair [G_point].
Proof.
  split; [exact test_key_valid_scalar|].
  split; [constructor; [vm_compute; reflexivity | constructor]|].
  split.
  - eassert (E : run_coefficients stub_hash_to_field
                   PrivateStateTokenIssuer.PrivateStateTokenV1VOPRF
                   test_keyPair [G_point] = _)
      by (vm_compute; reflexivity).
    rewrite E; constructor; [split; vm_compute; reflexivity | constructor].
  - split; [vm_compute; reflexivity|].
    split; vm_compute; reflexivity.
Qed.

Lemma test_issue_response_V1 :
  PrivateStateTokenIssuer.issue stub_hash_to_field test_issuer 0
    (IssueRequest.mk [G_point]) (Some "PrivateStateTokenV1VOPRF"%string)
  = Ok (Some (issue_result stub_hash_to_field
                PrivateStateTokenIssuer.PrivateStateTokenV1VOPRF
                test_keyPair 0 [G_point])).
Proof.
  apply (issue_characterization stub_hash_to_field test_issuer 0
           (IssueRequest.mk [G_point]) (Some "PrivateStateTokenV1VOPRF"%string)
           test_keyPair PrivateStateTokenIssuer.PrivateStateTokenV1VOPRF
           test_key_present eq_refl).
  split; [exact test_run_defined_V1 | reflexivity].
Qed.

Lemma V1_challenge_hashed_under_V3_witness :
  let response :=
    issue_result stub_hash_to_field
      PrivateStateTokenIssuer.PrivateStateTokenV1VOPRF test_keyPair 0 [G_point] in
  exists keyPair (es : list Z),
    Map_get Z.eqb (PrivateStateTokenIssuer.keys test_issuer) 0 = Some keyPair
    /\ let nonces := [G_point] in
       let V1 := mkH2F ("HashToScalar-OPRFV1-" ++ SOH ++ "-P384-SHA384" ++ NUL)
                   1 VOPRF_P384.ORDER 192 "xmd" sha384 in
       let V3 := mkH2F ("TrustToken VOPRF Experiment V2 HashToScalar" ++ NUL)
                   1 VOPRF_P384.ORDER 192 "xmd" sha512 in
       let Tstar := Spec.composite (map ECPoint.point nonces) es in
       let Zstar :=
         Spec.composite (map ECPoint.point (IssueResponse.signed response)) es in
       let c :=
         stub_hash_to_field
           (Spec.challenge_message (run_pk_bytes keyPair) Tstar Zstar) V3 in
       es = map (fun i => stub_hash_to_field
                            (Uint8Array_from
                               (Spec.batch_message (run_transcript keyPair nonces) i))
                            V1)
              (seq 0 (List.length nonces))
       /\ IssueResponse.proof response
          = DataBuffer.numberToBytes c 48
            ++ DataBuffer.numberToBytes
                 (Z.rem (Spec.r + c * run_sk keyPair) VOPRF_P384.ORDER) 48.
Proof.
  intros response.
  apply (V1_challenge_hashed_under_V3 stub_hash_to_field test_issuer 0
           (IssueRequest.mk [G_point]) response).
  exact test_issue_response_V1.
Defined.

(** * Further properties of the source file *)

(** ** Big-endian integers, both ways *)

Lemma numberToBytes_snoc (n : Z) (len : nat) :
  DataBuffer.numberToBytes n (S len)
  = DataBuffer.numberToBytes (n / 256) len ++ [n mod 256].
Proof. reflexivity. Qed.

Lemma bytesToNumber_bounds (bs : bytes) :
  all_bytes bs ->
  0 <= DataBuffer.bytesToNumber bs < 256 ^ Z.of_nat (List.length bs).
Proof.
  induction bs as [|b bs IH] using rev_ind; intros Hbs.
  - cbn; lia.
  - apply Forall_app in Hbs as [Hbs Hb]; apply Forall_inv in Hb.
    specialize (IH Hbs); unfold is_byte in Hb.
    rewrite bytesToNumber_snoc, length_app, Nat.add_comm.
    cbn [List.length Nat.add]; rewrite Nat2Z.inj_succ, Z.pow_succ_r by lia.
    lia.
Qed.

(** Encoding a decoded byte string on its own length gives it back. *)
Lemma numberToBytes_bytesToNumber (bs : bytes) :
  all_bytes bs ->
  DataBuffer.numberToBytes (DataBuffer.bytesToNumber bs) (List.length bs) = bs.
Proof.
  induction bs as [|b bs IH] using rev_ind; intros Hbs; [reflexivity|].
  apply Forall_app in Hbs as [Hbs Hb]; apply Forall_inv in Hb.
  unfold is_byte in Hb.
  rewrite bytesToNumber_snoc, length_app, Nat.add_comm.
  cbn [List.length Nat.add]; rewrite numberToBytes_snoc.
  replace ((DataBuffer.bytesToNumber bs * 256 + b) / 256)
    with (DataBuffer.bytesToNumber bs) by (Z.div_mod_to_equations; lia).
  replace ((DataBuffer.bytesToNumber bs * 256 + b) mod 256)
    with b by (Z.div_mod_to_equations; lia).
  rewrite IH by exact Hbs; reflexivity.
Qed.

Lemma numberToBytes_le_zero (k : nat) :
  DataBuffer.numberToBytes_le 0 k = repeat 0 k.
Proof. induction k as [|k IH]; [reflexivity|]; cbn; rewrite IH; reflexivity. Qed.

(** A number that fits [len] bytes, written on more, is padded with
    zeros on the left. *)
Lemma numberToBytes_pad (len k : nat) : forall n,
  0 <= n < 256 ^ Z.of_nat len ->
  DataBuffer.numberToBytes n (k + len)
  = repeat 0 k ++ DataBuffer.numberToBytes n len.
Proof.
  unfold DataBuffer.numberToBytes.
  induction len as [|len IH]; intros n Hn.
  - cbn in Hn; assert (n = 0) as -> by lia.
    rewrite Nat.add_0_r, numberToBytes_le_zero, app_nil_r.
    clear; induction k as [|k IH]; [reflexivity|].
    cbn [repeat rev]; rewrite IH; clear.
    induction k as [|k IH]; [reflexivity|]; cbn; rewrite IH; reflexivity.
  - rewrite Nat.add_succ_r; cbn [DataBuffer.numberToBytes_le rev].
    rewrite IH, app_assoc; [reflexivity|].
    rewrite Nat2Z.inj_succ, Z.pow_succ_r in Hn by lia.
    split; [apply Z.div_pos; lia | apply Z.div_lt_upper_bound; lia].
Qed.

Lemma all_bytes_firstn (n : nat) (bs : bytes) :
  all_bytes bs -> all_bytes (firstn n bs).
Proof.
  unfold all_bytes; intros H.
  rewrite <- (firstn_skipn n bs) in H; apply Forall_app in H; tauto.
Qed.

Lemma all_bytes_skipn (n : nat) (bs : bytes) :
  all_bytes bs -> all_bytes (skipn n bs).
Proof.
  unfold all_bytes; intros H.
  rewrite <- (firstn_skipn n bs) in H; apply Forall_app in H; tauto.
Qed.

(** ** What the Base64 decoder returns *)

Lemma sextet_range (c : ascii) (s : Z) :
  Base64.sextet c = Ok s -> 0 <= s < 64.
Proof.
  unfold Base64.sextet, Base64.sextet_of_char.
  set (k := Z.of_N (N_of_ascii c)); intros H.
  repeat match type of H with
         | context [if ?b then _ else _] => destruct b eqn:?
         end;
    try discriminate H; injection H as <-;
    repeat match goal with
           | E : (_ && _) = true |- _ => apply andb_true_iff in E as [? ?]
           | E : (_ || _) = true |- _ => apply orb_true_iff in E as [?|?]
           end;
    lia.
Qed.

Lemma decode_bytes_upto (n : nat) : forall (s : string) (bs : bytes),
  (String.length s <= n)%nat -> Base64.decode s = Ok bs -> all_bytes bs.
Proof.
  induction n as [|n IH]; intros s bs Hlen H.
  - destruct s; [|cbn in Hlen; lia].
    cbn in H; injection H as <-; constructor.
  - destruct s as [|c1 [|c2 [|c3 [|c4 rest]]]]; cbn [Base64.decode] in H;
      try discriminate H.
    + injection H as <-; constructor.
    + apply result_bind_Ok in H as (s1 & H1 & H).
      apply result_bind_Ok in H as (s2 & H2 & H).
      apply sextet_range in H1, H2.
      destruct (Ascii.eqb c4 Base64.pad).
      * destruct rest; [|discriminate H].
        destruct (Ascii.eqb c3 Base64.pad).
        -- injection H as <-; constructor; [byte_arith | constructor].
        -- apply result_bind_Ok in H as (s3 & H3 & H).
           apply sextet_range in H3.
           injection H as <-.
           constructor; [byte_arith | constructor; [byte_arith | constructor]].
      * apply result_bind_Ok in H as (s3 & H3 & H).
        apply result_bind_Ok in H as (s4 & H4 & H).
        apply result_bind_Ok in H as (tl & Htl & H).
        apply sextet_range in H3, H4.
        apply IH in Htl; [|cbn [String.length] in Hlen; lia].
        injection H as <-.
        constructor; [byte_arith|].
        constructor; [byte_arith|].
        constructor; [byte_arith | exact Htl].
Qed.

(** The decoder returns bytes. *)
Lemma decode_bytes (s : string) (bs : bytes) :
  Base64.decode s = Ok bs -> all_bytes bs.
Proof. apply (decode_bytes_upto (String.length s)); lia. Qed.
(** ** The two paths of the [ECPoint] constructor *)

Lemma CURVE_p_fits_48_bytes : Noble.CURVE_p < 256 ^ 48.
Proof. vm_compute; reflexivity. Qed.

Lemma origin_off_curve : Noble.on_curve 0 0 = false.
Proof. vm_compute; reflexivity. Qed.

Lemma valid_element_coordinates (x y : Z) :
  valid_element (Noble.Affine x y) ->
  0 <= x < 256 ^ 48 /\ 0 <= y < 256 ^ 48 /\ Noble.fromAffine x y = Noble.Affine x y.
Proof.
  unfold valid_element; cbn [Noble.assertValidity]; intros H.
  destruct (Noble.isValidFieldElement x) eqn:Hx; [|discriminate H].
  destruct (Noble.isValidFieldElement y) eqn:Hy; [|discriminate H].
  destruct (Noble.on_curve x y) eqn:Hc; [|discriminate H].
  unfold Noble.isValidFieldElement in Hx, Hy.
  apply andb_true_iff in Hx as [Hx0 Hx1], Hy as [Hy0 Hy1].
  pose proof CURVE_p_fits_48_bytes.
  split; [lia | split; [lia|]].
  unfold Noble.fromAffine.
  destruct (Z.eqb_spec x 0) as [->|]; [|reflexivity].
  destruct (Z.eqb_spec y 0) as [->|]; [|reflexivity].
  rewrite origin_off_curve in Hc; discriminate Hc.
Qed.

(** What [fromHex] returns has passed [assertValidity]. *)
Lemma fromHex_valid (hex : bytes) (P : Noble.ProjectivePoint) :
  Noble.fromHex hex = Ok P -> valid_element P.
Proof.
  unfold Noble.fromHex, valid_element.
  destruct hex as [|head tail]; [discriminate|].
  destruct (_ && _).
  - destruct (_ && _); [|discriminate].
    intros H; apply result_bind_Ok in H as (y & _ & H).
    apply result_bind_Ok in H as ([] & Hv & H).
    apply Ok_inj in H; rewrite <- H; exact Hv.
  - destruct (_ && _); [|discriminate].
    intros H; apply result_bind_Ok in H as ([] & Hv & H).
    apply Ok_inj in H; rewrite <- H; exact Hv.
Qed.

Lemma fromHex_length (hex : bytes) (P : Noble.ProjectivePoint) :
  Noble.fromHex hex = Ok P ->
  List.length hex = 49%nat \/ List.length hex = 97%nat.
Proof.
  unfold Noble.fromHex.
  destruct hex as [|head tail]; [discriminate|].
  destruct (Nat.eqb_spec (List.length (head :: tail)) (1 + Noble.Fp_BYTES)) as [E|_];
    [intros _; left; exact E|].
  cbn [andb].
  destruct (Nat.eqb_spec (List.length (head :: tail)) (1 + 2 * Noble.Fp_BYTES)) as [E|_];
    [intros _; right; exact E | discriminate].
Qed.

(** The uncompressed encoding of a valid element parses to the element. *)
Lemma fromHex_uncompressed (P : Noble.ProjectivePoint) :
  valid_element P -> Noble.fromHex (Spec.uncompressed P) = Ok P.
Proof.
  intros HP; destruct P as [|x y]; [discriminate HP|].
  destruct (valid_element_coordinates x y HP) as (Hx & Hy & Haff).
  cbn [Spec.uncompressed]; unfold Noble.fromHex.
  assert (Hlen : List.length (4 :: DataBuffer.numberToBytes x 48
                                ++ DataBuffer.numberToBytes y 48) = 97%nat).
  { cbn [List.length]; rewrite length_app, !numberToBytes_length; reflexivity. }
  rewrite Hlen.
  change ((97 =? 1 + Noble.Fp_BYTES)%nat) with false.
  change ((97 =? 1 + 2 * Noble.Fp_BYTES)%nat) with true.
  change (4 =? 4) with true; cbn [andb].
  change Noble.Fp_BYTES with 48%nat.
  rewrite firstn_app_exact, skipn_app_exact by apply numberToBytes_length.
  rewrite !bytesToNumber_numberToBytes by assumption.
  rewrite Haff; unfold valid_element in HP; rewrite HP; reflexivity.
Qed.

(** A 97-byte string that parses is the uncompressed encoding of its
    point. *)
Lemma fromHex_97_uncompressed (hex : bytes) (P : Noble.ProjectivePoint) :
  Noble.fromHex hex = Ok P -> List.length hex = 97%nat -> all_bytes hex ->
  Spec.uncompressed P = hex.
Proof.
  intros H Hlen Hb; pose proof (fromHex_valid hex P H) as HP.
  unfold Noble.fromHex in H.
  destruct hex as [|head tail]; [discriminate H|].
  rewrite Hlen in H.
  change ((97 =? 1 + Noble.Fp_BYTES)%nat) with false in H.
  change ((97 =? 1 + 2 * Noble.Fp_BYTES)%nat) with true in H.
  cbn [andb] in H.
  destruct (Z.eqb_spec head 4) as [->|]; [|discriminate H].
  change Noble.Fp_BYTES with 48%nat in H.
  apply result_bind_Ok in H as ([] & Hv & H); apply Ok_inj in H.
  cbn [List.length] in Hlen.
  apply Forall_inv_tail in Hb.
  assert (H1 : List.length (firstn 48 tail) = 48%nat)
    by (rewrite length_firstn; lia).
  assert (H2 : List.length (skipn 48 tail) = 48%nat)
    by (rewrite length_skipn; lia).
  set (x := DataBuffer.bytesToNumber (firstn 48 tail)) in *.
  set (y := DataBuffer.bytesToNumber (skipn 48 tail)) in *.
  assert (HP' : Noble.fromAffine x y = Noble.Affine x y).
  { unfold Noble.fromAffine in Hv |- *.
    destruct ((x =? 0) && (y =? 0)); [discriminate Hv | reflexivity]. }
  rewrite <- H, HP'; cbn [Spec.uncompressed]; f_equal.
  pose proof (numberToBytes_bytesToNumber _ (all_bytes_firstn 48 tail Hb)) as E1.
  pose proof (numberToBytes_bytesToNumber _ (all_bytes_skipn 48 tail Hb)) as E2.
  rewrite H1 in E1; rewrite H2 in E2.
  unfold x, y; rewrite E1, E2.
  apply firstn_skipn.
Qed.

(** The constructor on a library point yields a valid wire point. *)
Lemma ECPoint_of_point_valid (P : Noble.ProjectivePoint) (e : ECPoint.t) :
  ECPoint.new (ECPoint.OfPoint P) = Ok e -> valid_point e.
Proof.
  cbn [ECPoint.new]; intros H.
  apply result_bind_Ok in H as (v & Hv & H); injection H as <-.
  apply toRawBytes_Ok in Hv as [HP ->].
  unfold valid_point; cbn [ECPoint.value ECPoint.point].
  split; [apply uncompressed_length, HP|].
  split; [apply uncompressed_bytes | apply fromHex_uncompressed, HP].
Qed.

(** X1.  Every [ECPoint] that the constructor returns carries a point
    that has passed the validity check of the library (on the curve, not
    the identity); the array it keeps has 49 or 97 entries; and when it is
    a 97-byte string, the constructor called on the point rebuilds the
    same object, so the byte path and the point path of the constructor
    agree. *)
Theorem ECPoint_constructor_paths_agree (a : ECPoint.arg) (e : ECPoint.t) :
  ECPoint.new a = Ok e ->
  valid_element (ECPoint.toPoint e)
  /\ (List.length (ECPoint.toBytes e) = 49%nat
      \/ List.length (ECPoint.toBytes e) = 97%nat)
  /\ (List.length (ECPoint.toBytes e) = 97%nat ->
      all_bytes (ECPoint.toBytes e) ->
      ECPoint.new (ECPoint.OfPoint (ECPoint.toPoint e)) = Ok e
      /\ ECPoint.new (ECPoint.OfBytes (ECPoint.toBytes e)) = Ok e).
Proof.
  unfold ECPoint.toPoint, ECPoint.toBytes.
  destruct a as [P|v]; intros H.
  - pose proof (ECPoint_of_point_valid P e H) as Hvp.
    cbn [ECPoint.new] in H.
    apply result_bind_Ok in H as (v & Hv & H); injection H as <-.
    cbn [ECPoint.value ECPoint.point].
    pose proof Hv as Hv'; apply toRawBytes_Ok in Hv' as [HP ->].
    split; [exact HP|].
    split; [right; apply uncompressed_length, HP|].
    intros _ _; split.
    + cbn [ECPoint.new]; rewrite Hv; reflexivity.
    + apply (ECPoint_new_valid _ Hvp).
  - cbn [ECPoint.new] in H.
    apply result_bind_Ok in H as (P & HP & H); injection H as <-.
    cbn [ECPoint.value ECPoint.point].
    split; [apply (fromHex_valid _ _ HP)|].
    split.
    { apply fromHex_length in HP.
      unfold Uint8Array_from in HP; rewrite length_map in HP; exact HP. }
    intros Hlen Hb.
    rewrite Uint8Array_from_bytes in HP by exact Hb.
    split.
    + cbn [ECPoint.new].
      rewrite (proj2 (toRawBytes_Ok P (Spec.uncompressed P)))
        by (split; [apply (fromHex_valid _ _ HP) | reflexivity]).
      cbn [bind]; rewrite (fromHex_97_uncompressed v P HP Hlen Hb); reflexivity.
    + cbn [ECPoint.new]; rewrite Uint8Array_from_bytes, HP by exact Hb.
      reflexivity.
Qed.

Lemma ECPoint_constructor_paths_agree_witness :
  valid_element (ECPoint.toPoint G_point)
  /\ (List.length (ECPoint.toBytes G_point) = 49%nat
      \/ List.length (ECPoint.toBytes G_point) = 97%nat)
  /\ (List.length (ECPoint.toBytes G_point) = 97%nat ->
      all_bytes (ECPoint.toBytes G_point) ->
      ECPoint.new (ECPoint.OfPoint (ECPoint.toPoint G_point)) = Ok G_point
      /\ ECPoint.new (ECPoint.OfBytes (ECPoint.toBytes G_point)) = Ok G_point).
Proof.
  apply (ECPoint_constructor_paths_agree (ECPoint.OfBytes G_bytes) G_point).
  vm_compute; reflexivity.
Defined.
(** ** Keys: strings, coordinates and JWK *)

Lemma POINT_BYTES_97 : (VOPRF_P384.BYTES * 2 + 1)%nat = 97%nat.
Proof. reflexivity. Qed.

(** X2.  The string and byte forms of a key read back: for a secret
    scalar below [2^384] and a public value below [2^776],
    [from(id, key.toString(), expiry)] and [from(id, key.toBytes(), expiry)]
    rebuild the key. *)
Theorem key_from_its_own_string
    (sk : PrivateStateTokenSecretKey.t) (pk : PrivateStateTokenPublicKey.t) :
  0 <= PrivateStateTokenSecretKey.scalar sk < 256 ^ 48 ->
  0 <= PrivateStateTokenPublicKey.scalar pk < 256 ^ 97 ->
  PrivateStateTokenSecretKey.from (PrivateStateTokenSecretKey.id sk)
    (VString (PrivateStateTokenSecretKey.toString sk))
    (PrivateStateTokenSecretKey.expiry sk) = Ok sk
  /\ PrivateStateTokenSecretKey.from (PrivateStateTokenSecretKey.id sk)
       (VBytes (PrivateStateTokenSecretKey.toBytes sk))
       (PrivateStateTokenSecretKey.expiry sk) = Ok sk
  /\ PrivateStateTokenPublicKey.from (PrivateStateTokenPublicKey.id pk)
       (VString (PrivateStateTokenPublicKey.toString pk))
       (PrivateStateTokenPublicKey.expiry pk) = Ok pk
  /\ PrivateStateTokenPublicKey.from (PrivateStateTokenPublicKey.id pk)
       (VBytes (PrivateStateTokenPublicKey.toBytes pk))
       (PrivateStateTokenPublicKey.expiry pk) = Ok pk.
Proof.
  intros Hs Hp.
  unfold PrivateStateTokenSecretKey.from, PrivateStateTokenSecretKey.toString,
    PrivateStateTokenSecretKey.toBytes, PrivateStateTokenPublicKey.from,
    PrivateStateTokenPublicKey.toString, PrivateStateTokenPublicKey.toBytes.
  rewrite POINT_BYTES_97.
  cbn [key_value_number].
  rewrite !decode_encode by apply numberToBytes_bytes.
  cbn [bind].
  rewrite !bytesToNumber_numberToBytes by assumption.
  destruct sk, pk; repeat split; reflexivity.
Qed.

Lemma key_from_its_own_string_witness :
  let sk := PrivateStateTokenKeyPair.secretKey test_keyPair in
  let pk := PrivateStateTokenKeyPair.publicKey test_keyPair in
  PrivateStateTokenSecretKey.from (PrivateStateTokenSecretKey.id sk)
    (VString (PrivateStateTokenSecretKey.toString sk))
    (PrivateStateTokenSecretKey.expiry sk) = Ok sk
  /\ PrivateStateTokenSecretKey.from (PrivateStateTokenSecretKey.id sk)
       (VBytes (PrivateStateTokenSecretKey.toBytes sk))
       (PrivateStateTokenSecretKey.expiry sk) = Ok sk
  /\ PrivateStateTokenPublicKey.from (PrivateStateTokenPublicKey.id pk)
       (VString (PrivateStateTokenPublicKey.toString pk))
       (PrivateStateTokenPublicKey.expiry pk) = Ok pk
  /\ PrivateStateTokenPublicKey.from (PrivateStateTokenPublicKey.id pk)
       (VBytes (PrivateStateTokenPublicKey.toBytes pk))
       (PrivateStateTokenPublicKey.expiry pk) = Ok pk.
Proof.
  intros sk pk.
  apply (key_from_its_own_string sk pk); split; vm_compute; congruence.
Defined.

(** The bytes of a public key built from coordinates: the tag and the
    coordinates, padded on the left to 97 bytes. *)
Lemma fromXY_toBytes (id : Z) (x y : bytes) (expiry : number) :
  all_bytes x -> all_bytes y -> (List.length x + List.length y <= 96)%nat ->
  exists k,
    PrivateStateTokenPublicKey.fromXY id x y expiry = Ok k
    /\ PrivateStateTokenPublicKey.id k = id
    /\ PrivateStateTokenPublicKey.expiry k = expiry
    /\ PrivateStateTokenPublicKey.scalar k = DataBuffer.bytesToNumber (4 :: x ++ y)
    /\ PrivateStateTokenPublicKey.toBytes k
       = repeat 0 (96 - (List.length x + List.length y)) ++ 4 :: x ++ y.
Proof.
  intros Hx Hy Hlen.
  eexists; split; [reflexivity|].
  split; [reflexivity | split; [reflexivity | split; [reflexivity|]]].
  unfold PrivateStateTokenPublicKey.toBytes; rewrite POINT_BYTES_97.
  cbn [PrivateStateTokenPublicKey.scalar app].
  assert (Hb : all_bytes (4 :: x ++ y)).
  { constructor; [unfold is_byte; lia | apply all_bytes_app; assumption]. }
  replace 97%nat
    with ((96 - (List.length x + List.length y))
          + List.length (4%Z :: x ++ y))%nat
    by (cbn [List.length]; rewrite length_app; lia).
  rewrite numberToBytes_pad by (apply bytesToNumber_bounds, Hb).
  rewrite numberToBytes_bytesToNumber by exact Hb; reflexivity.
Qed.

(** X3.  [fromXY(id, x, y, expiry)] on byte strings of at most 96 bytes
    together yields a key whose [toBytes] is [0x04 || x || y], padded with
    zeros on the left to 97 bytes: with two 48-byte coordinates it is the
    uncompressed point, with shorter ones the tag [0x04] is no longer
    the first byte. *)
Theorem fromXY_left_pads_to_97_bytes (id : Z) (x y : bytes) (expiry : number) :
  all_bytes x -> all_bytes y -> (List.length x + List.length y <= 96)%nat ->
  exists k,
    PrivateStateTokenPublicKey.fromXY id x y expiry = Ok k
    /\ PrivateStateTokenPublicKey.id k = id
    /\ PrivateStateTokenPublicKey.expiry k = expiry
    /\ PrivateStateTokenPublicKey.toBytes k
       = repeat 0 (96 - (List.length x + List.length y)) ++ 4 :: x ++ y
    /\ (List.length x = 48%nat -> List.length y = 48%nat ->
        PrivateStateTokenPublicKey.toBytes k = 4 :: x ++ y)
    /\ ((List.length x + List.length y < 96)%nat ->
        nth_error (PrivateStateTokenPublicKey.toBytes k) 0 = Some 0).
Proof.
  intros Hx Hy Hlen.
  destruct (fromXY_toBytes id x y expiry Hx Hy Hlen) as (k & Hk & Hid & He & _ & Hb).
  exists k; rewrite Hb.
  split; [exact Hk | split; [exact Hid | split; [exact He | split; [reflexivity|]]]].
  split.
  - intros -> ->; reflexivity.
  - intros Hlt.
    destruct (96 - (List.length x + List.length y))%nat as [|n] eqn:E; [lia|].
    reflexivity.
Qed.

Lemma fromXY_left_pads_to_97_bytes_witness :
  exists k,
    PrivateStateTokenPublicKey.fromXY 7 [1; 2] [3] None = Ok k
    /\ PrivateStateTokenPublicKey.id k = 7
    /\ PrivateStateTokenPublicKey.expiry k = None
    /\ PrivateStateTokenPublicKey.toBytes k
       = repeat 0 (96 - (List.length [1; 2] + List.length [3])) ++ 4 :: [1; 2] ++ [3]
    /\ (List.length [1; 2] = 48%nat -> List.length [3] = 48%nat ->
        PrivateStateTokenPublicKey.toBytes k = 4 :: [1; 2] ++ [3])
    /\ ((List.length [1; 2] + List.length [3] < 96)%nat ->
        nth_error (PrivateStateTokenPublicKey.toBytes k) 0 = Some 0).
Proof.
  apply (fromXY_left_pads_to_97_bytes 7 [1; 2] [3] None).
  - repeat constructor; unfold is_byte; lia.
  - repeat constructor; unfold is_byte; lia.
  - simpl; lia.
Defined.

(** [toXY] on a key whose bytes are [0x04 || x || y]. *)
Lemma toXY_of_bytes (urlEncode : bytes -> string)
    (k : PrivateStateTokenPublicKey.t) (x y : bytes) :
  PrivateStateTokenPublicKey.toBytes k = 4 :: x ++ y ->
  List.length x = 48%nat ->
  PrivateStateTokenPublicKey.toXY urlEncode k = (urlEncode x, urlEncode (tl y)).
Proof.
  intros Hb Hx; unfold PrivateStateTokenPublicKey.toXY; rewrite Hb.
  unfold slice, slice_from.
  change (VOPRF_P384.BYTES + 1 - 1)%nat with 48%nat.
  change (VOPRF_P384.BYTES + 2)%nat with (S 49).
  change (skipn 1 (4 :: x ++ y)) with (x ++ y).
  change (skipn (S 49) (4 :: x ++ y)) with (skipn 49 (x ++ y)).
  rewrite firstn_app_exact by exact Hx.
  replace 49%nat with (1 + 48)%nat by reflexivity.
  rewrite <- skipn_skipn, skipn_app_exact by exact Hx.
  destruct y; reflexivity.
Qed.

(** X4.  [toXY] is no inverse of [fromXY]: on the key built from two
    48-byte coordinates it returns the encoding of [x] and the encoding of
    the last 47 bytes of [y]; the slice of [y] starts one byte late
    ([BYTES + 2]) and the first byte of [y] is in neither string. *)
Theorem toXY_drops_first_byte_of_y (urlEncode : bytes -> string)
    (id : Z) (x y : bytes) (expiry : number) (k : PrivateStateTokenPublicKey.t) :
  all_bytes x -> all_bytes y ->
  List.length x = 48%nat -> List.length y = 48%nat ->
  PrivateStateTokenPublicKey.fromXY id x y expiry = Ok k ->
  PrivateStateTokenPublicKey.toXY urlEncode k = (urlEncode x, urlEncode (tl y))
  /\ List.length (tl y) = 47%nat.
Proof.
  intros Hx Hy Lx Ly Hk.
  destruct (fromXY_toBytes id x y expiry Hx Hy) as (k' & Hk' & _ & _ & _ & Hb);
    [lia|].
  rewrite Hk in Hk'; apply Ok_inj in Hk'; subst k'.
  rewrite Lx, Ly in Hb; cbn [Nat.add Nat.sub repeat app] in Hb.
  split; [apply (toXY_of_bytes urlEncode k x y Hb Lx)|].
  destruct y; [discriminate Ly | cbn in *; lia].
Qed.

Lemma toXY_drops_first_byte_of_y_witness :
  let x := DataBuffer.numberToBytes Noble.CURVE_Gx 48 in
  let y := DataBuffer.numberToBytes Noble.CURVE_Gy 48 in
  PrivateStateTokenPublicKey.toXY Base64.encode
    (PrivateStateTokenPublicKey.mk 0 (DataBuffer.bytesToNumber (4 :: x ++ y)) None)
  = (Base64.encode x, Base64.encode (tl y))
  /\ List.length (tl y) = 47%nat.
Proof.
  intros x y.
  apply (toXY_drops_first_byte_of_y Base64.encode 0 x y None).
  - apply numberToBytes_bytes.
  - apply numberToBytes_bytes.
  - apply numberToBytes_length.
  - apply numberToBytes_length.
  - reflexivity.
Defined.
(** ** A key pair through its JWK *)

Lemma js_orZ_self (a : Z) : js_orZ 0 (js_orZ a 0) = a.
Proof. unfold js_orZ; cbn; destruct (Z.eqb_spec a 0); auto. Qed.

Lemma js_orZ_idem (a : Z) : js_orZ a (js_orZ a 0) = a.
Proof. unfold js_orZ; destruct (Z.eqb_spec a 0) as [->|]; reflexivity. Qed.

(** X5.  A key pair exported with [toJWK] and read back with [fromJWK]
    keeps its identifier and its secret scalar and loses the rest: the
    public key comes back as [0x00 || 0x04 || x || y'], with [y'] the last
    47 bytes of [y], which differs from the bytes [0x04 || x || y] it had;
    and, the JWK having no [exp], the expiry is the scaled default of
    ninety days from now.  The encoder of [utils.js] is any function that
    [Base64.decode] inverts. *)
Theorem JWK_round_trip_keeps_secret_loses_public
    (urlEncode : bytes -> string) (now : Z)
    (kp : PrivateStateTokenKeyPair.t) (x y : bytes) :
  (forall bs, all_bytes bs -> Base64.decode (urlEncode bs) = Ok bs) ->
  PrivateStateTokenPublicKey.toBytes (PrivateStateTokenKeyPair.publicKey kp)
  = 4 :: x ++ y ->
  List.length x = 48%nat ->
  0 <= PrivateStateTokenSecretKey.scalar (PrivateStateTokenKeyPair.secretKey kp)
    < 256 ^ 48 ->
  exists kp',
    PrivateStateTokenKeyPair.fromJWK now
      (PrivateStateTokenKeyPair.toJWK urlEncode kp) 0 = Ok kp'
    /\ PrivateStateTokenKeyPair.id kp' = PrivateStateTokenKeyPair.id kp
    /\ PrivateStateTokenSecretKey.scalar (PrivateStateTokenKeyPair.secretKey kp')
       = PrivateStateTokenSecretKey.scalar (PrivateStateTokenKeyPair.secretKey kp)
    /\ PrivateStateTokenPublicKey.toBytes (PrivateStateTokenKeyPair.publicKey kp')
       = 0 :: 4 :: x ++ tl y
    /\ PrivateStateTokenPublicKey.toBytes (PrivateStateTokenKeyPair.publicKey kp')
       <> PrivateStateTokenPublicKey.toBytes (PrivateStateTokenKeyPair.publicKey kp)
    /\ PrivateStateTokenKeyPair.expiry kp'
       = PrivateStateTokenKeyPair.scale_expiry
           (now + PrivateStateTokenKeyPair.NINETY_DAYS).
Proof.
  intros Hdec Hb Lx Hd.
  assert (Hall : all_bytes (4 :: x ++ y)).
  { rewrite <- Hb; apply numberToBytes_bytes. }
  assert (Hx : all_bytes x).
  { apply Forall_inv_tail in Hall; apply Forall_app in Hall; tauto. }
  assert (Hy : all_bytes y).
  { apply Forall_inv_tail in Hall; apply Forall_app in Hall; tauto. }
  assert (Ly : List.length y = 48%nat).
  { pose proof (f_equal (@List.length Z) Hb) as Hl.
    unfold PrivateStateTokenPublicKey.toBytes in Hl.
    rewrite numberToBytes_length, POINT_BYTES_97 in Hl.
    cbn [List.length] in Hl; rewrite length_app in Hl; lia. }
  assert (Hty : all_bytes (tl y)) by (destruct y; [constructor | apply (Forall_inv_tail Hy)]).
  assert (Lty : List.length (tl y) = 47%nat)
    by (destruct y; [discriminate Ly | cbn in *; lia]).
  destruct (fromXY_toBytes (PrivateStateTokenKeyPair.id kp) x (tl y) None Hx Hty)
    as (pk & Hpk & Hpid & Hpe & Hps & Hpb); [lia|].
  rewrite Lx, Lty in Hpb; cbn [Nat.add Nat.sub repeat app] in Hpb.
  unfold PrivateStateTokenKeyPair.toJWK.
  rewrite (toXY_of_bytes urlEncode _ x y Hb Lx).
  unfold PrivateStateTokenKeyPair.fromJWK.
  cbn [PrivateStateTokenKeyPair.kid PrivateStateTokenKeyPair.x
       PrivateStateTokenKeyPair.y PrivateStateTokenKeyPair.d
       PrivateStateTokenKeyPair.exp].
  rewrite js_orZ_self, !Hdec by assumption; cbn [bind].
  unfold PrivateStateTokenSecretKey.toString, PrivateStateTokenSecretKey.toBytes.
  rewrite decode_encode by apply numberToBytes_bytes; cbn [bind].
  rewrite Hpk; cbn [bind].
  unfold PrivateStateTokenSecretKey.from; cbn [key_value_number bind].
  rewrite bytesToNumber_numberToBytes by exact Hd.
  eexists; split; [reflexivity|].
  unfold PrivateStateTokenKeyPair.new.
  cbn [PrivateStateTokenKeyPair.id PrivateStateTokenKeyPair.secretKey
       PrivateStateTokenKeyPair.publicKey PrivateStateTokenKeyPair.expiry
       PrivateStateTokenSecretKey.id PrivateStateTokenSecretKey.scalar
       PrivateStateTokenSecretKey.expiry].
  rewrite js_orZ_idem.
  split; [reflexivity | split; [reflexivity|]].
  assert (Hpb' : PrivateStateTokenPublicKey.toBytes
                   (PrivateStateTokenPublicKey.mk (PrivateStateTokenPublicKey.id pk)
                      (PrivateStateTokenPublicKey.scalar pk)
                      (PrivateStateTokenKeyPair.scale_expiry
                         (now + PrivateStateTokenKeyPair.NINETY_DAYS)))
                 = 0 :: 4 :: x ++ tl y).
  { rewrite <- Hpb; reflexivity. }
  rewrite Hpe; cbn [js_or truthy].
  split; [exact Hpb'|].
  split; [|reflexivity].
  rewrite Hpb', Hb; discriminate.
Qed.

Lemma JWK_round_trip_keeps_secret_loses_public_witness :
  let pub := PrivateStateTokenPublicKey.toBytes
               (PrivateStateTokenKeyPair.publicKey test_keyPair) in
  let x := slice 1 49 pub in
  let y := slice_from 49 pub in
  exists kp',
    PrivateStateTokenKeyPair.fromJWK 0
      (PrivateStateTokenKeyPair.toJWK Base64.encode test_keyPair) 0 = Ok kp'
    /\ PrivateStateTokenKeyPair.id kp' = PrivateStateTokenKeyPair.id test_keyPair
    /\ PrivateStateTokenSecretKey.scalar (PrivateStateTokenKeyPair.secretKey kp')
       = PrivateStateTokenSecretKey.scalar
           (PrivateStateTokenKeyPair.secretKey test_keyPair)
    /\ PrivateStateTokenPublicKey.toBytes (PrivateStateTokenKeyPair.publicKey kp')
       = 0 :: 4 :: x ++ tl y
    /\ PrivateStateTokenPublicKey.toBytes (PrivateStateTokenKeyPair.publicKey kp')
       <> pub
    /\ PrivateStateTokenKeyPair.expiry kp'
       = PrivateStateTokenKeyPair.scale_expiry
           (0 + PrivateStateTokenKeyPair.NINETY_DAYS).
Proof.
  intros pub x y.
  apply (JWK_round_trip_keeps_secret_loses_public Base64.encode 0 test_keyPair x y).
  - exact decode_encode.
  - vm_compute; reflexivity.
  - vm_compute; reflexivity.
  - rewrite test_key_scalar; split; vm_compute; congruence.
Defined.

(** ** The expiry that a key pair stores *)

Lemma Some_inj {A : Type} (a b : A) : Some a = Some b -> a = b.
Proof. intros H; injection H; auto. Qed.




(** ** What the decoders return *)

Lemma unread_bytes (d : DataBuffer.t) :
  all_bytes (DataBuffer.buffer d) -> all_bytes (unread d).
Proof. apply all_bytes_skipn. Qed.

(** A read that returns: where the cursor goes and what came back. *)
Lemma readBytes_Ok_inv (pol : DataBuffer.ShortRead) (len : nat)
    (d d' : DataBuffer.t) (v : bytes) :
  DataBuffer.readBytes pol len d = Ok (v, d') ->
  d' = DataBuffer.mk (DataBuffer.buffer d) (DataBuffer.offset d + len)
  /\ v = firstn len (unread d)
  /\ (pol = DataBuffer.Strict -> (len <= List.length (unread d))%nat
                                 /\ List.length v = len).
Proof.
  unfold DataBuffer.readBytes; fold (unread d).
  destruct (Nat.ltb_spec (List.length (unread d)) len) as [Hs|Hs].
  - destruct pol; [discriminate|].
    intros H; apply Ok_inj in H; injection H as <- <-.
    split; [reflexivity|].
    split; [rewrite firstn_all2 by lia; reflexivity | discriminate].
  - intros H; apply Ok_inj in H; injection H as <- <-.
    split; [reflexivity | split; [reflexivity|]].
    intros _; split; [exact Hs | rewrite length_firstn; lia].
Qed.

Lemma readInt_Ok_inv (pol : DataBuffer.ShortRead) (len : nat)
    (d d' : DataBuffer.t) (n : Z) :
  DataBuffer.readInt pol len d = Ok (n, d') ->
  exists bs, DataBuffer.readBytes pol len d = Ok (bs, d')
             /\ n = DataBuffer.bytesToNumber bs.
Proof.
  unfold DataBuffer.readInt; intros H.
  apply result_bind_Ok in H as ([bs d1] & Hr & H).
  apply Ok_inj in H; injection H as <- <-; eauto.
Qed.

(** The constructor on a 97-byte string of bytes yields a valid wire
    point. *)
Lemma ECPoint_of_bytes_valid (v : bytes) (e : ECPoint.t) :
  ECPoint.new (ECPoint.OfBytes v) = Ok e ->
  valid_element (ECPoint.point e)
  /\ ECPoint.value e = v
  /\ (List.length v = 97%nat -> all_bytes v -> valid_point e).
Proof.
  cbn [ECPoint.new]; intros H.
  apply result_bind_Ok in H as (P & HP & H); apply Ok_inj in H; subst e.
  cbn [ECPoint.point ECPoint.value].
  split; [apply (fromHex_valid _ _ HP) | split; [reflexivity|]].
  intros Hlen Hb; rewrite Uint8Array_from_bytes in HP by exact Hb.
  split; [exact Hlen | split; [exact Hb | exact HP]].
Qed.

(** The loop, when it returns, has pushed points until there were
    [count] of them; each has passed the validity check, and under the
    strict reader each took 97 bytes of the buffer. *)
Lemma from_loop_result (pol : DataBuffer.ShortRead) :
  forall (fuel : nat) (count : Z) (d : DataBuffer.t) (acc ns : list ECPoint.t),
    all_bytes (DataBuffer.buffer d) ->
    Z.of_nat (List.length acc) <= count ->
    IssueRequest.from_loop pol fuel count d acc = Some (Ok ns) ->
    exists new,
      ns = acc ++ new
      /\ Z.of_nat (List.length ns) = count
      /\ Forall (fun T => valid_element (ECPoint.point T)) new
      /\ (pol = DataBuffer.Strict ->
          Forall valid_point new
          /\ (97 * List.length new <= List.length (unread d))%nat).
Proof.
  induction fuel as [|fuel IH]; intros count d acc ns Hb Hacc H;
    cbn [IssueRequest.from_loop] in H.
  - destruct (Z.ltb_spec (Z.of_nat (List.length acc)) count) as [Hlt|Hge];
      [discriminate H|].
    apply Some_inj, Ok_inj in H; subst ns.
    exists []; rewrite app_nil_r.
    split; [reflexivity | split; [lia | split; [constructor|]]].
    intros _; split; [constructor | cbn; lia].
  - destruct (Z.ltb_spec (Z.of_nat (List.length acc)) count) as [Hlt|Hge].
    + destruct (DataBuffer.readBytes pol VOPRF_P384.POINT_BYTES d)
        as [[v d']|e] eqn:Hread; [|discriminate H].
      apply readBytes_Ok_inv in Hread as (-> & Hv & Hstrict).
      set (d' := DataBuffer.mk (DataBuffer.buffer d)
                   (DataBuffer.offset d + VOPRF_P384.POINT_BYTES)) in *.
      assert (Hd' : unread d' = skipn 97 (unread d)) by apply unread_advance.
      destruct (ECPoint.new (ECPoint.OfBytes v)) as [p|e] eqn:Hnew.
      * apply IH in H; [|exact Hb | rewrite length_app; cbn [List.length]; lia].
        destruct H as (new & -> & Hcount & Hall & Hs).
        apply ECPoint_of_bytes_valid in Hnew as (Hp & Hval & Hvp).
        exists (p :: new); rewrite <- app_assoc.
        split; [reflexivity|].
        split; [rewrite <- app_assoc in Hcount; exact Hcount|].
        split; [constructor; assumption|].
        intros ->; destruct (Hs eq_refl) as [Hnews Hlen].
        destruct (Hstrict eq_refl) as [Hrest Hvl].
        change VOPRF_P384.POINT_BYTES with 97%nat in *.
        split.
        -- constructor; [|exact Hnews].
           apply Hvp; [exact Hvl|].
           rewrite Hv; apply all_bytes_firstn, unread_bytes, Hb.
        -- rewrite Hd', length_skipn in Hlen; cbn [List.length]; lia.
      * apply IH in H; [|exact Hb | exact Hacc].
        destruct H as (new & -> & Hcount & Hall & Hs).
        exists new.
        split; [reflexivity | split; [exact Hcount | split; [exact Hall|]]].
        intros ->; destruct (Hs eq_refl) as [Hnews Hlen].
        split; [exact Hnews|].
        rewrite Hd', length_skipn in Hlen; lia.
    + apply Some_inj, Ok_inj in H; subst ns.
      exists []; rewrite app_nil_r.
      split; [reflexivity | split; [lia | split; [constructor|]]].
      intros _; split; [constructor | cbn; lia].
Qed.

(** A call of [from] that returns a request: the decoded bytes, the
    count read from the first two, and the run of the loop. *)
Lemma IssueRequest_from_parts (pol : DataBuffer.ShortRead)
    (fuel : nat) (s : string) (m : IssueRequest.t) :
  IssueRequest.from pol fuel s = Some (Ok m) ->
  exists (bs : bytes) (d : DataBuffer.t),
    Base64.decode s = Ok bs
    /\ all_bytes (DataBuffer.buffer d)
    /\ 0 <= DataBuffer.bytesToNumber (firstn 2 bs)
    /\ IssueRequest.from_loop pol fuel (DataBuffer.bytesToNumber (firstn 2 bs)) d []
       = Some (Ok (IssueRequest.nonces m))
    /\ (pol = DataBuffer.Strict ->
        (List.length (unread d) + 2 = List.length bs)%nat).
Proof.
  unfold IssueRequest.from; intros H.
  destruct (Base64.decode s) as [bs|e] eqn:Hdec; [|discriminate H].
  pose proof (decode_bytes s bs Hdec) as Hb.
  destruct (DataBuffer.readInt pol 2 (DataBuffer.new bs)) as [[count d]|e] eqn:Hint;
    [|discriminate H].
  apply readInt_Ok_inv in Hint as (v & Hread & ->).
  apply readBytes_Ok_inv in Hread as (-> & Hv & Hstrict).
  change (unread (DataBuffer.new bs)) with bs in Hv, Hstrict.
  match type of H with
  | match ?l with _ => _ end = _ => destruct l as [[ns|e]|] eqn:Hloop
  end; try discriminate H.
  apply Some_inj, Ok_inj in H; subst m v.
  exists bs,
    (DataBuffer.mk (DataBuffer.buffer (DataBuffer.new bs))
       (DataBuffer.offset (DataBuffer.new bs) + 2)).
  split; [reflexivity|].
  split; [exact Hb|].
  split; [apply bytesToNumber_bounds, all_bytes_firstn, Hb|].
  split; [exact Hloop|].
  intros ->; destruct (Hstrict eq_refl) as [Hrest _].
  rewrite unread_advance.
  change (unread (DataBuffer.new bs)) with bs.
  rewrite length_skipn; lia.
Qed.

(** X7.  Whenever [IssueRequest.from] returns a request, the request
    holds exactly as many nonces as the count field of the message says,
    never fewer, and every nonce carries a point that has passed the
    validity check; under a reader that refuses short reads every nonce is
    a 97-byte valid wire point and the message had at least
    [2 + 97 * count] bytes. *)
Theorem IssueRequest_from_returns_count_nonces (pol : DataBuffer.ShortRead)
    (fuel : nat) (s : string) (m : IssueRequest.t) :
  IssueRequest.from pol fuel s = Some (Ok m) ->
  exists bs,
    Base64.decode s = Ok bs
    /\ Z.of_nat (IssueRequest.count m) = DataBuffer.bytesToNumber (firstn 2 bs)
    /\ Forall (fun T => valid_element (ECPoint.toPoint T)) (IssueRequest.nonces m)
    /\ (pol = DataBuffer.Strict ->
        Forall valid_point (IssueRequest.nonces m)
        /\ (2 + 97 * IssueRequest.count m <= List.length bs)%nat).
Proof.
  intros H.
  apply IssueRequest_from_parts in H as (bs & d & Hdec & Hb & H0 & Hloop & Hs).
  exists bs; split; [exact Hdec|].
  apply from_loop_result in Hloop as (new & Hnew & Hcount & Hall & Hst);
    [|exact Hb | cbn [List.length]; lia].
  cbn [app] in Hnew; subst new.
  unfold IssueRequest.count.
  split; [exact Hcount|].
  split; [exact Hall|].
  intros ->; destruct (Hst eq_refl) as [Hvalid Hlen].
  specialize (Hs eq_refl).
  split; [exact Hvalid | lia].
Qed.

Lemma IssueRequest_from_returns_count_nonces_witness :
  let m := IssueRequest.mk [G_point; G_point] in
  exists bs,
    Base64.decode (IssueRequest.toString m) = Ok bs
    /\ Z.of_nat (IssueRequest.count m) = DataBuffer.bytesToNumber (firstn 2 bs)
    /\ Forall (fun T => valid_element (ECPoint.toPoint T)) (IssueRequest.nonces m)
    /\ (DataBuffer.Strict = DataBuffer.Strict ->
        Forall valid_point (IssueRequest.nonces m)
        /\ (2 + 97 * IssueRequest.count m <= List.length bs)%nat).
Proof.
  intros m.
  apply (IssueRequest_from_returns_count_nonces DataBuffer.Strict 2
           (IssueRequest.toString m) m).
  apply IssueRequest_round_trip.
  - do 2 (constructor; [exact G_point_valid|]); constructor.
  - cbn; lia.
  - cbn; lia.
Defined.

(** X8.  [IssueRequest.from] reads the count and that many points and
    stops: whatever bytes follow the last point are never read, and the
    request comes back as if they were not there. *)
Theorem IssueRequest_from_ignores_trailing_bytes (pol : DataBuffer.ShortRead)
    (fuel : nat) (m : IssueRequest.t) (post : bytes) :
  Forall valid_point (IssueRequest.nonces m) ->
  Z.of_nat (IssueRequest.count m) < 65536 ->
  (IssueRequest.count m <= fuel)%nat ->
  all_bytes post ->
  IssueRequest.from pol fuel (Base64.encode (IssueRequest.toBytes m ++ post))
  = Some (Ok m).
Proof.
  intros Hv Hcount Hfuel Hpost.
  assert (Hbytes : IssueRequest.toBytes m ++ post
                   = DataBuffer.numberToBytes (Z.of_nat (IssueRequest.count m)) 2
                     ++ flat_map ECPoint.value (IssueRequest.nonces m) ++ post).
  { unfold IssueRequest.toBytes; rewrite write_nonces_buffer, <- app_assoc.
    reflexivity. }
  unfold IssueRequest.from.
  rewrite decode_encode.
  2:{ rewrite Hbytes; apply all_bytes_app; [apply numberToBytes_bytes|].
      apply all_bytes_app; [apply valid_points_bytes, Hv | exact Hpost]. }
  destruct (readInt_rest pol (DataBuffer.new (IssueRequest.toBytes m ++ post))
              (flat_map ECPoint.value (IssueRequest.nonces m) ++ post)
              (Z.of_nat (IssueRequest.count m)) 2)
    as (d' & Hread & Hd'); [exact Hbytes | change (256 ^ Z.of_nat 2) with 65536; lia |].
  rewrite Hread.
  unfold IssueRequest.count in *.
  pose proof (from_loop_valid pol (IssueRequest.nonces m) [] d' post fuel Hv) as Hloop.
  cbn [List.length Nat.add app] in Hloop.
  rewrite Hloop; [destruct m; reflexivity | exact Hd' | exact Hfuel].
Qed.

Lemma IssueRequest_from_ignores_trailing_bytes_witness :
  IssueRequest.from DataBuffer.Strict 1
    (Base64.encode (IssueRequest.toBytes (IssueRequest.mk [G_point]) ++ [1; 2; 3]))
  = Some (Ok (IssueRequest.mk [G_point])).
Proof.
  apply (IssueRequest_from_ignores_trailing_bytes DataBuffer.Strict 1
           (IssueRequest.mk [G_point]) [1; 2; 3]).
  - constructor; [exact G_point_valid | constructor].
  - cbn; lia.
  - cbn; lia.
  - repeat constructor; unfold is_byte; lia.
Defined.
(** ** The decoder of a redeem request *)

Lemma RedeemRequest_toBytes_frame (m : RedeemRequest.t) :
  RedeemRequest.toBytes m
  = DataBuffer.numberToBytes
      (Z.of_nat (List.length (RedeemRequest.nonce m)
                 + List.length (ECPoint.toBytes (RedeemRequest.point m)) + 4)) 2
    ++ DataBuffer.numberToBytes (RedeemRequest.keyID m) 4
    ++ RedeemRequest.nonce m ++ ECPoint.value (RedeemRequest.point m)
    ++ DataBuffer.numberToBytes
         (Z.of_nat (List.length (RedeemRequest.clientData m))) 2
    ++ RedeemRequest.clientData m.
Proof.
  unfold RedeemRequest.toBytes, ECPoint.toBytes;
    cbn [DataBuffer.writeInt DataBuffer.writeBytes DataBuffer.toBytes
         DataBuffer.buffer DataBuffer.empty DataBuffer.new].
  rewrite <- !app_assoc; reflexivity.
Qed.

(** Decoding a frame whose first two bytes are any 16-bit number and
    which is followed by any bytes. *)
Lemma RedeemRequest_from_frame (pol : DataBuffer.ShortRead) (m : RedeemRequest.t)
    (tokenLen : Z) (post : bytes) :
  0 <= tokenLen < 65536 ->
  0 <= RedeemRequest.keyID m < 2 ^ 32 ->
  List.length (RedeemRequest.nonce m) = 64%nat ->
  all_bytes (RedeemRequest.nonce m) ->
  valid_point (RedeemRequest.point m) ->
  all_bytes (RedeemRequest.clientData m) ->
  Z.of_nat (List.length (RedeemRequest.clientData m)) < 65536 ->
  all_bytes post ->
  RedeemRequest.from pol
    (Base64.encode
       (DataBuffer.numberToBytes tokenLen 2
        ++ skipn 2 (RedeemRequest.toBytes m) ++ post))
  = Ok m.
Proof.
  intros Htl Hid Hnl Hnb Hp Hcb Hcl Hpost.
  rewrite RedeemRequest_toBytes_frame.
  rewrite skipn_app_exact by apply numberToBytes_length.
  destruct m as [keyID nonce point clientData];
    cbn [RedeemRequest.keyID RedeemRequest.nonce RedeemRequest.point
         RedeemRequest.clientData] in *.
  pose proof Hp as (Hpl & Hpb & _).
  set (cdl := Z.of_nat (List.length clientData)) in *.
  rewrite <- !app_assoc.
  set (msg := DataBuffer.numberToBytes tokenLen 2
              ++ DataBuffer.numberToBytes keyID 4
              ++ nonce ++ ECPoint.value point
              ++ DataBuffer.numberToBytes cdl 2 ++ clientData ++ post).
  assert (Hmsg : unread (DataBuffer.new msg)
                 = DataBuffer.numberToBytes tokenLen 2
                   ++ DataBuffer.numberToBytes keyID 4
                   ++ nonce ++ ECPoint.value point
                   ++ DataBuffer.numberToBytes cdl 2 ++ clientData ++ post)
    by reflexivity.
  unfold RedeemRequest.from.
  rewrite decode_encode.
  2:{ unfold msg;
      repeat (apply all_bytes_app;
              [first [apply numberToBytes_bytes | assumption]|]);
      assumption. }
  cbn [bind].
  destruct (readInt_rest pol (DataBuffer.new msg) _ tokenLen 2 Hmsg)
    as (d1 & -> & H1); [change (256 ^ Z.of_nat 2) with 65536; lia|]; cbn [bind].
  destruct (readInt_rest pol d1 _ keyID 4 H1)
    as (d2 & -> & H2); [change (256 ^ Z.of_nat 4) with (2 ^ 32); lia|]; cbn [bind].
  destruct (readBytes_rest pol d2 _ _ NONCE_LENGTH H2 Hnl)
    as (d3 & -> & H3); cbn [bind].
  destruct (readBytes_rest pol d3 _ _ VOPRF_P384.POINT_BYTES H3 Hpl)
    as (d4 & -> & H4); cbn [bind].
  rewrite ECPoint_new_valid by exact Hp; cbn [bind].
  destruct (readInt_rest pol d4 _ cdl 2 H4)
    as (d5 & -> & H5); [change (256 ^ Z.of_nat 2) with 65536; lia|]; cbn [bind].
  destruct (readBytes_rest pol d5 _ _ (Z.to_nat cdl) H5)
    as (d6 & -> & H6); [unfold cdl; lia|]; cbn [bind].
  reflexivity.
Qed.

(** X9.  [RedeemRequest.from] reads the token length and never looks at
    it, and never looks past the client data: a message that carries any
    16-bit number in place of the length 165 and any bytes after the
    client data decodes to the same request. *)
Theorem RedeemRequest_from_ignores_token_length (pol : DataBuffer.ShortRead)
    (m : RedeemRequest.t) (tokenLen : Z) (post : bytes) :
  0 <= tokenLen < 65536 ->
  0 <= RedeemRequest.keyID m < 2 ^ 32 ->
  List.length (RedeemRequest.nonce m) = 64%nat ->
  all_bytes (RedeemRequest.nonce m) ->
  valid_point (RedeemRequest.point m) ->
  all_bytes (RedeemRequest.clientData m) ->
  Z.of_nat (List.length (RedeemRequest.clientData m)) < 65536 ->
  all_bytes post ->
  firstn 2 (RedeemRequest.toBytes m) = [0; 165]
  /\ RedeemRequest.from pol
       (Base64.encode
          (DataBuffer.numberToBytes tokenLen 2
           ++ skipn 2 (RedeemRequest.toBytes m) ++ post))
     = Ok m.
Proof.
  intros Htl Hid Hnl Hnb Hp Hcb Hcl Hpost.
  split; [|apply RedeemRequest_from_frame; assumption].
  rewrite RedeemRequest_toBytes_frame.
  rewrite firstn_app_exact by apply numberToBytes_length.
  destruct Hp as (Hpl & _); unfold ECPoint.toBytes; rewrite Hnl, Hpl.
  reflexivity.
Qed.

Lemma RedeemRequest_from_ignores_token_length_witness :
  firstn 2 (RedeemRequest.toBytes short_redeem_request) = [0; 165]
  /\ RedeemRequest.from DataBuffer.Strict
       (Base64.encode
          (DataBuffer.numberToBytes 7 2
           ++ skipn 2 (RedeemRequest.toBytes short_redeem_request) ++ [9; 9]))
     = Ok short_redeem_request.
Proof.
  apply (RedeemRequest_from_ignores_token_length DataBuffer.Strict
           short_redeem_request 7 [9; 9]).
  - lia.
  - cbn; lia.
  - reflexivity.
  - apply repeat_bytes; unfold is_byte; lia.
  - exact G_point_valid.
  - do 3 (constructor; [unfold is_byte; lia|]); constructor.
  - cbn; lia.
  - do 2 (constructor; [unfold is_byte; lia|]); constructor.
Defined.

(** A read of the strict reader, with the bytes it returned. *)
Lemma readBytes_strict_inv (len : nat) (d d' : DataBuffer.t) (v : bytes) :
  all_bytes (DataBuffer.buffer d) ->
  DataBuffer.readBytes DataBuffer.Strict len d = Ok (v, d') ->
  List.length v = len /\ all_bytes v /\ all_bytes (DataBuffer.buffer d')
  /\ (List.length (unread d') + len = List.length (unread d))%nat.
Proof.
  intros Hb H; apply readBytes_Ok_inv in H as (-> & -> & Hs).
  destruct (Hs eq_refl) as [Hle Hlen].
  split; [exact Hlen | split; [|split; [exact Hb|]]].
  - apply all_bytes_firstn, unread_bytes, Hb.
  - rewrite unread_advance, length_skipn; lia.
Qed.

Lemma readInt_strict_inv (len : nat) (d d' : DataBuffer.t) (n : Z) :
  all_bytes (DataBuffer.buffer d) ->
  DataBuffer.readInt DataBuffer.Strict len d = Ok (n, d') ->
  0 <= n < 256 ^ Z.of_nat len /\ all_bytes (DataBuffer.buffer d')
  /\ (List.length (unread d') + len = List.length (unread d))%nat.
Proof.
  intros Hb H; apply readInt_Ok_inv in H as (bs & H & ->).
  apply readBytes_strict_inv in H as (Hlen & Hbs & Hb' & Hu); [|exact Hb].
  split; [|split; [exact Hb' | exact Hu]].
  rewrite <- Hlen; apply bytesToNumber_bounds, Hbs.
Qed.

(** X10.  Under a reader that refuses short reads, every request that
    [RedeemRequest.from] returns is well formed (a key identifier below
    [2^32], a 64-byte nonce, a valid 97-byte point, fewer than [2^16]
    bytes of client data), was read from a message of at least 169 bytes
    plus the client data, and decodes from its own encoding:
    [from(from(s).toString())] is [from(s)]. *)
Theorem RedeemRequest_from_returns_canonical (s : string) (m : RedeemRequest.t) :
  RedeemRequest.from DataBuffer.Strict s = Ok m ->
  0 <= RedeemRequest.keyID m < 2 ^ 32
  /\ List.length (RedeemRequest.nonce m) = 64%nat
  /\ valid_point (RedeemRequest.point m)
  /\ Z.of_nat (List.length (RedeemRequest.clientData m)) < 65536
  /\ (exists bs,
         Base64.decode s = Ok bs
         /\ (169 + List.length (RedeemRequest.clientData m) <= List.length bs)%nat)
  /\ RedeemRequest.from DataBuffer.Strict (RedeemRequest.toString m) = Ok m.
Proof.
  unfold RedeemRequest.from at 1; intros H.
  apply result_bind_Ok in H as (bs & Hdec & H).
  pose proof (decode_bytes _ _ Hdec) as Hb0.
  apply result_bind_Ok in H as ([tokenLen d1] & H1 & H).
  apply readInt_strict_inv in H1 as (_ & Hb1 & L1); [|exact Hb0].
  change (unread (DataBuffer.new bs)) with bs in L1.
  apply result_bind_Ok in H as ([keyID d2] & H2 & H).
  apply readInt_strict_inv in H2 as (Hid & Hb2 & L2); [|exact Hb1].
  apply result_bind_Ok in H as ([nonce d3] & H3 & H).
  apply readBytes_strict_inv in H3 as (Hnl & Hnb & Hb3 & L3); [|exact Hb2].
  apply result_bind_Ok in H as ([value d4] & H4 & H).
  apply readBytes_strict_inv in H4 as (Hvl & Hvb & Hb4 & L4); [|exact Hb3].
  apply result_bind_Ok in H as (point & Hpt & H).
  apply ECPoint_of_bytes_valid in Hpt as (_ & _ & Hvp).
  specialize (Hvp Hvl Hvb).
  apply result_bind_Ok in H as ([cdl d5] & H5 & H).
  apply readInt_strict_inv in H5 as (Hcdl & Hb5 & L5); [|exact Hb4].
  apply result_bind_Ok in H as ([clientData d6] & H6 & H).
  apply readBytes_strict_inv in H6 as (Hcl & Hcb & _ & L6); [|exact Hb5].
  apply Ok_inj in H; subst m.
  cbn [RedeemRequest.keyID RedeemRequest.nonce RedeemRequest.point
       RedeemRequest.clientData].
  change (256 ^ Z.of_nat 4) with (2 ^ 32) in Hid.
  change (256 ^ Z.of_nat 2) with 65536 in Hcdl.
  change NONCE_LENGTH with 64%nat in *.
  change VOPRF_P384.POINT_BYTES with 97%nat in *.
  assert (Hclz : Z.of_nat (List.length clientData) < 65536) by lia.
  split; [exact Hid | split; [exact Hnl | split; [exact Hvp | split; [exact Hclz|]]]].
  split; [exists bs; split; [exact Hdec | lia]|].
  apply RedeemRequest_round_trip; assumption.
Qed.

Lemma RedeemRequest_from_returns_canonical_witness :
  0 <= RedeemRequest.keyID short_redeem_request < 2 ^ 32
  /\ List.length (RedeemRequest.nonce short_redeem_request) = 64%nat
  /\ valid_point (RedeemRequest.point short_redeem_request)
  /\ Z.of_nat (List.length (RedeemRequest.clientData short_redeem_request)) < 65536
  /\ (exists bs,
         Base64.decode (RedeemRequest.toString short_redeem_request) = Ok bs
         /\ (169 + List.length (RedeemRequest.clientData short_redeem_request)
             <= List.length bs)%nat)
  /\ RedeemRequest.from DataBuffer.Strict
       (RedeemRequest.toString short_redeem_request)
     = Ok short_redeem_request.
Proof.
  apply (RedeemRequest_from_returns_canonical
           (RedeemRequest.toString short_redeem_request) short_redeem_request).
  apply RedeemRequest_round_trip.
  - cbn; lia.
  - reflexivity.
  - apply repeat_bytes; unfold is_byte; lia.
  - exact G_point_valid.
  - do 3 (constructor; [unfold is_byte; lia|]); constructor.
  - cbn; lia.
Defined.
(** ** The key map of an issuer *)

Lemma Map_get_set_same {V : Type} (m : list (Z * V)) (k : Z) (v : V) :
  Map_get Z.eqb (Map_set Z.eqb m k v) k = Some v.
Proof.
  induction m as [|[k' v'] m IH]; cbn [Map_set Map_get].
  - rewrite Z.eqb_refl; reflexivity.
  - destruct (Z.eqb_spec k' k) as [->|Hne]; cbn [Map_get].
    + rewrite Z.eqb_refl; reflexivity.
    + destruct (Z.eqb_spec k' k); [contradiction | exact IH].
Qed.

Lemma Map_get_set_other {V : Type} (m : list (Z * V)) (k k' : Z) (v : V) :
  k' <> k -> Map_get Z.eqb (Map_set Z.eqb m k v) k' = Map_get Z.eqb m k'.
Proof.
  intros Hne; induction m as [|[k0 v0] m IH]; cbn [Map_set Map_get].
  - destruct (Z.eqb_spec k k'); [congruence | reflexivity].
  - destruct (Z.eqb_spec k0 k) as [->|Hk]; cbn [Map_get].
    + destruct (Z.eqb_spec k k'); [congruence | reflexivity].
    + rewrite IH; reflexivity.
Qed.

Lemma Map_get_None {V : Type} (m : list (Z * V)) (k : Z) :
  Map_get Z.eqb m k = None <-> ~ In k (map fst m).
Proof.
  induction m as [|[k' v'] m IH]; cbn [Map_get map fst In]; [tauto|].
  destruct (Z.eqb_spec k' k) as [->|Hne].
  - split; [discriminate | intros H; exfalso; apply H; auto].
  - rewrite IH; split; [intros H [E|E]; auto | intros H E; apply H; auto].
Qed.

(** [set] on an absent key appends; on a present key it keeps the keys
    where they are. *)
Lemma Map_set_absent {V : Type} (m : list (Z * V)) (k : Z) (v : V) :
  Map_get Z.eqb m k = None -> Map_set Z.eqb m k v = m ++ [(k, v)].
Proof.
  induction m as [|[k' v'] m IH]; cbn [Map_set Map_get app]; [reflexivity|].
  destruct (Z.eqb_spec k' k); [discriminate|].
  intros H; rewrite IH by exact H; reflexivity.
Qed.

Lemma Map_set_present {V : Type} (m : list (Z * V)) (k : Z) (v : V) :
  Map_get Z.eqb m k <> None ->
  map fst (Map_set Z.eqb m k v) = map fst m.
Proof.
  induction m as [|[k' v'] m IH]; cbn [Map_set Map_get map fst]; [congruence|].
  destruct (Z.eqb_spec k' k); [reflexivity|].
  intros H; cbn [map fst]; rewrite IH by exact H; reflexivity.
Qed.

Lemma Map_set_NoDup {V : Type} (m : list (Z * V)) (k : Z) (v : V) :
  NoDup (map fst m) -> NoDup (map fst (Map_set Z.eqb m k v)).
Proof.
  intros Hn; destruct (Map_get Z.eqb m k) as [v0|] eqn:E.
  - rewrite Map_set_present by congruence; exact Hn.
  - rewrite Map_set_absent by exact E.
    rewrite map_app; cbn [map fst].
    apply NoDup_app; [exact Hn | repeat constructor; auto |].
    intros x Hx [<-|[]]; apply Map_get_None in E; contradiction.
Qed.

Lemma Map_set_Forall {V : Type} (P : Z * V -> Prop) (m : list (Z * V))
    (k : Z) (v : V) :
  Forall P m -> P (k, v) -> Forall P (Map_set Z.eqb m k v).
Proof.
  intros Hm Hk; induction Hm as [|[k' v'] m Hx Hm IH]; cbn [Map_set].
  - repeat constructor; exact Hk.
  - destruct (Z.eqb_spec k' k) as [->|]; constructor; assumption.
Qed.

Lemma find_over_app {A : Type} (p : A -> bool) (l1 l2 : list A) :
  find p (l1 ++ l2)
  = match find p l1 with
    | Some x => Some x
    | None => find p l2
    end.
Proof.
  induction l1 as [|a l1 IH]; cbn [app find]; [reflexivity|].
  destruct (p a); [reflexivity | exact IH].
Qed.

(** A map built from a list of entries returns, for a key, the last entry
    of the list that has it. *)
Lemma Map_of_entries_get {V : Type} (es : list (Z * V)) (i : Z) :
  forall m : list (Z * V),
    Map_get Z.eqb (fold_left (fun m e => Map_set Z.eqb m (fst e) (snd e)) es m) i
    = match find (fun e => fst e =? i) (rev es) with
      | Some e => Some (snd e)
      | None => Map_get Z.eqb m i
      end.
Proof.
  induction es as [|e es IH]; intros m; cbn [fold_left rev find]; [reflexivity|].
  rewrite IH, find_over_app.
  destruct (find (fun e0 => fst e0 =? i) (rev es)); [reflexivity|].
  cbn [find].
  destruct (Z.eqb_spec (fst e) i) as [<-|Hne].
  - apply Map_get_set_same.
  - apply Map_get_set_other; congruence.
Qed.

Lemma Map_of_entries_inv {V : Type} (P : Z * V -> Prop) (es : list (Z * V)) :
  Forall P es ->
  forall m : list (Z * V),
    NoDup (map fst m) -> Forall P m ->
    let m' := fold_left (fun m e => Map_set Z.eqb m (fst e) (snd e)) es m in
    NoDup (map fst m') /\ Forall P m'
    /\ (List.length m' <= List.length m + List.length es)%nat.
Proof.
  induction 1 as [|e es He _ IH]; intros m Hn Hm; cbn [fold_left].
  - cbn; split; [exact Hn | split; [exact Hm | lia]].
  - destruct (IH (Map_set Z.eqb m (fst e) (snd e))) as (H1 & H2 & H3).
    + apply Map_set_NoDup, Hn.
    + apply Map_set_Forall; [exact Hm | destruct e; exact He].
    + split; [exact H1 | split; [exact H2|]].
      cbn [List.length].
      assert (List.length (Map_set Z.eqb m (fst e) (snd e)) <= S (List.length m))%nat.
      { clear; induction m as [|[k' v'] m IHm]; cbn [Map_set List.length]; [lia|].
        destruct (Z.eqb k' (fst e)); cbn [List.length]; lia. }
      lia.
Qed.

Lemma find_over_map {A B : Type} (f : A -> B) (p : B -> bool) (l : list A) :
  find p (map f l) = option_map f (find (fun a => p (f a)) l).
Proof.
  induction l as [|a l IH]; cbn [map find]; [reflexivity|].
  destruct (p (f a)); [reflexivity | exact IH].
Qed.

(** X11.  The constructor of an issuer keys the pairs by their own
    identifier: a lookup returns the last pair of the argument list with
    that identifier (an earlier pair with the same identifier is silently
    replaced), no identifier is listed twice, every pair sits under its
    own identifier, and there are at most as many public keys as pairs
    were given. *)
Theorem issuer_constructor_last_key_wins (host : string) (maxBatchSize : Z)
    (keys : list PrivateStateTokenKeyPair.t) (i : Z) :
  let iss := PrivateStateTokenIssuer.new host maxBatchSize keys in
  Map_get Z.eqb (PrivateStateTokenIssuer.keys iss) i
  = find (fun k => PrivateStateTokenKeyPair.id k =? i) (rev keys)
  /\ NoDup (map fst (PrivateStateTokenIssuer.keys iss))
  /\ Forall (fun e => PrivateStateTokenKeyPair.id (snd e) = fst e)
       (PrivateStateTokenIssuer.keys iss)
  /\ (List.length (PrivateStateTokenIssuer.publicKeys iss) <= List.length keys)%nat.
Proof.
  intros iss; unfold iss, PrivateStateTokenIssuer.new, PrivateStateTokenIssuer.publicKeys,
    Map_of_entries, Map_values.
  cbn [PrivateStateTokenIssuer.keys].
  split.
  - rewrite Map_of_entries_get, <- map_rev, find_over_map.
    cbn [fst Map_get].
    destruct (find _ (rev keys)); reflexivity.
  - destruct (Map_of_entries_inv
                (fun e => PrivateStateTokenKeyPair.id (snd e) = fst e)
                (map (fun k => (PrivateStateTokenKeyPair.id k, k)) keys))
        with (m := @nil (Z * PrivateStateTokenKeyPair.t)) as (H1 & H2 & H3).
    + apply Forall_forall; intros e He; apply in_map_iff in He as (k & <- & _).
      reflexivity.
    + constructor.
    + constructor.
    + split; [exact H1 | split; [exact H2|]].
      rewrite !length_map; rewrite length_map in H3; exact H3.
Qed.

(** X12.  [addKey(key)] touches one identifier: afterwards a lookup of
    [key.id] returns [key], and [issue] under it does what an issuer
    holding only [key] does, whatever the host and the batch size of that
    issuer ([issue] consults neither); every other identifier is looked up,
    issued under and redeemed under as before; the host and the batch
    size stay. *)
Theorem addKey_replaces_only_its_own_id
    (hash_to_field : bytes -> H2FOpts -> Z)
    (hashToCurve : bytes -> H2COpts -> Noble.ProjectivePoint)
    (key : PrivateStateTokenKeyPair.t) (iss : PrivateStateTokenIssuer.t)
    (host : string) (maxBatchSize : Z) :
  let iss' := PrivateStateTokenIssuer.addKey key iss in
  let only := PrivateStateTokenIssuer.new host maxBatchSize [key] in
  Map_get Z.eqb (PrivateStateTokenIssuer.keys iss') (PrivateStateTokenKeyPair.id key)
  = Some key
  /\ (forall request version,
         PrivateStateTokenIssuer.issue hash_to_field iss'
           (PrivateStateTokenKeyPair.id key) request version
         = PrivateStateTokenIssuer.issue hash_to_field only
             (PrivateStateTokenKeyPair.id key) request version)
  /\ (forall i : Z,
         i <> PrivateStateTokenKeyPair.id key ->
         Map_get Z.eqb (PrivateStateTokenIssuer.keys iss') i
         = Map_get Z.eqb (PrivateStateTokenIssuer.keys iss) i
         /\ (forall request version,
                PrivateStateTokenIssuer.issue hash_to_field iss' i request version
                = PrivateStateTokenIssuer.issue hash_to_field iss i request version)
         /\ (forall token record version,
                RedeemRequest.keyID token = i ->
                PrivateStateTokenIssuer.redeem hashToCurve iss' token record version
                = PrivateStateTokenIssuer.redeem hashToCurve iss token record version))
  /\ PrivateStateTokenIssuer.host iss' = PrivateStateTokenIssuer.host iss
  /\ PrivateStateTokenIssuer.maxBatchSize iss' = PrivateStateTokenIssuer.maxBatchSize iss.
Proof.
  intros iss' only.
  assert (Hsame : Map_get Z.eqb (PrivateStateTokenIssuer.keys iss')
                    (PrivateStateTokenKeyPair.id key) = Some key)
    by apply Map_get_set_same.
  assert (Honly : Map_get Z.eqb (PrivateStateTokenIssuer.keys only)
                    (PrivateStateTokenKeyPair.id key) = Some key).
  { cbn; rewrite Z.eqb_refl; reflexivity. }
  split; [exact Hsame|].
  split.
  { intros request version; unfold PrivateStateTokenIssuer.issue.
    rewrite Hsame, Honly; reflexivity. }
  split; [|split; reflexivity].
  intros i Hi.
  assert (Hother : Map_get Z.eqb (PrivateStateTokenIssuer.keys iss') i
                   = Map_get Z.eqb (PrivateStateTokenIssuer.keys iss) i)
    by (apply Map_get_set_other; exact Hi).
  split; [exact Hother|].
  split.
  - intros request version; unfold PrivateStateTokenIssuer.issue.
    rewrite Hother; reflexivity.
  - intros token record version <-; unfold PrivateStateTokenIssuer.redeem.
    rewrite Hother; reflexivity.
Qed.
(** ** Key commitments *)

Lemma Map_get_In {V : Type} (m : list (Z * V)) (k : Z) (v : V) :
  Map_get Z.eqb m k = Some v -> In (k, v) m.
Proof.
  induction m as [|[k' v'] m IH]; cbn [Map_get In]; [discriminate|].
  destruct (Z.eqb_spec k' k) as [->|_].
  - intros H; apply Some_inj in H; subst v'; auto.
  - auto.
Qed.

Lemma Map_get_map {V W : Type} (f : V -> W) (m : list (Z * V)) (k : Z) :
  Map_get Z.eqb (map (fun e => (fst e, f (snd e))) m) k
  = option_map f (Map_get Z.eqb m k).
Proof.
  induction m as [|[k' v'] m IH]; cbn [map Map_get fst snd]; [reflexivity|].
  destruct (k' =? k); [reflexivity | exact IH].
Qed.

(** The loop of [keyCommitment] over keys whose identifiers are distinct
    and new: one entry is appended per key, in order. *)
Lemma commitment_loop (ks : list (Z * PrivateStateTokenKeyPair.t)) :
  forall acc : list (Z * PrivateStateTokenIssuer.CommitmentKey),
    NoDup (map fst acc ++ map fst ks) ->
    Forall (fun e => PrivateStateTokenPublicKey.id
                       (PrivateStateTokenKeyPair.publicKey (snd e)) = fst e) ks ->
    fold_left
      (fun acc key =>
         Map_set Z.eqb acc (PrivateStateTokenPublicKey.id key)
           (commitment_entry key))
      (map PrivateStateTokenKeyPair.publicKey (map snd ks)) acc
    = acc ++ map (fun e => (fst e,
                            commitment_entry
                              (PrivateStateTokenKeyPair.publicKey (snd e)))) ks.
Proof.
  induction ks as [|e ks IH]; intros acc Hn Hc; cbn [map fold_left].
  - rewrite app_nil_r; reflexivity.
  - pose proof (Forall_inv Hc) as He; cbn beta in He.
    rewrite He, Map_set_absent.
    + rewrite IH; [rewrite <- app_assoc; reflexivity | | exact (Forall_inv_tail Hc)].
      rewrite map_app, <- app_assoc; exact Hn.
    + apply Map_get_None; intros Hin.
      cbn [map] in Hn; apply NoDup_remove_2 in Hn.
      apply Hn, in_or_app; auto.
Qed.

(** [issue] returns [null] on an unknown key and on nothing else. *)
Lemma issue_null_iff (hash_to_field : bytes -> H2FOpts -> Z)
    (iss : PrivateStateTokenIssuer.t) (keyId : Z) (request : IssueRequest.t)
    (version : option string) :
  PrivateStateTokenIssuer.issue hash_to_field iss keyId request version = Ok None
  <-> Map_get Z.eqb (PrivateStateTokenIssuer.keys iss) keyId = None.
Proof.
  unfold PrivateStateTokenIssuer.issue.
  destruct (Map_get Z.eqb (PrivateStateTokenIssuer.keys iss) keyId) as [kp|];
    [|tauto].
  split; [|discriminate].
  rewrite getVersionConfig_default.
  destruct (getVersionConfig_total version) as [config ->].
  intros H.
  apply result_bind_Ok in H as ([signed B] & _ & H).
  apply result_bind_Ok in H as (bt & _ & H).
  apply result_bind_Ok in H as (zb & _ & H).
  apply result_bind_Ok in H as (proof & _ & H).
  apply Ok_inj in H; discriminate H.
Qed.

(** X13.  For an issuer whose identifiers agree, [keyCommitment] never
    fails and lists the keys of the map, one entry per identifier: the
    entry under [i] is [{Y, expiry}] of the public key stored under [i],
    where [Y] decodes to the 101 bytes [u32 i || pub]; the document names
    the selected protocol, the commitment identifier 1, the host and the
    batch size; and an identifier has no entry exactly when [issue] under
    it returns [null]. *)
Theorem keyCommitment_lists_the_issuer_keys
    (hash_to_field : bytes -> H2FOpts -> Z)
    (iss : PrivateStateTokenIssuer.t) (version : option string) :
  ids_consistent iss ->
  exists kc config,
    PrivateStateTokenIssuer.keyCommitment iss version = Ok kc
    /\ PrivateStateTokenIssuer.getVersionConfig version = Some config
    /\ PrivateStateTokenIssuer.kc_host kc = PrivateStateTokenIssuer.host iss
    /\ PrivateStateTokenIssuer.kc_protocol kc = name config
    /\ PrivateStateTokenIssuer.protocol_version kc = name config
    /\ PrivateStateTokenIssuer.kc_id kc = 1
    /\ PrivateStateTokenIssuer.batchsize kc = PrivateStateTokenIssuer.maxBatchSize iss
    /\ (forall i : Z,
           Map_get Z.eqb (PrivateStateTokenIssuer.kc_keys kc) i
           = option_map
               (fun kp => commitment_entry (PrivateStateTokenKeyPair.publicKey kp))
               (Map_get Z.eqb (PrivateStateTokenIssuer.keys iss) i))
    /\ (forall (i : Z) (kp : PrivateStateTokenKeyPair.t),
           Map_get Z.eqb (PrivateStateTokenIssuer.keys iss) i = Some kp ->
           let pub := PrivateStateTokenKeyPair.publicKey kp in
           Base64.decode (PrivateStateTokenIssuer.Y (commitment_entry pub))
           = Ok (DataBuffer.numberToBytes i 4 ++ PrivateStateTokenPublicKey.toBytes pub)
           /\ List.length (DataBuffer.numberToBytes i 4
                           ++ PrivateStateTokenPublicKey.toBytes pub) = 101%nat)
    /\ (forall i : Z,
           Map_get Z.eqb (PrivateStateTokenIssuer.kc_keys kc) i = None
           <-> forall request,
                 PrivateStateTokenIssuer.issue hash_to_field iss i request version
                 = Ok None).
Proof.
  intros [Hnd Hc].
  destruct (getVersionConfig_total version) as [config Hcfg].
  assert (Hc' : Forall (fun e => PrivateStateTokenPublicKey.id
                                   (PrivateStateTokenKeyPair.publicKey (snd e)) = fst e)
                  (PrivateStateTokenIssuer.keys iss)).
  { apply Forall_forall; intros e He.
    apply (proj1 (Forall_forall _ _) Hc e He). }
  pose proof (commitment_loop (PrivateStateTokenIssuer.keys iss) [] Hnd Hc') as Hloop.
  cbn [app] in Hloop.
  eexists; exists config.
  split.
  { unfold PrivateStateTokenIssuer.keyCommitment.
    rewrite getVersionConfig_default, Hcfg.
    unfold PrivateStateTokenIssuer.publicKeys, Map_values.
    change (fun (acc : list (Z * PrivateStateTokenIssuer.CommitmentKey))
                (key : PrivateStateTokenPublicKey.t) => _)
      with (fun (acc : list (Z * PrivateStateTokenIssuer.CommitmentKey))
                (key : PrivateStateTokenPublicKey.t) =>
              Map_set Z.eqb acc (PrivateStateTokenPublicKey.id key)
                (commitment_entry key)).
    rewrite Hloop; reflexivity. }
  cbn [PrivateStateTokenIssuer.kc_host PrivateStateTokenIssuer.kc_protocol
       PrivateStateTokenIssuer.protocol_version PrivateStateTokenIssuer.kc_id
       PrivateStateTokenIssuer.batchsize PrivateStateTokenIssuer.kc_keys].
  split; [exact Hcfg|].
  do 5 (split; [reflexivity|]).
  split.
  { intros i.
    apply (Map_get_map
             (fun kp => commitment_entry (PrivateStateTokenKeyPair.publicKey kp))). }
  split.
  - intros i kp Hkp; cbv zeta.
    set (pub := PrivateStateTokenKeyPair.publicKey kp).
    unfold commitment_entry; cbn [PrivateStateTokenIssuer.Y].
    apply Map_get_In in Hkp.
    pose proof (proj1 (Forall_forall _ _) Hc' _ Hkp) as Hid; cbn [fst snd] in Hid.
    fold pub in Hid; rewrite Hid.
    split.
    + apply decode_encode, all_bytes_app; apply numberToBytes_bytes.
    + rewrite length_app; unfold PrivateStateTokenPublicKey.toBytes.
      rewrite !numberToBytes_length; reflexivity.
  - intros i.
    rewrite (Map_get_map
               (fun kp => commitment_entry (PrivateStateTokenKeyPair.publicKey kp))).
    split.
    + intros H request; apply issue_null_iff.
      destruct (Map_get Z.eqb (PrivateStateTokenIssuer.keys iss) i);
        [discriminate H | reflexivity].
    + intros H; specialize (H (IssueRequest.mk [])).
      apply issue_null_iff in H; rewrite H; reflexivity.
Qed.

Lemma test_issuer_consistent : ids_consistent test_issuer.
Proof.
  split.
  - vm_compute; repeat constructor; auto.
  - repeat constructor.
Qed.

Lemma keyCommitment_lists_the_issuer_keys_witness :
  exists kc config,
    PrivateStateTokenIssuer.keyCommitment test_issuer None = Ok kc
    /\ PrivateStateTokenIssuer.getVersionConfig None = Some config
    /\ PrivateStateTokenIssuer.kc_host kc = PrivateStateTokenIssuer.host test_issuer
    /\ PrivateStateTokenIssuer.kc_protocol kc = name config
    /\ PrivateStateTokenIssuer.protocol_version kc = name config
    /\ PrivateStateTokenIssuer.kc_id kc = 1
    /\ PrivateStateTokenIssuer.batchsize kc
       = PrivateStateTokenIssuer.maxBatchSize test_issuer
    /\ (forall i : Z,
           Map_get Z.eqb (PrivateStateTokenIssuer.kc_keys kc) i
           = option_map
               (fun kp => commitment_entry (PrivateStateTokenKeyPair.publicKey kp))
               (Map_get Z.eqb (PrivateStateTokenIssuer.keys test_issuer) i))
    /\ (forall (i : Z) (kp : PrivateStateTokenKeyPair.t),
           Map_get Z.eqb (PrivateStateTokenIssuer.keys test_issuer) i = Some kp ->
           let pub := PrivateStateTokenKeyPair.publicKey kp in
           Base64.decode (PrivateStateTokenIssuer.Y (commitment_entry pub))
           = Ok (DataBuffer.numberToBytes i 4 ++ PrivateStateTokenPublicKey.toBytes pub)
           /\ List.length (DataBuffer.numberToBytes i 4
                           ++ PrivateStateTokenPublicKey.toBytes pub) = 101%nat)
    /\ (forall i : Z,
           Map_get Z.eqb (PrivateStateTokenIssuer.kc_keys kc) i = None
           <-> forall request,
                 PrivateStateTokenIssuer.issue stub_hash_to_field test_issuer i
                   request None
                 = Ok None).
Proof.
  apply (keyCommitment_lists_the_issuer_keys stub_hash_to_field test_issuer None).
  exact test_issuer_consistent.
Defined.

(** ** Key pairs from a JWK *)

(** The identifiers of a pair read from a JWK: the argument, else the
    [kid], in the pair and in both keys. *)
Lemma fromJWK_ids (now : Z) (jwk : PrivateStateTokenKeyPair.JWK) (id : Z)
    (key : PrivateStateTokenKeyPair.t) :
  PrivateStateTokenKeyPair.fromJWK now jwk id = Ok key ->
  let keyID := js_orZ id (js_orZ (PrivateStateTokenKeyPair.kid jwk) 0) in
  PrivateStateTokenKeyPair.id key = keyID
  /\ PrivateStateTokenPublicKey.id (PrivateStateTokenKeyPair.publicKey key) = keyID
  /\ PrivateStateTokenSecretKey.id (PrivateStateTokenKeyPair.secretKey key) = keyID.
Proof.
  intros H; cbv zeta; unfold PrivateStateTokenKeyPair.fromJWK in H.
  set (keyID := js_orZ id (js_orZ (PrivateStateTokenKeyPair.kid jwk) 0)) in *.
  apply result_bind_Ok in H as (x & _ & H).
  apply result_bind_Ok in H as (y & _ & H).
  apply result_bind_Ok in H as (d & _ & H).
  apply result_bind_Ok in H as (pub & Hpub & H).
  apply result_bind_Ok in H as (sec & Hsec & H).
  apply Ok_inj in H; subst key.
  unfold PrivateStateTokenPublicKey.fromXY, PrivateStateTokenPublicKey.from in Hpub.
  cbn [key_value_number bind] in Hpub; apply Ok_inj in Hpub; subst pub.
  unfold PrivateStateTokenSecretKey.from in Hsec.
  cbn [key_value_number bind] in Hsec; apply Ok_inj in Hsec; subst sec.
  unfold PrivateStateTokenKeyPair.new.
  cbn [PrivateStateTokenKeyPair.id PrivateStateTokenKeyPair.publicKey
       PrivateStateTokenKeyPair.secretKey PrivateStateTokenPublicKey.id
       PrivateStateTokenSecretKey.id].
  rewrite js_orZ_idem; auto.
Qed.

(** X14.  [addJWK] keeps the identifiers of an issuer in agreement: the
    pair it reads from the JWK carries the [kid] in the pair, in its public
    key and in its secret key, it is stored under the [kid], and the map
    still lists no identifier twice. *)
Theorem addJWK_keeps_identifiers_consistent (now : Z)
    (jwk : PrivateStateTokenKeyPair.JWK) (iss iss' : PrivateStateTokenIssuer.t) :
  ids_consistent iss ->
  PrivateStateTokenIssuer.addJWK now jwk iss = Ok iss' ->
  ids_consistent iss'
  /\ exists key,
       PrivateStateTokenKeyPair.fromJWK now jwk 0 = Ok key
       /\ Map_get Z.eqb (PrivateStateTokenIssuer.keys iss')
            (PrivateStateTokenKeyPair.kid jwk) = Some key
       /\ PrivateStateTokenKeyPair.id key = PrivateStateTokenKeyPair.kid jwk
       /\ PrivateStateTokenPublicKey.id (PrivateStateTokenKeyPair.publicKey key)
          = PrivateStateTokenKeyPair.kid jwk
       /\ PrivateStateTokenSecretKey.id (PrivateStateTokenKeyPair.secretKey key)
          = PrivateStateTokenKeyPair.kid jwk.
Proof.
  intros [Hnd Hc] H; unfold PrivateStateTokenIssuer.addJWK in H.
  apply result_bind_Ok in H as (key & Hkey & H); apply Ok_inj in H; subst iss'.
  pose proof (fromJWK_ids now jwk 0 key Hkey) as Hids; cbv zeta in Hids.
  rewrite js_orZ_self in Hids; destruct Hids as (H1 & H2 & H3).
  split.
  - split; cbn [PrivateStateTokenIssuer.addKey PrivateStateTokenIssuer.keys].
    + apply Map_set_NoDup, Hnd.
    + apply Map_set_Forall; [exact Hc|].
      cbn [fst snd]; rewrite H1, H2; auto.
  - exists key.
    split; [exact Hkey|].
    split; [rewrite <- H1 at 1; apply Map_get_set_same | auto].
Qed.

Lemma addJWK_keeps_identifiers_consistent_witness :
  ids_consistent test_issuer
  /\ exists key,
       PrivateStateTokenKeyPair.fromJWK 0 PrivateStateTokenKeyPair.TEST_JWK_record 0
       = Ok key
       /\ Map_get Z.eqb (PrivateStateTokenIssuer.keys test_issuer)
            (PrivateStateTokenKeyPair.kid PrivateStateTokenKeyPair.TEST_JWK_record)
          = Some key
       /\ PrivateStateTokenKeyPair.id key
          = PrivateStateTokenKeyPair.kid PrivateStateTokenKeyPair.TEST_JWK_record
       /\ PrivateStateTokenPublicKey.id (PrivateStateTokenKeyPair.publicKey key)
          = PrivateStateTokenKeyPair.kid PrivateStateTokenKeyPair.TEST_JWK_record
       /\ PrivateStateTokenSecretKey.id (PrivateStateTokenKeyPair.secretKey key)
          = PrivateStateTokenKeyPair.kid PrivateStateTokenKeyPair.TEST_JWK_record.
Proof.
  apply (addJWK_keeps_identifiers_consistent 0
           PrivateStateTokenKeyPair.TEST_JWK_record
           (PrivateStateTokenIssuer.new DEFAULT_HOST 10 []) test_issuer).
  - split; constructor.
  - vm_compute; reflexivity.
Defined.
(** ** Scalars that the library refuses *)

Lemma multiply_bad_scalar (P : Noble.ProjectivePoint) (k : Z) :
  ~ valid_scalar k -> Noble.multiply P (Some k) = Throw BadScalar.
Proof.
  unfold Noble.multiply, valid_scalar, VOPRF_P384.ORDER; intros Hk.
  destruct (Z.ltb_spec 0 k), (Z.ltb_spec k Noble.CURVE_n); cbn [andb];
    try reflexivity; lia.
Qed.

(** X15.  The key classes accept any number as a secret scalar; the
    curve library does not.  Under a key whose scalar is outside
    [1, n - 1] (zero, negative, or the order and above), [issue] on a
    request with at least one nonce and [redeem] on any token both raise
    the scalar error of the library, and neither returns [null]. *)
Theorem out_of_range_scalar_raises
    (hash_to_field : bytes -> H2FOpts -> Z)
    (hashToCurve : bytes -> H2COpts -> Noble.ProjectivePoint)
    (iss : PrivateStateTokenIssuer.t) (keyId : Z) (request : IssueRequest.t)
    (token : RedeemRequest.t) (redemptionRecord : RedeemResponse.arg)
    (version : option string) (keyPair : PrivateStateTokenKeyPair.t) :
  Map_get Z.eqb (PrivateStateTokenIssuer.keys iss) keyId = Some keyPair ->
  RedeemRequest.keyID token = keyId ->
  ~ valid_scalar (PrivateStateTokenSecretKey.scalar
                    (PrivateStateTokenKeyPair.secretKey keyPair)) ->
  IssueRequest.nonces request <> [] ->
  PrivateStateTokenIssuer.issue hash_to_field iss keyId request version
  = Throw BadScalar
  /\ PrivateStateTokenIssuer.redeem hashToCurve iss token redemptionRecord version
     = Throw BadScalar.
Proof.
  intros Hkey Htok Hsk Hne.
  destruct (getVersionConfig_total version) as [config Hcfg].
  split.
  - unfold PrivateStateTokenIssuer.issue.
    rewrite Hkey, getVersionConfig_default, Hcfg.
    destruct (IssueRequest.nonces request) as [|T rest]; [contradiction|].
    cbn [PrivateStateTokenIssuer.sign_loop]; unfold ECPoint.multiply.
    rewrite multiply_bad_scalar by exact Hsk; reflexivity.
  - unfold PrivateStateTokenIssuer.redeem.
    rewrite getVersionConfig_default, Hcfg, Htok, Hkey; cbn [option_map].
    rewrite multiply_bad_scalar by exact Hsk; reflexivity.
Qed.

Lemma out_of_range_scalar_raises_witness :
  let keyPair := PrivateStateTokenKeyPair.mk 0
                   (PrivateStateTokenPublicKey.mk 0 0 None)
                   (PrivateStateTokenSecretKey.mk 0 0 None) None in
  let iss := PrivateStateTokenIssuer.new DEFAULT_HOST 10 [keyPair] in
  PrivateStateTokenIssuer.issue stub_hash_to_field iss 0
    (IssueRequest.mk [G_point]) None
  = Throw BadScalar
  /\ PrivateStateTokenIssuer.redeem stub_hashToCurve iss short_redeem_request
       (RedeemResponse.OfArray [7]) None
     = Throw BadScalar.
Proof.
  intros keyPair iss.
  apply (out_of_range_scalar_raises stub_hash_to_field stub_hashToCurve iss 0
           (IssueRequest.mk [G_point]) short_redeem_request
           (RedeemResponse.OfArray [7]) None keyPair).
  - reflexivity.
  - reflexivity.
  - unfold valid_scalar; simpl; lia.
  - discriminate.
Defined.

(** ** From issuance to redemption *)

(** X16.  What [issue] signs, [redeem] accepts.  If the [i]-th nonce of
    an issue request is the hash to the curve of a byte string under the
    group tag and hash of the version, then the [i]-th signed nonce of the
    response, sent back with that byte string under the same key
    identifier and version, is redeemed: [redeem] returns the response that
    carries the record. *)
Theorem issued_token_redeems
    (hash_to_field : bytes -> H2FOpts -> Z)
    (hashToCurve : bytes -> H2COpts -> Noble.ProjectivePoint)
    (iss : PrivateStateTokenIssuer.t) (keyId : Z) (request : IssueRequest.t)
    (version : option string) (config : VersionConfig)
    (response : IssueResponse.t) (i : nat) (T z : ECPoint.t)
    (nonce clientData : bytes) (redemptionRecord : RedeemResponse.arg) :
  PrivateStateTokenIssuer.getVersionConfig version = Some config ->
  PrivateStateTokenIssuer.issue hash_to_field iss keyId request version
  = Ok (Some response) ->
  nth_error (IssueRequest.nonces request) i = Some T ->
  nth_error (IssueResponse.signed response) i = Some z ->
  all_bytes nonce ->
  ECPoint.toPoint T
  = hashToCurve nonce (mkH2C (hashToGroupDST config) (hash config)) ->
  PrivateStateTokenIssuer.redeem hashToCurve iss
    (RedeemRequest.mk keyId nonce z clientData) redemptionRecord version
  = Ok (Some (RedeemResponse.new redemptionRecord)).
Proof.
  intros Hcfg H HT Hz Hnonce Hhash.
  apply issue_response_inv in H as (keyPair & config' & Hkey & Hcfg' & Hrun & ->).
  rewrite Hcfg in Hcfg'; apply Some_inj in Hcfg'; subst config'.
  destruct Hrun as (Hsk & _).
  cbn [issue_result IssueResponse.signed] in Hz.
  unfold Spec.signed in Hz; rewrite nth_error_map, HT in Hz.
  cbn [option_map] in Hz; apply Some_inj in Hz; subst z.
  unfold PrivateStateTokenIssuer.redeem.
  cbn [RedeemRequest.nonce RedeemRequest.keyID RedeemRequest.point].
  rewrite getVersionConfig_default, Hcfg, Hkey, Uint8Array_from_bytes by exact Hnonce.
  cbn [option_map]; fold (run_sk keyPair).
  rewrite (proj2 (multiply_Ok _ _ (run_sk keyPair)) (conj Hsk eq_refl)).
  cbn [bind]; unfold ECPoint.toPoint in *; cbn [Spec.sign ECPoint.point].
  rewrite Hhash.
  rewrite (proj2 (equals_eq _ _) eq_refl); reflexivity.
Qed.

Lemma test_run_defined_hashed :
  run_defined stub_hash_to_field PrivateStateTokenIssuer.PrivateStateTokenV3VOPRF
    test_keyPair [hashed_nonce_point].
Proof.
  split; [exact test_key_valid_scalar|].
  split; [constructor; [vm_compute; reflexivity | constructor]|].
  split.
  - eassert (E : run_coefficients stub_hash_to_field
                   PrivateStateTokenIssuer.PrivateStateTokenV3VOPRF
                   test_keyPair [hashed_nonce_point] = _)
      by (vm_compute; reflexivity).
    rewrite E; constructor; [split; vm_compute; reflexivity | constructor].
  - split; [vm_compute; reflexivity|].
    split; vm_compute; reflexivity.
Qed.

Lemma test_issue_response_hashed :
  PrivateStateTokenIssuer.issue stub_hash_to_field test_issuer 0
    (IssueRequest.mk [hashed_nonce_point]) None
  = Ok (Some (issue_result stub_hash_to_field
                PrivateStateTokenIssuer.PrivateStateTokenV3VOPRF
                test_keyPair 0 [hashed_nonce_point])).
Proof.
  apply (issue_characterization stub_hash_to_field test_issuer 0
           (IssueRequest.mk [hashed_nonce_point]) None test_keyPair
           PrivateStateTokenIssuer.PrivateStateTokenV3VOPRF
           test_key_present eq_refl).
  split; [exact test_run_defined_hashed | reflexivity].
Qed.

Lemma issued_token_redeems_witness :
  PrivateStateTokenIssuer.redeem stub_hashToCurve test_issuer
    (RedeemRequest.mk 0 (repeat 0 64)
       (Spec.sign (run_sk test_keyPair) hashed_nonce_point) [1; 2; 3])
    (RedeemResponse.OfArray [7; 7]) None
  = Ok (Some (RedeemResponse.new (RedeemResponse.OfArray [7; 7]))).
Proof.
  apply (issued_token_redeems stub_hash_to_field stub_hashToCurve test_issuer 0
           (IssueRequest.mk [hashed_nonce_point]) None
           PrivateStateTokenIssuer.PrivateStateTokenV3VOPRF
           (issue_result stub_hash_to_field
              PrivateStateTokenIssuer.PrivateStateTokenV3VOPRF
              test_keyPair 0 [hashed_nonce_point])
           0%nat hashed_nonce_point
           (Spec.sign (run_sk test_keyPair) hashed_nonce_point)
           (repeat 0 64) [1; 2; 3] (RedeemResponse.OfArray [7; 7])).
  - reflexivity.
  - exact test_issue_response_hashed.
  - reflexivity.
  - reflexivity.
  - apply repeat_bytes; unfold is_byte; lia.
  - reflexivity.
Defined.
(** ** The issue response on the wire *)

Lemma sign_valid_point (sk : Z) (T : ECPoint.t) :
  valid_element (Noble.scalar_mul sk (ECPoint.point T)) ->
  valid_point (Spec.sign sk T).
Proof.
  intros H; unfold valid_point, Spec.sign; cbn [ECPoint.value ECPoint.point].
  split; [apply uncompressed_length, H|].
  split; [apply uncompressed_bytes | apply fromHex_uncompressed, H].
Qed.

Lemma valid_points_length (ns : list ECPoint.t) :
  Forall valid_point ns ->
  List.length (flat_map ECPoint.value ns) = (97 * List.length ns)%nat.
Proof.
  induction 1 as [|T ns (Hl & _) _ IH]; [reflexivity|].
  cbn [flat_map List.length]; rewrite length_app, Hl, IH; lia.
Qed.

(** X17.  Every response that [issue] returns is a well-formed wire
    message: it names the key identifier of the call, it has one signed
    nonce per nonce of the request, each a valid 97-byte point, its proof
    has 96 bytes, and [toBytes] is a string of [104 + 97 * count] bytes
    that [toString] encodes and the Base64 decoder gives back. *)
Theorem issue_response_is_well_formed (hash_to_field : bytes -> H2FOpts -> Z)
    (iss : PrivateStateTokenIssuer.t) (keyId : Z) (request : IssueRequest.t)
    (version : option string) (response : IssueResponse.t) :
  PrivateStateTokenIssuer.issue hash_to_field iss keyId request version
  = Ok (Some response) ->
  IssueResponse.keyID response = keyId
  /\ IssueResponse.issued response = IssueRequest.count request
  /\ Forall valid_point (IssueResponse.signed response)
  /\ List.length (IssueResponse.proof response) = 96%nat
  /\ all_bytes (IssueResponse.toBytes response)
  /\ List.length (IssueResponse.toBytes response)
     = (104 + 97 * IssueRequest.count request)%nat
  /\ Base64.decode (IssueResponse.toString response)
     = Ok (IssueResponse.toBytes response).
Proof.
  intros H.
  apply issue_response_inv in H as (keyPair & config & _ & _ & Hrun & ->).
  destruct Hrun as (_ & Hz & _).
  set (nonces := IssueRequest.nonces request) in *.
  assert (Hsigned : Forall valid_point (Spec.signed (run_sk keyPair) nonces)).
  { unfold Spec.signed; apply Forall_map.
    apply Forall_forall; intros T HT.
    apply sign_valid_point, (proj1 (Forall_forall _ _) Hz T HT). }
  assert (Hproof : List.length
                     (emitted_proof hash_to_field keyPair
                        (run_Tstar hash_to_field config keyPair nonces)
                        (run_Zstar hash_to_field config keyPair nonces)) = 96%nat).
  { unfold emitted_proof; rewrite length_app, !numberToBytes_length; reflexivity. }
  assert (Hpb : all_bytes
                  (emitted_proof hash_to_field keyPair
                     (run_Tstar hash_to_field config keyPair nonces)
                     (run_Zstar hash_to_field config keyPair nonces))).
  { unfold emitted_proof; apply all_bytes_app; apply numberToBytes_bytes. }
  assert (Hall : all_bytes
                   (IssueResponse.toBytes
                      (issue_result hash_to_field config keyPair keyId nonces))).
  { rewrite IssueResponse_toBytes_frame.
    cbn [issue_result IssueResponse.signed IssueResponse.proof
         IssueResponse.keyID IssueResponse.issued].
    apply all_bytes_app; [apply numberToBytes_bytes|].
    apply all_bytes_app; [apply numberToBytes_bytes|].
    apply all_bytes_app; [apply valid_points_bytes, Hsigned|].
    apply all_bytes_app; [apply numberToBytes_bytes | exact Hpb]. }
  unfold IssueResponse.issued, IssueRequest.count; fold nonces.
  cbn [issue_result IssueResponse.signed IssueResponse.proof IssueResponse.keyID].
  split; [reflexivity|].
  split; [apply signed_length|].
  split; [exact Hsigned|].
  split; [exact Hproof|].
  split; [exact Hall|].
  split; [|apply decode_encode, Hall].
  rewrite IssueResponse_toBytes_frame.
  cbn [issue_result IssueResponse.signed IssueResponse.proof
       IssueResponse.keyID IssueResponse.issued].
  rewrite !length_app, !numberToBytes_length, Hproof.
  rewrite (valid_points_length _ Hsigned), signed_length; lia.
Qed.

Lemma issue_response_is_well_formed_witness :
  let response :=
    issue_result stub_hash_to_field
      PrivateStateTokenIssuer.PrivateStateTokenV3VOPRF test_keyPair 0 [G_point] in
  IssueResponse.keyID response = 0
  /\ IssueResponse.issued response = IssueRequest.count (IssueRequest.mk [G_point])
  /\ Forall valid_point (IssueResponse.signed response)
  /\ List.length (IssueResponse.proof response) = 96%nat
  /\ all_bytes (IssueResponse.toBytes response)
  /\ List.length (IssueResponse.toBytes response)
     = (104 + 97 * IssueRequest.count (IssueRequest.mk [G_point]))%nat
  /\ Base64.decode (IssueResponse.toString response)
     = Ok (IssueResponse.toBytes response).
Proof.
  intros response.
  apply (issue_response_is_well_formed stub_hash_to_field test_issuer 0
           (IssueRequest.mk [G_point]) None response).
  exact test_issue_response.
Defined.

(** ** The token of a private access token *)

(** X18.  A token whose type fits 16 bits and whose nonce, challenge
    hash and key identifier have 32 bytes and whose authenticator has 256
    decodes from its own bytes, which are 354; [from] accepts every token
    type, and [verifyTokenType] is the check that admits only the types 1
    and 2. *)
Theorem Token_round_trip (pol : DataBuffer.ShortRead) (k : Token.t) :
  0 <= Token.tokenType k < 65536 ->
  List.length (Token.nonce k) = 32%nat -> all_bytes (Token.nonce k) ->
  List.length (Token.challengeHash k) = 32%nat -> all_bytes (Token.challengeHash k) ->
  List.length (Token.tokenKeyID k) = 32%nat -> all_bytes (Token.tokenKeyID k) ->
  List.length (Token.authenticator k) = 256%nat -> all_bytes (Token.authenticator k) ->
  Token.from pol (Base64.encode (Token.toBytes k)) = Ok k
  /\ List.length (Token.toBytes k) = 354%nat
  /\ (Token.verifyTokenType k = true
      <-> Token.tokenType k = 1 \/ Token.tokenType k = 2).
Proof.
  intros Ht Ln Bn Lc Bc Lk Bk La Ba.
  destruct k as [tokenType nonce challengeHash tokenKeyID authenticator];
    cbn [Token.tokenType Token.nonce Token.challengeHash Token.tokenKeyID
         Token.authenticator] in *.
  assert (Hbytes : Token.toBytes
                     (Token.mk tokenType nonce challengeHash tokenKeyID authenticator)
                   = DataBuffer.numberToBytes tokenType 2
                     ++ nonce ++ challengeHash ++ tokenKeyID
                     ++ authenticator ++ []).
  { unfold Token.toBytes, Token.toByteArray;
      cbn [Token.tokenType Token.nonce Token.challengeHash Token.tokenKeyID
           Token.authenticator DataBuffer.writeInt DataBuffer.writeBytes
           DataBuffer.toBytes DataBuffer.buffer DataBuffer.empty DataBuffer.new].
    rewrite app_nil_r, <- !app_assoc; reflexivity. }
  split; [|split].
  - unfold Token.from.
    rewrite decode_encode.
    2:{ rewrite Hbytes;
        repeat (apply all_bytes_app;
                [first [apply numberToBytes_bytes | assumption]|]);
        constructor. }
    cbn [bind].
    destruct (readInt_rest pol (DataBuffer.new (Token.toBytes
                (Token.mk tokenType nonce challengeHash tokenKeyID authenticator)))
                _ tokenType 2 Hbytes)
      as (d1 & -> & H1); [change (256 ^ Z.of_nat 2) with 65536; lia|]; cbn [bind].
    destruct (readBytes_rest pol d1 _ _ 32 H1 Ln) as (d2 & -> & H2); cbn [bind].
    destruct (readBytes_rest pol d2 _ _ 32 H2 Lc) as (d3 & -> & H3); cbn [bind].
    destruct (readBytes_rest pol d3 _ _ 32 H3 Lk) as (d4 & -> & H4); cbn [bind].
    destruct (readBytes_rest pol d4 _ _ 256 H4 La) as (d5 & -> & H5); cbn [bind].
    reflexivity.
  - rewrite Hbytes, !length_app, numberToBytes_length, Ln, Lc, Lk, La.
    reflexivity.
  - unfold Token.verifyTokenType, Token.VOPRF, Token.BLIND_RSA;
      cbn [Token.tokenType].
    rewrite orb_true_iff, !Z.eqb_eq; tauto.
Qed.

Lemma Token_round_trip_witness :
  let k := Token.mk 2 (repeat 1 32) (repeat 2 32) (repeat 3 32) (repeat 4 256) in
  Token.from DataBuffer.Strict (Base64.encode (Token.toBytes k)) = Ok k
  /\ List.length (Token.toBytes k) = 354%nat
  /\ (Token.verifyTokenType k = true
      <-> Token.tokenType k = 1 \/ Token.tokenType k = 2).
Proof.
  intros k.
  apply (Token_round_trip DataBuffer.Strict k).
  - cbn; lia.
  - reflexivity.
  - apply repeat_bytes; unfold is_byte; lia.
  - reflexivity.
  - apply repeat_bytes; unfold is_byte; lia.
  - reflexivity.
  - apply repeat_bytes; unfold is_byte; lia.
  - reflexivity.
  - apply repeat_bytes; unfold is_byte; lia.
Defined.
(** ** The version and the signed nonces *)

(** X19.  The protocol version reaches the proof and nothing else of a
    response: two calls of [issue] on the same request under the same key
    identifier that both return a response, whatever their versions,
    return the same signed nonces in the same order. *)
Theorem version_changes_only_the_proof (hash_to_field : bytes -> H2FOpts -> Z)
    (iss : PrivateStateTokenIssuer.t) (keyId : Z) (request : IssueRequest.t)
    (version version' : option string) (response response' : IssueResponse.t) :
  PrivateStateTokenIssuer.issue hash_to_field iss keyId request version
  = Ok (Some response) ->
  PrivateStateTokenIssuer.issue hash_to_field iss keyId request version'
  = Ok (Some response') ->
  IssueResponse.signed response = IssueResponse.signed response'
  /\ IssueResponse.keyID response = IssueResponse.keyID response'
  /\ IssueResponse.issued response = IssueResponse.issued response'.
Proof.
  intros H H'.
  apply issue_response_inv in H as (keyPair & config & Hkey & _ & _ & ->).
  apply issue_response_inv in H' as (keyPair' & config' & Hkey' & _ & _ & ->).
  rewrite Hkey in Hkey'; apply Some_inj in Hkey'; subst keyPair'.
  unfold IssueResponse.issued.
  cbn [issue_result IssueResponse.signed IssueResponse.keyID].
  split; [reflexivity | split; reflexivity].
Qed.

Lemma version_changes_only_the_proof_witness :
  let response :=
    issue_result stub_hash_to_field
      PrivateStateTokenIssuer.PrivateStateTokenV3VOPRF test_keyPair 0 [G_point] in
  let response' :=
    issue_result stub_hash_to_field
      PrivateStateTokenIssuer.PrivateStateTokenV1VOPRF test_keyPair 0 [G_point] in
  IssueResponse.signed response = IssueResponse.signed response'
  /\ IssueResponse.keyID response = IssueResponse.keyID response'
  /\ IssueResponse.issued response = IssueResponse.issued response'.
Proof.
  intros response response'.
  apply (version_changes_only_the_proof stub_hash_to_field test_issuer 0
           (IssueRequest.mk [G_point]) None (Some "PrivateStateTokenV1VOPRF"%string)
           response response').
  - exact test_issue_response.
  - exact test_issue_response_V1.
Defined.

(** ** The identifier in a key commitment *)

(** X20.  The constructor of a key pair keeps its identifier to itself:
    it does not write it into the two keys.  The issuer stores the pair
    under the identifier of the pair, and [keyCommitment] lists it under
    the identifier of the public key; when the two differ, the commitment
    has no entry for the identifier that [issue] serves, and advertises
    one under which [issue] returns [null]. *)
Theorem keyCommitment_lists_the_id_of_the_public_key
    (hash_to_field : bytes -> H2FOpts -> Z)
    (now id : Z) (publicKey : PrivateStateTokenPublicKey.t)
    (secretKey : PrivateStateTokenSecretKey.t) (expiry : number)
    (host : string) (maxBatchSize : Z) (version : option string) :
  id <> 0 ->
  PrivateStateTokenPublicKey.id publicKey <> id ->
  let kp := PrivateStateTokenKeyPair.new now id publicKey secretKey expiry in
  let iss := PrivateStateTokenIssuer.new host maxBatchSize [kp] in
  PrivateStateTokenKeyPair.id kp = id
  /\ PrivateStateTokenPublicKey.id (PrivateStateTokenKeyPair.publicKey kp)
     = PrivateStateTokenPublicKey.id publicKey
  /\ Map_get Z.eqb (PrivateStateTokenIssuer.keys iss) id = Some kp
  /\ (exists kc,
         PrivateStateTokenIssuer.keyCommitment iss version = Ok kc
         /\ Map_get Z.eqb (PrivateStateTokenIssuer.kc_keys kc)
              (PrivateStateTokenPublicKey.id publicKey)
            = Some (commitment_entry (PrivateStateTokenKeyPair.publicKey kp))
         /\ Map_get Z.eqb (PrivateStateTokenIssuer.kc_keys kc) id = None)
  /\ (forall request,
         PrivateStateTokenIssuer.issue hash_to_field iss
           (PrivateStateTokenPublicKey.id publicKey) request version
         = Ok None).
Proof.
  intros Hid Hne kp iss.
  assert (Hkp : PrivateStateTokenKeyPair.id kp = id).
  { unfold kp, PrivateStateTokenKeyPair.new, js_orZ;
      cbn [PrivateStateTokenKeyPair.id].
    destruct (Z.eqb_spec id 0); [contradiction | reflexivity]. }
  assert (Hkeys : PrivateStateTokenIssuer.keys iss = [(id, kp)]).
  { unfold iss, PrivateStateTokenIssuer.new, Map_of_entries.
    cbn [PrivateStateTokenIssuer.keys map fold_left Map_set fst snd].
    rewrite Hkp; reflexivity. }
  assert (Hmiss : (id =? PrivateStateTokenPublicKey.id publicKey) = false).
  { destruct (Z.eqb_spec id (PrivateStateTokenPublicKey.id publicKey));
      [congruence | reflexivity]. }
  assert (Hmiss' : (PrivateStateTokenPublicKey.id publicKey =? id) = false).
  { rewrite Z.eqb_sym; exact Hmiss. }
  split; [exact Hkp|].
  split; [reflexivity|].
  split; [rewrite Hkeys; cbn [Map_get]; rewrite Z.eqb_refl; reflexivity|].
  split.
  - unfold PrivateStateTokenIssuer.keyCommitment.
    rewrite getVersionConfig_default.
    destruct (getVersionConfig_total version) as [config ->].
    eexists; split; [reflexivity|].
    unfold PrivateStateTokenIssuer.publicKeys, Map_values; rewrite Hkeys.
    cbn [map snd fold_left Map_set PrivateStateTokenIssuer.kc_keys Map_get].
    change (PrivateStateTokenPublicKey.id (PrivateStateTokenKeyPair.publicKey kp))
      with (PrivateStateTokenPublicKey.id publicKey).
    rewrite Z.eqb_refl, Hmiss'; split; reflexivity.
  - intros request; unfold PrivateStateTokenIssuer.issue.
    rewrite Hkeys; cbn [Map_get]; rewrite Hmiss; reflexivity.
Qed.

Lemma keyCommitment_lists_the_id_of_the_public_key_witness :
  let publicKey := PrivateStateTokenKeyPair.publicKey test_keyPair in
  let secretKey := PrivateStateTokenKeyPair.secretKey test_keyPair in
  let kp := PrivateStateTokenKeyPair.new 0 5 publicKey secretKey None in
  let iss := PrivateStateTokenIssuer.new DEFAULT_HOST 10 [kp] in
  PrivateStateTokenKeyPair.id kp = 5
  /\ PrivateStateTokenPublicKey.id (PrivateStateTokenKeyPair.publicKey kp)
     = PrivateStateTokenPublicKey.id publicKey
  /\ Map_get Z.eqb (PrivateStateTokenIssuer.keys iss) 5 = Some kp
  /\ (exists kc,
         PrivateStateTokenIssuer.keyCommitment iss None = Ok kc
         /\ Map_get Z.eqb (PrivateStateTokenIssuer.kc_keys kc)
              (PrivateStateTokenPublicKey.id publicKey)
            = Some (commitment_entry (PrivateStateTokenKeyPair.publicKey kp))
         /\ Map_get Z.eqb (PrivateStateTokenIssuer.kc_keys kc) 5 = None)
  /\ (forall request,
         PrivateStateTokenIssuer.issue stub_hash_to_field iss
           (PrivateStateTokenPublicKey.id publicKey) request None
         = Ok None).
Proof.
  intros publicKey secretKey kp iss.
  apply (keyCommitment_lists_the_id_of_the_public_key stub_hash_to_field
           0 5 publicKey secretKey None DEFAULT_HOST 10 None).
  - discriminate.
  - vm_compute; discriminate.
Defined.

(** ** A key pair from the fields of a JWK *)

(** X21.  [fromJWK] on a JWK whose [x], [y] and [d] decode to 48 bytes
    each builds the pair that the JWK describes: the public key is the
    uncompressed point [0x04 || x || y], the secret key is the big-endian
    number [d], the identifier is the argument or else the [kid], and the
    expiry is the scaled [exp], or the scaled default of ninety days from
    now when [exp] is absent or zero. *)
Theorem fromJWK_builds_the_key (now : Z) (jwk : PrivateStateTokenKeyPair.JWK)
    (id : Z) (x y d : bytes) :
  Base64.decode (PrivateStateTokenKeyPair.x jwk) = Ok x ->
  Base64.decode (PrivateStateTokenKeyPair.y jwk) = Ok y ->
  Base64.decode (PrivateStateTokenKeyPair.d jwk) = Ok d ->
  List.length x = 48%nat -> List.length y = 48%nat -> List.length d = 48%nat ->
  exists kp,
    PrivateStateTokenKeyPair.fromJWK now jwk id = Ok kp
    /\ PrivateStateTokenKeyPair.id kp
       = js_orZ id (js_orZ (PrivateStateTokenKeyPair.kid jwk) 0)
    /\ PrivateStateTokenPublicKey.toBytes (PrivateStateTokenKeyPair.publicKey kp)
       = 4 :: x ++ y
    /\ PrivateStateTokenSecretKey.scalar (PrivateStateTokenKeyPair.secretKey kp)
       = DataBuffer.bytesToNumber d
    /\ PrivateStateTokenSecretKey.toBytes (PrivateStateTokenKeyPair.secretKey kp) = d
    /\ PrivateStateTokenKeyPair.expiry kp
       = match js_or (PrivateStateTokenKeyPair.exp jwk)
                 (Some (now + PrivateStateTokenKeyPair.NINETY_DAYS)) with
         | Some e => PrivateStateTokenKeyPair.scale_expiry e
         | None => None
         end.
Proof.
  intros Hx Hy Hd Lx Ly Ld.
  pose proof (decode_bytes _ _ Hx) as Bx.
  pose proof (decode_bytes _ _ Hy) as By.
  pose proof (decode_bytes _ _ Hd) as Bd.
  set (keyID := js_orZ id (js_orZ (PrivateStateTokenKeyPair.kid jwk) 0)).
  destruct (fromXY_toBytes keyID x y (PrivateStateTokenKeyPair.exp jwk) Bx By)
    as (pk & Hpk & Hpid & Hpe & Hps & Hpb); [lia|].
  rewrite Lx, Ly in Hpb; cbn [Nat.add Nat.sub repeat app] in Hpb.
  unfold PrivateStateTokenKeyPair.fromJWK; fold keyID.
  rewrite Hx, Hy, Hd; cbn [bind]; rewrite Hpk; cbn [bind].
  unfold PrivateStateTokenSecretKey.from; cbn [key_value_number bind].
  eexists; split; [reflexivity|].
  unfold PrivateStateTokenKeyPair.new.
  cbn [PrivateStateTokenKeyPair.id PrivateStateTokenKeyPair.secretKey
       PrivateStateTokenKeyPair.publicKey PrivateStateTokenKeyPair.expiry
       PrivateStateTokenSecretKey.id PrivateStateTokenSecretKey.scalar
       PrivateStateTokenSecretKey.expiry PrivateStateTokenSecretKey.toBytes].
  split; [apply js_orZ_idem|].
  split; [rewrite <- Hpb; reflexivity|].
  split; [reflexivity|].
  split.
  - unfold PrivateStateTokenSecretKey.toBytes;
      cbn [PrivateStateTokenSecretKey.scalar].
    rewrite <- Ld; apply numberToBytes_bytesToNumber, Bd.
  - rewrite Hpe; unfold js_or.
    destruct (truthy (PrivateStateTokenKeyPair.exp jwk)); reflexivity.
Qed.

Lemma fromJWK_builds_the_key_witness :
  let jwk := PrivateStateTokenKeyPair.TEST_JWK_record in
  let pub := PrivateStateTokenPublicKey.toBytes
               (PrivateStateTokenKeyPair.publicKey test_keyPair) in
  let x := slice 1 49 pub in
  let y := slice_from 49 pub in
  let d := DataBuffer.numberToBytes (VOPRF_P384.ORDER - 1) 48 in
  exists kp,
    PrivateStateTokenKeyPair.fromJWK 0 jwk 0 = Ok kp
    /\ PrivateStateTokenKeyPair.id kp
       = js_orZ 0 (js_orZ (PrivateStateTokenKeyPair.kid jwk) 0)
    /\ PrivateStateTokenPublicKey.toBytes (PrivateStateTokenKeyPair.publicKey kp)
       = 4 :: x ++ y
    /\ PrivateStateTokenSecretKey.scalar (PrivateStateTokenKeyPair.secretKey kp)
       = DataBuffer.bytesToNumber d
    /\ PrivateStateTokenSecretKey.toBytes (PrivateStateTokenKeyPair.secretKey kp) = d
    /\ PrivateStateTokenKeyPair.expiry kp
       = match js_or (PrivateStateTokenKeyPair.exp jwk)
                 (Some (0 + PrivateStateTokenKeyPair.NINETY_DAYS)) with
         | Some e => PrivateStateTokenKeyPair.scale_expiry e
         | None => None
         end.
Proof.
  intros jwk pub x y d.
  apply (fromJWK_builds_the_key 0 jwk 0 x y d);
    vm_compute; reflexivity.
Defined.

(** ** What the proof gives away *)

(** X22.  The nonce of the proof is the constant [r = n - 1], so the two
    scalars of every proof that [issue] emits, the challenge [c] in the
    first 48 bytes and the response [u] in the last 48, satisfy
    [u + 1 = c * sk (mod n)]: a response determines [c * sk] modulo the
    group order.  The hash primitive is taken to return an element of
    [0, p). *)
Theorem proof_determines_c_times_sk (hash_to_field : bytes -> H2FOpts -> Z)
    (iss : PrivateStateTokenIssuer.t) (keyId : Z) (request : IssueRequest.t)
    (version : option string) (response : IssueResponse.t) :
  (forall msg opts, 1 < h2f_p opts -> 0 <= hash_to_field msg opts < h2f_p opts) ->
  PrivateStateTokenIssuer.issue hash_to_field iss keyId request version
  = Ok (Some response) ->
  exists keyPair,
    Map_get Z.eqb (PrivateStateTokenIssuer.keys iss) keyId = Some keyPair
    /\ let c := DataBuffer.bytesToNumber (firstn 48 (IssueResponse.proof response)) in
       let u := DataBuffer.bytesToNumber (skipn 48 (IssueResponse.proof response)) in
       0 <= c < VOPRF_P384.ORDER
       /\ 0 <= u < VOPRF_P384.ORDER
       /\ (u + 1) mod VOPRF_P384.ORDER
          = (c * run_sk keyPair) mod VOPRF_P384.ORDER.
Proof.
  intros Hrange H.
  apply issue_response_inv in H as (keyPair & config & Hkey & _ & Hrun & ->).
  destruct Hrun as (Hsk & _).
  exists keyPair; split; [exact Hkey|].
  cbn [issue_result IssueResponse.proof]; unfold emitted_proof.
  set (c0 := Spec.challenge hash_to_field _ _ _ _).
  assert (Hc : 0 <= c0 < VOPRF_P384.ORDER).
  { apply (Hrange _ (PrivateStateTokenIssuer.hashTofieldConfig
                       PrivateStateTokenIssuer.PrivateStateTokenV3VOPRF)).
    exact ORDER_positive. }
  pose proof ORDER_positive as Hn.
  pose proof ORDER_fits_48_bytes as Hfit.
  pose proof r_valid as [Hr0 Hr1].
  destruct Hsk as [Hsk0 Hsk1].
  rewrite Z.rem_mod_nonneg by nia.
  assert (Hu : 0 <= (Spec.r + c0 * run_sk keyPair) mod VOPRF_P384.ORDER
               < VOPRF_P384.ORDER) by (apply Z.mod_pos_bound; lia).
  rewrite firstn_app_exact, skipn_app_exact by apply numberToBytes_length.
  rewrite !bytesToNumber_numberToBytes by (change (Z.of_nat 48) with 48; lia).
  cbv zeta.
  split; [exact Hc | split; [exact Hu|]].
  rewrite Z.add_mod_idemp_l by lia.
  replace (Spec.r + c0 * run_sk keyPair + 1)
    with (c0 * run_sk keyPair + 1 * VOPRF_P384.ORDER)
    by (unfold Spec.r; lia).
  apply Z_mod_plus_full.
Qed.

Lemma proof_determines_c_times_sk_witness :
  let response :=
    issue_result stub_hash_to_field
      PrivateStateTokenIssuer.PrivateStateTokenV3VOPRF test_keyPair 0 [G_point] in
  exists keyPair,
    Map_get Z.eqb (PrivateStateTokenIssuer.keys test_issuer) 0 = Some keyPair
    /\ let c := DataBuffer.bytesToNumber (firstn 48 (IssueResponse.proof response)) in
       let u := DataBuffer.bytesToNumber (skipn 48 (IssueResponse.proof response)) in
       0 <= c < VOPRF_P384.ORDER
       /\ 0 <= u < VOPRF_P384.ORDER
       /\ (u + 1) mod VOPRF_P384.ORDER
          = (c * run_sk keyPair) mod VOPRF_P384.ORDER.
Proof.
  intros response.
  apply (proof_determines_c_times_sk stub_hash_to_field test_issuer 0
           (IssueRequest.mk [G_point]) None response).
  - exact stub_hash_range.
  - exact test_issue_response.
Defined.
(** ** The outcomes of the issue-request decoder *)

Lemma sextet_error (c : ascii) (e : Error) :
  Base64.sextet c = Throw e -> e = DecodeError.
Proof.
  unfold Base64.sextet; destruct (Base64.sextet_of_char c); [discriminate|].
  intros H; injection H as <-; reflexivity.
Qed.

Lemma bind_Throw {A B : Type} (r : result A) (k : A -> result B) (e : Error) :
  bind r k = Throw e -> r = Throw e \/ exists a, r = Ok a /\ k a = Throw e.
Proof.
  destruct r as [a|e']; cbn [bind]; intros H; [right; eauto|].
  left; injection H as ->; reflexivity.
Qed.

Lemma decode_error_upto (n : nat) : forall (s : string) (e : Error),
  (String.length s <= n)%nat -> Base64.decode s = Throw e -> e = DecodeError.
Proof.
  induction n as [|n IH]; intros s e Hlen H.
  - destruct s; [discriminate H | cbn in Hlen; lia].
  - destruct s as [|c1 [|c2 [|c3 [|c4 rest]]]]; cbn [Base64.decode] in H;
      try (injection H as <-; reflexivity); [discriminate H|].
    apply bind_Throw in H as [H|(s1 & _ & H)]; [exact (sextet_error _ _ H)|].
    apply bind_Throw in H as [H|(s2 & _ & H)]; [exact (sextet_error _ _ H)|].
    destruct (Ascii.eqb c4 Base64.pad).
    + destruct rest; [|injection H as <-; reflexivity].
      destruct (Ascii.eqb c3 Base64.pad); [discriminate H|].
      apply bind_Throw in H as [H|(s3 & _ & H)];
        [exact (sextet_error _ _ H) | discriminate H].
    + apply bind_Throw in H as [H|(s3 & _ & H)]; [exact (sextet_error _ _ H)|].
      apply bind_Throw in H as [H|(s4 & _ & H)]; [exact (sextet_error _ _ H)|].
      apply bind_Throw in H as [H|(tl & _ & H)]; [|discriminate H].
      apply (IH rest); [cbn [String.length] in Hlen; lia | exact H].
Qed.

Lemma decode_error (s : string) (e : Error) :
  Base64.decode s = Throw e -> e = DecodeError.
Proof. apply (decode_error_upto (String.length s)); lia. Qed.

Lemma readBytes_error (pol : DataBuffer.ShortRead) (len : nat) (d : DataBuffer.t)
    (e : Error) :
  DataBuffer.readBytes pol len d = Throw e -> e = DecodeError.
Proof.
  unfold DataBuffer.readBytes.
  destruct (_ <? _)%nat; [|discriminate].
  destruct pol; [|discriminate].
  intros H; injection H as <-; reflexivity.
Qed.

(** An error of the loop is an error of a read: the error of a point
    that does not parse is caught. *)
Lemma from_loop_error (pol : DataBuffer.ShortRead) :
  forall (fuel : nat) (count : Z) (d : DataBuffer.t) (acc : list ECPoint.t)
         (e : Error),
    IssueRequest.from_loop pol fuel count d acc = Some (Throw e) ->
    e = DecodeError.
Proof.
  induction fuel as [|fuel IH]; intros count d acc e H;
    cbn [IssueRequest.from_loop] in H.
  - destruct (_ <? _); discriminate H.
  - destruct (_ <? _); [|discriminate H].
    destruct (DataBuffer.readBytes pol VOPRF_P384.POINT_BYTES d)
      as [[v d']|e'] eqn:Hread.
    + destruct (ECPoint.new (ECPoint.OfBytes v)); apply IH in H; exact H.
    + apply Some_inj in H; injection H as <-.
      exact (readBytes_error _ _ _ _ Hread).
Qed.

Lemma from_loop_S (pol : DataBuffer.ShortRead) (fuel : nat) (count : Z)
    (d : DataBuffer.t) (acc : list ECPoint.t) :
  IssueRequest.from_loop pol (S fuel) count d acc
  = if Z.of_nat (List.length acc) <? count then
      match DataBuffer.readBytes pol VOPRF_P384.POINT_BYTES d with
      | Throw e => Some (Throw e)
      | Ok (value, d') =>
          match ECPoint.new (ECPoint.OfBytes value) with
          | Ok ecPoint => IssueRequest.from_loop pol fuel count d' (acc ++ [ecPoint])
          | Throw _ => IssueRequest.from_loop pol fuel count d' acc
          end
      end
    else Some (Ok acc).
Proof. reflexivity. Qed.

(** More fuel does not change a result. *)
Lemma from_loop_more_fuel (pol : DataBuffer.ShortRead) :
  forall (fuel : nat) (count : Z) (d : DataBuffer.t) (acc : list ECPoint.t)
         (r : result (list ECPoint.t)),
    IssueRequest.from_loop pol fuel count d acc = Some r ->
    IssueRequest.from_loop pol (S fuel) count d acc = Some r.
Proof.
  induction fuel as [|fuel IH]; intros count d acc r H.
  - cbn [IssueRequest.from_loop] in H |- *.
    destruct (_ <? _); [discriminate H | exact H].
  - rewrite from_loop_S in H; rewrite from_loop_S.
    destruct (_ <? _); [|exact H].
    destruct (DataBuffer.readBytes pol VOPRF_P384.POINT_BYTES d)
      as [[v d']|e']; [|exact H].
    destruct (ECPoint.new (ECPoint.OfBytes v)); apply IH, H.
Qed.

Lemma from_more_fuel (pol : DataBuffer.ShortRead) (s : string)
    (r : result IssueRequest.t) (fuel : nat) :
  IssueRequest.from pol fuel s = Some r ->
  forall k : nat, IssueRequest.from pol (k + fuel) s = Some r.
Proof.
  intros H k; induction k as [|k IH]; [exact H|].
  cbn [Nat.add]; revert IH; unfold IssueRequest.from.
  destruct (Base64.decode s) as [bs|e]; [|auto].
  destruct (DataBuffer.readInt pol 2 (DataBuffer.new bs)) as [[count d]|e]; [|auto].
  destruct (IssueRequest.from_loop pol (k + fuel) count d []) as [r'|] eqn:E;
    [|discriminate].
  rewrite (from_loop_more_fuel pol _ _ _ _ _ E); auto.
Qed.

(** X23.  The outcomes of [IssueRequest.from].  A call raises nothing
    but the decode error (the error of a point that does not parse never
    leaves the loop), and a result does not change with more fuel.  With
    a reader that refuses short reads the call ends on every input, with a
    request or with the decode error, and a message of fewer than
    [2 + 97 * count] bytes ends with the decode error. *)
Theorem IssueRequest_from_strict_outcomes (s : string) :
  (forall pol fuel e,
      IssueRequest.from pol fuel s = Some (Throw e) -> e = DecodeError)
  /\ (forall pol fuel fuel' r,
         IssueRequest.from pol fuel s = Some r -> (fuel <= fuel')%nat ->
         IssueRequest.from pol fuel' s = Some r)
  /\ exists fuel r,
       IssueRequest.from DataBuffer.Strict fuel s = Some r
       /\ (r = Throw DecodeError \/ exists m, r = Ok m)
       /\ (forall bs,
              Base64.decode s = Ok bs ->
              (List.length bs
               < 2 + 97 * Z.to_nat (DataBuffer.bytesToNumber (firstn 2 bs)))%nat ->
              r = Throw DecodeError).
Proof.
  assert (Herr : forall pol fuel e,
             IssueRequest.from pol fuel s = Some (Throw e) -> e = DecodeError).
  { intros pol fuel e; unfold IssueRequest.from.
    destruct (Base64.decode s) as [bs|e'] eqn:Hdec.
    - destruct (DataBuffer.readInt pol 2 (DataBuffer.new bs)) as [[count d]|e'']
        eqn:Hint.
      + destruct (IssueRequest.from_loop pol fuel count d []) as [[ns|e3]|] eqn:Hl;
          try discriminate.
        intros H; apply Some_inj in H; injection H as <-.
        exact (from_loop_error _ _ _ _ _ _ Hl).
      + intros H; apply Some_inj in H; injection H as <-.
        unfold DataBuffer.readInt in Hint.
        apply bind_Throw in Hint as [Hint|([v d'] & _ & Hint)];
          [exact (readBytes_error _ _ _ _ Hint) | discriminate Hint].
    - intros H; apply Some_inj in H; injection H as <-.
      exact (decode_error _ _ Hdec). }
  split; [exact Herr|].
  split.
  { intros pol fuel fuel' r H Hle.
    replace fuel' with ((fuel' - fuel) + fuel)%nat by lia.
    apply from_more_fuel, H. }
  destruct (IssueRequest_from_strict_terminates s) as (fuel & r & Hr).
  exists fuel, r; split; [exact Hr|].
  destruct r as [m|e].
  - split; [right; eauto|].
    intros bs Hdec Hshort.
    apply IssueRequest_from_parts in Hr as (bs' & d & Hdec' & Hb & H0 & Hloop & Hs).
    rewrite Hdec in Hdec'; apply Ok_inj in Hdec'; subst bs'.
    apply from_loop_result in Hloop as (new & Hnew & Hcount & _ & Hst);
      [|exact Hb | cbn [List.length]; lia].
    destruct (Hst eq_refl) as [_ Hlen]; specialize (Hs eq_refl).
    cbn [app] in Hnew; subst new.
    rewrite <- Hcount, Nat2Z.id in Hshort; lia.
  - rewrite (Herr _ _ _ Hr); split; [left; reflexivity | reflexivity].
Qed.
(** ** An expiry that is not positive *)

(** X24.  The two expiries that are not positive.  A zero counts as
    absent: the constructor falls back to the expiry of the secret key,
    then of the public key, then ninety days from now, as it does without
    the argument.  A negative expiry is taken as given, its logarithm is
    not a number, and the pair and both keys end with [NaN] as their
    expiry. *)
Theorem nonpositive_expiry (now id : Z)
    (publicKey : PrivateStateTokenPublicKey.t)
    (secretKey : PrivateStateTokenSecretKey.t) (e : Z) :
  e < 0 ->
  let kp := PrivateStateTokenKeyPair.new now id publicKey secretKey (Some e) in
  PrivateStateTokenKeyPair.expiry kp = None
  /\ PrivateStateTokenPublicKey.expiry (PrivateStateTokenKeyPair.publicKey kp) = None
  /\ PrivateStateTokenSecretKey.expiry (PrivateStateTokenKeyPair.secretKey kp) = None
  /\ PrivateStateTokenKeyPair.new now id publicKey secretKey (Some 0)
     = PrivateStateTokenKeyPair.new now id publicKey secretKey None.
Proof.
  intros He kp; unfold kp, PrivateStateTokenKeyPair.new.
  cbn [PrivateStateTokenKeyPair.expiry PrivateStateTokenKeyPair.publicKey
       PrivateStateTokenKeyPair.secretKey PrivateStateTokenPublicKey.expiry
       PrivateStateTokenSecretKey.expiry].
  assert (Ht : truthy (Some e) = true).
  { cbn [truthy]; destruct (Z.eqb_spec e 0); [lia | reflexivity]. }
  assert (Hs : PrivateStateTokenKeyPair.scale_expiry e = None).
  { unfold PrivateStateTokenKeyPair.scale_expiry.
    destruct (Z.ltb_spec 0 e); [lia | reflexivity]. }
  assert (Hor : forall b, js_or (Some e) b = Some e)
    by (intros b; unfold js_or; rewrite Ht; reflexivity).
  rewrite !Hor, Hs.
  split; [reflexivity | split; [reflexivity | split; reflexivity]].
Qed.

Lemma nonpositive_expiry_witness :
  let publicKey := PrivateStateTokenPublicKey.mk 0 0 (Some 7) in
  let secretKey := PrivateStateTokenSecretKey.mk 0 0 None in
  let kp := PrivateStateTokenKeyPair.new 0 0 publicKey secretKey (Some (-5)) in
  PrivateStateTokenKeyPair.expiry kp = None
  /\ PrivateStateTokenPublicKey.expiry (PrivateStateTokenKeyPair.publicKey kp) = None
  /\ PrivateStateTokenSecretKey.expiry (PrivateStateTokenKeyPair.secretKey kp) = None
  /\ PrivateStateTokenKeyPair.new 0 0 publicKey secretKey (Some 0)
     = PrivateStateTokenKeyPair.new 0 0 publicKey secretKey None.
Proof.
  intros publicKey secretKey kp.
  apply (nonpositive_expiry 0 0 publicKey secretKey (-5)); lia.
Defined.
(** ** The empty request *)

(** X25.  [issue] has no successful empty response: on a request without
    nonces, under any key the issuer holds and any version, the two batch
    composites are the identity, the proof generator asks the library to
    serialize it, and the call raises the point error. *)
Theorem issue_raises_on_every_empty_request
    (hash_to_field : bytes -> H2FOpts -> Z)
    (iss : PrivateStateTokenIssuer.t) (keyId : Z) (request : IssueRequest.t)
    (version : option string) (keyPair : PrivateStateTokenKeyPair.t) :
  Map_get Z.eqb (PrivateStateTokenIssuer.keys iss) keyId = Some keyPair ->
  IssueRequest.nonces request = [] ->
  PrivateStateTokenIssuer.issue hash_to_field iss keyId request version
  = Throw BadPoint.
Proof.
  intros Hkey Hnil.
  destruct (getVersionConfig_total version) as [config Hcfg].
  unfold PrivateStateTokenIssuer.issue.
  rewrite Hkey, getVersionConfig_default, Hcfg, Hnil.
  cbn [PrivateStateTokenIssuer.sign_loop bind List.length
       PrivateStateTokenIssuer.exponent_loop PrivateStateTokenIssuer.combine_loop].
  unfold PrivateStateTokenIssuer.generateDLEQProof.
  change (PrivateStateTokenIssuer.getVersionConfig
            (Some (PrivateStateTokenIssuer.default_arg None
                     "PrivateStateTokenV3VOPRF")))
    with (Some PrivateStateTokenIssuer.PrivateStateTokenV3VOPRF).
  rewrite !multiply_r; cbn [bind].
  generalize (Noble.scalar_mul Spec.r Noble.BASE); intros k0.
  cbn [Noble.toRawBytes Noble.assertValidity bind].
  reflexivity.
Qed.

Lemma issue_raises_on_every_empty_request_witness :
  PrivateStateTokenIssuer.issue stub_hash_to_field test_issuer 0
    (IssueRequest.mk []) (Some "PrivateStateTokenV1VOPRF"%string)
  = Throw BadPoint.
Proof.
  apply (issue_raises_on_every_empty_request stub_hash_to_field test_issuer 0
           (IssueRequest.mk []) (Some "PrivateStateTokenV1VOPRF"%string)
           test_keyPair).
  - exact test_key_present.
  - reflexivity.
Defined.
(** ** The encoding of an issue response is unambiguous *)

Lemma app_eq_same_length {A : Type} (a a' b b' : list A) :
  List.length a = List.length a' -> a ++ b = a' ++ b' -> a = a' /\ b = b'.
Proof.
  revert a'; induction a as [|x a IH]; intros [|x' a'] Hlen H;
    cbn in Hlen; try discriminate Hlen.
  - split; [reflexivity | exact H].
  - cbn [app] in H; injection H as -> H.
    destruct (IH a') as [-> ->]; [lia | exact H | split; reflexivity].
Qed.

Lemma numberToBytes_inj (len : nat) (n n' : Z) :
  0 <= n < 256 ^ Z.of_nat len -> 0 <= n' < 256 ^ Z.of_nat len ->
  DataBuffer.numberToBytes n len = DataBuffer.numberToBytes n' len -> n = n'.
Proof.
  intros Hn Hn' H.
  rewrite <- (bytesToNumber_numberToBytes len n Hn).
  rewrite <- (bytesToNumber_numberToBytes len n' Hn'), H; reflexivity.
Qed.

(** A valid point is determined by its bytes. *)
Lemma valid_point_inj (e e' : ECPoint.t) :
  valid_point e -> valid_point e' -> ECPoint.value e = ECPoint.value e' -> e = e'.
Proof.
  intros (_ & _ & H) (_ & _ & H') Hv.
  destruct e as [v P], e' as [v' P']; cbn [ECPoint.value ECPoint.point] in *.
  subst v'; rewrite H in H'; apply Ok_inj in H'; subst P'; reflexivity.
Qed.

Lemma valid_points_inj (ns : list ECPoint.t) : forall ns' : list ECPoint.t,
  Forall valid_point ns -> Forall valid_point ns' ->
  List.length ns = List.length ns' ->
  flat_map ECPoint.value ns = flat_map ECPoint.value ns' -> ns = ns'.
Proof.
  induction ns as [|e ns IH]; intros [|e' ns'] Hv Hv' Hlen H;
    cbn in Hlen; try discriminate Hlen; [reflexivity|].
  cbn [flat_map] in H.
  pose proof (Forall_inv Hv) as He; pose proof (Forall_inv Hv') as He'.
  apply app_eq_same_length in H as [Hval Hrest].
  - rewrite (valid_point_inj e e' He He' Hval).
    rewrite (IH ns' (Forall_inv_tail Hv) (Forall_inv_tail Hv')); [reflexivity | lia | exact Hrest].
  - destruct He as (-> & _), He' as (-> & _); reflexivity.
Qed.

(** X26.  The source has no decoder for an issue response, and needs
    none to be unambiguous: two responses of valid points whose counts
    and proof lengths fit 16 bits and whose key identifiers fit 32 bits,
    and which [toBytes] maps to the same bytes, are the same response. *)
Theorem IssueResponse_toBytes_injective (r r' : IssueResponse.t) :
  Z.of_nat (IssueResponse.issued r) < 65536 ->
  Z.of_nat (IssueResponse.issued r') < 65536 ->
  0 <= IssueResponse.keyID r < 2 ^ 32 ->
  0 <= IssueResponse.keyID r' < 2 ^ 32 ->
  Forall valid_point (IssueResponse.signed r) ->
  Forall valid_point (IssueResponse.signed r') ->
  Z.of_nat (List.length (IssueResponse.proof r)) < 65536 ->
  Z.of_nat (List.length (IssueResponse.proof r')) < 65536 ->
  IssueResponse.toBytes r = IssueResponse.toBytes r' ->
  r = r'.
Proof.
  intros Hi Hi' Hk Hk' Hv Hv' Hp Hp' H.
  rewrite !IssueResponse_toBytes_frame in H.
  destruct r as [keyID signed proof], r' as [keyID' signed' proof'].
  unfold IssueResponse.issued in *;
    cbn [IssueResponse.keyID IssueResponse.signed IssueResponse.proof] in *.
  apply app_eq_same_length in H as [H1 H]; [|rewrite !numberToBytes_length; reflexivity].
  apply numberToBytes_inj in H1;
    [|change (256 ^ Z.of_nat 2) with 65536; lia ..].
  apply Nat2Z.inj in H1.
  apply app_eq_same_length in H as [H2 H]; [|rewrite !numberToBytes_length; reflexivity].
  apply numberToBytes_inj in H2;
    [|change (256 ^ Z.of_nat 4) with (2 ^ 32); lia ..].
  apply app_eq_same_length in H as [H3 H];
    [|rewrite !valid_points_length by assumption; lia].
  apply valid_points_inj in H3; [|assumption ..].
  apply app_eq_same_length in H as [H4 H5]; [|rewrite !numberToBytes_length; reflexivity].
  subst; reflexivity.
Qed.

Lemma IssueResponse_toBytes_injective_witness :
  IssueResponse.mk 7 [G_point] [1; 2] = IssueResponse.mk 7 [G_point] [1; 2].
Proof.
  apply (IssueResponse_toBytes_injective
           (IssueResponse.mk 7 [G_point] [1; 2])
           (IssueResponse.mk 7 [G_point] [1; 2])).
  - cbn; lia.
  - cbn; lia.
  - cbn; lia.
  - cbn; lia.
  - constructor; [exact G_point_valid | constructor].
  - constructor; [exact G_point_valid | constructor].
  - cbn; lia.
  - cbn; lia.
  - reflexivity.
Defined.
